(** * Korjournal: persistence and ingestion core

    A shallow embedding of the trip store ([src/lib/database.ts]), the
    record parser ([src/lib/csvParser.ts]) and the import route (the
    encoding detection and the tally loop of the upload handler), with
    the properties the specification states about them.

    Layout: the embedding first (modules [JS], [CsvParser],
    [TextDecoder], [Encoding], [Store], [Sqlite], [JSDate], [Database],
    [ImportRoute], then [Statements], [Maintenance], [ImportPipeline],
    [TripRoute] and [Upload] for the rest of the store and of the
    routes), then the notions the statements use, then the
    properties. *)

From Stdlib Require Import ZArith NArith QArith Lia Bool Ascii String.
From stdpp Require Import base decidable option list gmap sorting.

Local Open Scope Z_scope.

(* ===================================================================== *)
(** * JavaScript values used by the program                               *)
(* ===================================================================== *)

Module JS.

(** A string is the sequence of its characters, each one a Unicode code
    point.  Every text the program handles comes out of a [TextDecoder]
    or out of the database, so it holds no lone surrogate, and every
    pattern of the program (the byte-order mark, the null character,
    the no-break space, [\s], [;], line breaks, the category keywords)
    lies in the basic plane. *)
Definition text := list N.

(** An ASCII literal as a text. *)
Definition str (s : string) : text :=
  map N_of_ascii (list_ascii_of_string s).

Definition text_eqb (a b : text) : bool := bool_decide (a = b).

(** [!s] on a string: true exactly for the empty string. *)
Definition is_empty (s : text) : bool :=
  match s with [] => true | _ => false end.

(** [a || b] on strings. *)
Definition or_else (a b : text) : text := if is_empty a then b else a.

(** [values[k]] on an array of strings; [undefined] is rendered by [None]. *)
Definition index (values : list text) (k : nat) : option text := values !! k.

(** [values[k] || dflt]. *)
Definition index_or (values : list text) (k : nat) (dflt : text) : text :=
  match index values k with
  | Some v => or_else v dflt
  | None => dflt
  end.

(** The characters matched by [\s] and removed by [trim]: WhiteSpace and
    LineTerminator of ECMA-262. *)
Definition is_space (c : N) : bool :=
  ((9 <=? c) && (c <=? 13) || (c =? 32) || (c =? 160) || (c =? 5760)
   || (8192 <=? c) && (c <=? 8202) || (c =? 8232) || (c =? 8233)
   || (c =? 8239) || (c =? 8287) || (c =? 12288) || (c =? 65279))%N.

Fixpoint trim_start (s : text) : text :=
  match s with
  | c :: rest => if is_space c then trim_start rest else s
  | [] => []
  end.

Definition trim_end (s : text) : text := rev (trim_start (rev s)).

(** [s.trim()] *)
Definition trim (s : text) : text := trim_end (trim_start s).

(** [s.replace(/^\uFEFF/, '')]: one leading byte-order mark removed. *)
Definition strip_bom (s : text) : text :=
  match s with
  | c :: rest => if (c =? 65279)%N then rest else s
  | [] => []
  end.

(** [s.replace(/\u0000/g, '')] *)
Definition remove_nulls (s : text) : text :=
  filter (λ c, c ≠ 0%N) s.

(** [s.replace(/\u00A0/g, ' ')] *)
Definition replace_nbsp (s : text) : text :=
  map (λ c, if (c =? 160)%N then 32%N else c) s.

(** [s.replace(/\s+/g, ' ')]: every maximal run of white space becomes
    one space.  [in_run] says that the previous character was white
    space, whose space has been written already. *)
Fixpoint collapse_spaces_from (in_run : bool) (s : text) : text :=
  match s with
  | [] => []
  | c :: rest =>
      if is_space c
      then (if in_run then collapse_spaces_from true rest
            else 32%N :: collapse_spaces_from true rest)
      else c :: collapse_spaces_from false rest
  end.

Definition collapse_spaces (s : text) : text := collapse_spaces_from false s.

(** [s.replace(',', '.')]: a string pattern replaces the first
    occurrence only. *)
Fixpoint replace_first_comma (s : text) : text :=
  match s with
  | [] => []
  | c :: rest => if (c =? 44)%N then 46%N :: rest
                 else c :: replace_first_comma rest
  end.

(** [s.split(sep)] for a one-character separator. [cur] is the segment
    being read, newest character first. *)
Fixpoint split_on_from (sep : N) (cur : text) (s : text) : list text :=
  match s with
  | [] => [rev cur]
  | c :: rest =>
      if (c =? sep)%N then rev cur :: split_on_from sep [] rest
      else split_on_from sep (c :: cur) rest
  end.

Definition split_on (sep : N) (s : text) : list text := split_on_from sep [] s.

(** [s.split(/\r?\n/)]: a line feed, with the carriage return before it
    when there is one, separates; a carriage return alone does not. *)
Fixpoint split_lines_from (cur : text) (s : text) : list text :=
  match s with
  | [] => [rev cur]
  | c :: rest =>
      if (c =? 10)%N then rev cur :: split_lines_from [] rest
      else if (c =? 13)%N then
        match rest with
        | d :: rest' =>
            if (d =? 10)%N then rev cur :: split_lines_from [] rest'
            else split_lines_from (c :: cur) rest
        | [] => split_lines_from (c :: cur) rest
        end
      else split_lines_from (c :: cur) rest
  end.

Definition split_lines (s : text) : list text := split_lines_from [] s.

(** [p] is a prefix of [s]. *)
Fixpoint starts_with (p s : text) : bool :=
  match p, s with
  | [], _ => true
  | a :: p', b :: s' => (a =? b)%N && starts_with p' s'
  | _ :: _, [] => false
  end.

(** ** Numbers

    A Number is an IEEE 754 binary64 value.  Its finite values are kept
    as the rational they denote, in lowest terms; the two zeros are one
    value, which no comparison of the program tells apart. *)
Inductive number :=
| NaN
| PosInfinity
| NegInfinity
| Fin (q : Q).

(** [a > b] *)
Definition gt (a b : number) : bool :=
  match a, b with
  | NaN, _ | _, NaN => false
  | PosInfinity, PosInfinity => false
  | PosInfinity, _ => true
  | _, PosInfinity => false
  | NegInfinity, _ => false
  | Fin _, NegInfinity => true
  | Fin x, Fin y => negb (Qle_bool x y)
  end.

(** [a === b] *)
Definition strict_eq (a b : number) : bool :=
  match a, b with
  | PosInfinity, PosInfinity => true
  | NegInfinity, NegInfinity => true
  | Fin x, Fin y => Qeq_bool x y
  | _, _ => false
  end.

Definition zero : number := Fin 0.

(** The integer nearest to [n / d] for [d > 0], ties to the even one. *)
Definition round_half_even (n d : Z) : Z :=
  let q := n / d in
  match (2 * (n mod d) ?= d) with
  | Lt => q
  | Gt => q + 1
  | Eq => if Z.even q then q else q + 1
  end.

(** [a / d] against [2 ^ e], for positive [a] and [d]. *)
Definition cmp_pow2 (a d e : Z) : comparison :=
  if 0 <=? e then (a ?= d * 2 ^ e) else (a * 2 ^ (- e) ?= d).

(** The Number value of a rational: round to nearest, ties to even,
    with 53 bits of precision, gradual underflow below [2 ^ -1022] and
    overflow to infinity from [2 ^ 1024] on. *)
Definition number_of_Q (q : Q) : number :=
  let n := Qnum q in
  let d := Z.pos (Qden q) in
  if n =? 0 then Fin 0 else
  let a := Z.abs n in
  let e0 := Z.log2 a - Z.log2 d in
  let e := match cmp_pow2 a d e0 with Lt => e0 - 1 | _ => e0 end in
  let x := Z.max (e - 52) (-1074) in
  let m := if 0 <=? x then round_half_even a (d * 2 ^ x)
           else round_half_even (a * 2 ^ (- x)) d in
  if (0 <=? x) && (2 ^ 1024 <=? m * 2 ^ x)
  then (if 0 <? n then PosInfinity else NegInfinity)
  else
    let v := if 0 <=? x then inject_Z (m * 2 ^ x)
             else Qred (Qmake m (Z.to_pos (2 ^ (- x)))) in
    Fin (if 0 <? n then v else Qred (Qopp v)).

(** The value of a digit in a radix up to 16, if it is one. *)
Definition digit_value (radix : Z) (c : N) : option Z :=
  let v := if ((48 <=? c) && (c <=? 57))%N then Some (Z.of_N c - 48)
           else if ((97 <=? c) && (c <=? 102))%N then Some (Z.of_N c - 87)
           else if ((65 <=? c) && (c <=? 70))%N then Some (Z.of_N c - 55)
           else None in
  match v with
  | Some d => if d <? radix then Some d else None
  | None => None
  end.

(** The longest prefix of digits: how many there are, their value after
    the accumulator [acc], and the rest. *)
Fixpoint read_digits (radix : Z) (count : nat) (acc : Z) (s : text)
  : nat * Z * text :=
  match s with
  | c :: rest =>
      match digit_value radix c with
      | Some d => read_digits radix (S count) (acc * radix + d) rest
      | None => (count, acc, s)
      end
  | [] => (count, acc, s)
  end.

(** An optional sign: [-1] after a minus, else [1]. *)
Definition read_sign (s : text) : Z * text :=
  match s with
  | c :: rest =>
      if (c =? 45)%N then (-1, rest)
      else if (c =? 43)%N then (1, rest)
      else (1, s)
  | [] => (1, s)
  end.

(** [parseInt(s)], no radix given: leading white space skipped, an
    optional sign, hexadecimal after [0x] or [0X], else decimal; the
    longest prefix of digits, [NaN] when there is none. *)
Definition parseInt (s : text) : number :=
  let '(sign, s1) := read_sign (trim_start s) in
  let '(radix, s2) :=
    match s1 with
    | z :: x :: rest =>
        if ((z =? 48) && ((x =? 120) || (x =? 88)))%N then (16, rest)
        else (10, s1)
    | _ => (10, s1)
    end in
  let '(count, value, _) := read_digits radix 0 0 s2 in
  match count with
  | O => NaN
  | S _ => number_of_Q (inject_Z (sign * value))
  end.

(** The exponent part of a decimal literal, [e] or [E], an optional sign
    and at least one digit; zero when what follows is no exponent part. *)
Definition read_exponent (s : text) : Z :=
  match s with
  | c :: rest =>
      if ((c =? 101) || (c =? 69))%N then
        let '(sign, s1) := read_sign rest in
        let '(count, value, _) := read_digits 10 0 0 s1 in
        match count with O => 0 | S _ => sign * value end
      else 0
  | [] => 0
  end.

(** [parseFloat(s)]: leading white space skipped, then the longest
    prefix that is a StrDecimalLiteral, [NaN] when there is none. *)
Definition parseFloat (s : text) : number :=
  let '(sign, s1) := read_sign (trim_start s) in
  if starts_with (str "Infinity") s1
  then (if sign <? 0 then NegInfinity else PosInfinity)
  else
    let '(icount, ivalue, s2) := read_digits 10 0 0 s1 in
    let '(fcount, mantissa, s3) :=
      match s2 with
      | c :: rest =>
          if (c =? 46)%N then read_digits 10 0 ivalue rest
          else (O, ivalue, s2)
      | [] => (O, ivalue, s2)
      end in
    match icount, fcount with
    | O, O => NaN
    | _, _ =>
        let e := read_exponent s3 - Z.of_nat fcount in
        let m := sign * mantissa in
        number_of_Q (if 0 <=? e then inject_Z (m * 10 ^ e)
                     else Qmake m (Z.to_pos (10 ^ (- e))))
    end.

End JS.

(* ===================================================================== *)
(** * The trip record ([database.ts], interface [Trip])                   *)
(* ===================================================================== *)

(** A trip as the parser produces it and [insertTrip] takes it
    ([Omit<Trip, 'id'>]). *)
Record Trip := mkTrip {
  category : JS.text;
  startDate : JS.text;
  odometerStart : JS.number;
  startPosition : JS.text;
  endDate : JS.text;
  odometerEnd : JS.number;
  endDestination : JS.text;
  duration : JS.text;
  distance : JS.number;
  fuelConsumption : JS.text;
  title : JS.text;
  batteryConsumption : JS.text;
  batteryRegeneration : JS.text;
  notes : JS.text
}.

(* ===================================================================== *)
(** * The record parser ([csvParser.ts])                                  *)
(* ===================================================================== *)

Module CsvParser.
Import JS.

(** [cleanText]: the empty string stays empty; else one leading
    byte-order mark is removed, white-space runs become one space, null
    characters are removed, and the ends are trimmed, in that order. *)
Definition cleanText (t : text) : text :=
  if is_empty t then []
  else trim (remove_nulls (collapse_spaces (strip_bom t))).

(** The two loops of [parseCSVData] word their messages with [Line] and
    with [Row]. *)
Inductive row_label := Line | Row.

(** The messages pushed on [errors], with the values they print. *)
Inductive parse_error :=
| MissingRequired (l : row_label) (i : nat) (category startDate : text)
| InvalidOdometer (l : row_label) (i : nat)
    (odometerStart odometerEnd distance : number)
| EmptyTrip (l : row_label) (i : nat).

(** The three locals of [parseCSVData]: [results], [errors] and
    [skippedLines]. *)
Record parse_state := mkState {
  results : list Trip;
  errors : list parse_error;
  skippedLines : nat
}.

Definition initial_state : parse_state := mkState [] [] 0.

Definition semicolon : N := 59%N.

(** The trip built from the fields of a row, positions 0 to 13. *)
Definition decode_row (mapOkategoriseratToPrivat : bool) (values : list text)
  : Trip :=
  let category0 := cleanText (index_or values 0 []) in
  let category :=
    if mapOkategoriseratToPrivat && text_eqb category0 (str "Okategoriserat")
    then str "Privat" else category0 in
  {| category := category;
     startDate := cleanText (index_or values 1 []);
     odometerStart := parseInt (cleanText (index_or values 2 (str "0")));
     startPosition := cleanText (index_or values 3 []);
     endDate := cleanText (index_or values 4 []);
     odometerEnd := parseInt (cleanText (index_or values 5 (str "0")));
     endDestination := cleanText (index_or values 6 []);
     duration := cleanText (index_or values 7 []);
     distance :=
       parseFloat (replace_first_comma (cleanText (index_or values 8 (str "0"))));
     fuelConsumption := cleanText (index_or values 9 []);
     title := cleanText (index_or values 10 []);
     batteryConsumption := cleanText (index_or values 11 []);
     batteryRegeneration := cleanText (index_or values 12 []);
     notes := cleanText (index_or values 13 []) |}.

(** The [if]/[else if] chain under [// Validate required fields]. *)
Definition validate (l : row_label) (i : nat) (trip : Trip) (st : parse_state)
  : parse_state :=
  if is_empty (category trip) || is_empty (startDate trip) then
    mkState (results st)
      (errors st ++ [MissingRequired l i (category trip) (startDate trip)])
      (S (skippedLines st))
  else if gt (odometerStart trip) (odometerEnd trip) && gt (distance trip) zero
  then
    mkState (results st)
      (errors st ++ [InvalidOdometer l i (odometerStart trip)
                       (odometerEnd trip) (distance trip)])
      (S (skippedLines st))
  else if strict_eq (odometerStart trip) zero
          && strict_eq (odometerEnd trip) zero
          && strict_eq (distance trip) zero
  then
    mkState (results st) (errors st ++ [EmptyTrip l i]) (S (skippedLines st))
  else
    mkState (results st ++ [trip]) (errors st) (skippedLines st).

(** The body of [if (values.length >= 14) { ... }]; the [if] has no
    [else].  Nothing inside the [try] can throw (string methods on
    strings, [parseInt], [parseFloat], [push]), so its [catch] never
    runs and is left out. *)
Definition process_values (mapOkategoriseratToPrivat : bool) (l : row_label)
    (i : nat) (values : list text) (st : parse_state) : parse_state :=
  if (14 <=? length values)%nat
  then validate l i (decode_row mapOkategoriseratToPrivat values) st
  else st.

(** The body of either [for] loop, for the rows from index [i] on:
    trim, [continue] on an empty row, split on [;], process. *)
Fixpoint process_rows (mapOkategoriseratToPrivat : bool) (l : row_label)
    (i : nat) (rows : list text) (st : parse_state) : parse_state :=
  match rows with
  | [] => st
  | r :: rest =>
      let row := trim r in
      process_rows mapOkategoriseratToPrivat l (S i) rest
        (if is_empty row then st
         else process_values mapOkategoriseratToPrivat l i
                (split_on semicolon row) st)
  end.

(** [/(Privat|Arbete|Okategoriserat);/] matches at the start of [s]. *)
Definition at_category (s : text) : bool :=
  starts_with (str "Privat;") s
  || starts_with (str "Arbete;") s
  || starts_with (str "Okategoriserat;") s.

(** [content.search(categoryPattern)]; [None] is the source's [-1]. *)
Fixpoint search_category (s : text) : option nat :=
  if at_category s then Some O
  else match s with
       | [] => None
       | _ :: rest => S <$> search_category rest
       end.

(** [s.split(/(?=(?:Privat|Arbete|Okategoriserat);)/)]: the pattern
    matches the empty string before a keyword.  [split] tries every
    position [q] from the start [p] of the current segment on; an empty
    match at [q = p] is passed over, one at [q > p] ends the segment
    there.  [cur] is the segment read so far, newest character first,
    so [q = p] is [cur = []]. *)
Fixpoint split_before_category_from (cur : text) (s : text) : list text :=
  match s with
  | [] => [rev cur]
  | c :: rest =>
      if negb (is_empty cur) && at_category s
      then rev cur :: split_before_category_from [c] rest
      else split_before_category_from (c :: cur) rest
  end.

Definition split_before_category (s : text) : list text :=
  split_before_category_from [] s.

(** The cleaning of the whole content at the top of [parseCSVData]. *)
Definition clean_content (csvContent : text) : text :=
  replace_nbsp (remove_nulls (strip_bom csvContent)).

(** [parseCSVData] up to its [resolve]: the state of the three locals. *)
Definition parseCSVData_state (csvContent : text)
    (mapOkategoriseratToPrivat : bool) : parse_state :=
  let cleanedContent := clean_content csvContent in
  let lines := split_lines cleanedContent in
  if (2 <? length lines)%nat then
    process_rows mapOkategoriseratToPrivat Line 1 (drop 1 lines) initial_state
  else
    match search_category cleanedContent with
    | None => initial_state
    | Some firstCategoryMatch =>
        let dataContent := drop firstCategoryMatch cleanedContent in
        let rows := split_before_category dataContent in
        process_rows mapOkategoriseratToPrivat Row 0 rows initial_state
    end.

(** [parseCSVData]: the promise resolves with [results] and nothing
    else; [errors] and [skippedLines] only reach the console. *)
Definition parseCSVData (csvContent : text) (mapOkategoriseratToPrivat : bool)
  : list Trip :=
  results (parseCSVData_state csvContent mapOkategoriseratToPrivat).

End CsvParser.

(* ===================================================================== *)
(** * The platform's [TextDecoder]                                        *)
(* ===================================================================== *)

(** The decoders the import route asks for, after the WHATWG Encoding
    Standard: a decoder reads bytes and emits code points or errors; a
    fatal decoder throws at the first error, the others write U+FFFD. *)
Module TextDecoder.
Import JS.

Inductive label := utf_16le | utf_16be | utf_8 | iso_8859_1 | windows_1252.

Definition replacement : N := 65533%N.

(** What a decoder emits: a code point, or [None] for an error. *)
Definition item := option N.

Local Open Scope N_scope.

(** *** UTF-8: code point so far, bytes still needed, and the bounds of
    the next byte. *)
Definition utf8_state := (N * nat * N * N)%type.

Definition utf8_init : utf8_state := (0, O, 128, 191).

Definition utf8_first (b : N) : list item * utf8_state :=
  if b <=? 127 then ([Some b], utf8_init)
  else if (194 <=? b) && (b <=? 223)
  then ([], (N.land b 31, 1%nat, 128, 191))
  else if (224 <=? b) && (b <=? 239)
  then ([], (N.land b 15, 2%nat,
             (if b =? 224 then 160 else 128), (if b =? 237 then 159 else 191)))
  else if (240 <=? b) && (b <=? 244)
  then ([], (N.land b 7, 3%nat,
             (if b =? 240 then 144 else 128), (if b =? 244 then 143 else 191)))
  else ([None], utf8_init).

Definition utf8_step (st : utf8_state) (b : N) : list item * utf8_state :=
  let '(cp, needed, lower, upper) := st in
  match needed with
  | O => utf8_first b
  | S r =>
      if (lower <=? b) && (b <=? upper) then
        let cp' := N.lor (N.shiftl cp 6) (N.land b 63) in
        match r with
        | O => ([Some cp'], utf8_init)
        | S _ => ([], (cp', r, 128, 191))
        end
      else
        (* the byte is put back and read again from the initial state *)
        let '(out, st') := utf8_first b in (None :: out, st')
  end.

Fixpoint utf8_run (st : utf8_state) (bs : list N) : list item :=
  match bs with
  | [] => match st with (_, O, _, _) => [] | _ => [None] end
  | b :: rest => let '(out, st') := utf8_step st b in out ++ utf8_run st' rest
  end.

(** *** UTF-16: the bytes pair up into code units, the code units into
    code points. *)
Fixpoint utf16_units (big_endian : bool) (bs : list N) : list N * bool :=
  match bs with
  | b1 :: b2 :: rest =>
      let '(us, odd) := utf16_units big_endian rest in
      ((if big_endian then b1 * 256 + b2 else b2 * 256 + b1) :: us, odd)
  | [_] => ([], true)
  | [] => ([], false)
  end.

Definition is_lead (u : N) : bool := (55296 <=? u) && (u <=? 56319).
Definition is_trail (u : N) : bool := (56320 <=? u) && (u <=? 57343).

Fixpoint utf16_run (lead : option N) (odd : bool) (us : list N) : list item :=
  match us with
  | [] => match lead with
          | Some _ => [None]
          | None => if odd then [None] else []
          end
  | u :: rest =>
      match lead with
      | Some l =>
          if is_trail u
          then Some (65536 + (l - 55296) * 1024 + (u - 56320))
               :: utf16_run None odd rest
          else
            (* the code unit is put back and read again without a lead *)
            None :: (if is_lead u then utf16_run (Some u) odd rest
                     else Some u :: utf16_run None odd rest)
      | None =>
          if is_lead u then utf16_run (Some u) odd rest
          else if is_trail u then None :: utf16_run None odd rest
          else Some u :: utf16_run None odd rest
      end
  end.

(** *** windows-1252: one byte, one code point; bytes 0x80 to 0x9F go
    through the index of the standard, the others stand for themselves. *)
Definition windows_1252_high : list N :=
  [8364; 129; 8218; 402; 8222; 8230; 8224; 8225;
   710; 8240; 352; 8249; 338; 141; 381; 143;
   144; 8216; 8217; 8220; 8221; 8226; 8211; 8212;
   732; 8482; 353; 8250; 339; 157; 382; 376].

Definition windows_1252_point (b : N) : N :=
  if (128 <=? b) && (b <=? 159)
  then nth (N.to_nat (b - 128)) windows_1252_high b
  else b.

Local Close Scope N_scope.

(** The items a decoder emits for a byte sequence.  The label
    [iso-8859-1] names the windows-1252 encoding in the standard. *)
Definition run (l : label) (bytes : list Byte.byte) : list item :=
  let bs := map Byte.to_N bytes in
  match l with
  | utf_8 => utf8_run utf8_init bs
  | utf_16le => let '(us, odd) := utf16_units false bs in utf16_run None odd us
  | utf_16be => let '(us, odd) := utf16_units true bs in utf16_run None odd us
  | iso_8859_1 | windows_1252 => map (λ b, Some (windows_1252_point b)) bs
  end.

(** The Unicode decoders drop a byte-order mark at the start of their
    output ([ignoreBOM] is false by default). *)
Definition drop_mark (l : label) (s : text) : text :=
  match l with
  | utf_8 | utf_16le | utf_16be => strip_bom s
  | _ => s
  end.

(** [new TextDecoder(label, { fatal }).decode(bytes)]; [None] stands for
    the [TypeError] a fatal decoder throws. *)
Definition decode (l : label) (fatal : bool) (bytes : list Byte.byte)
  : option text :=
  let items := run l bytes in
  if fatal
  then drop_mark l <$> mapM id items
  else Some (drop_mark l (map (default replacement) items)).

End TextDecoder.

(* ===================================================================== *)
(** * The encoding detector (import route, [// Check for BOM and decode]) *)
(* ===================================================================== *)

Module Encoding.
Import JS.
Import TextDecoder(label, utf_16le, utf_16be, utf_8, iso_8859_1, windows_1252).

Section Detector.

(** The detector is written against any [TextDecoder]; [None] is a
    thrown exception. *)
Variable decode : label -> bool -> list Byte.byte -> option text.

(** [uint8Array[i] === b]; past the end the element is [undefined] and
    the test fails. *)
Definition byte_is (bytes : list Byte.byte) (i : nat) (b : Byte.byte) : bool :=
  match bytes !! i with
  | Some x => Byte.eqb x b
  | None => false
  end.

(** [try { a } catch { b }] *)
Definition try_or {A} (a b : option A) : option A :=
  match a with Some x => Some x | None => b end.

Definition detect_encoding (uint8Array : list Byte.byte) : option text :=
  if byte_is uint8Array 0 Byte.xff && byte_is uint8Array 1 Byte.xfe then
    decode utf_16le false (drop 2 uint8Array)
  else if byte_is uint8Array 0 Byte.xfe && byte_is uint8Array 1 Byte.xff then
    decode utf_16be false (drop 2 uint8Array)
  else if byte_is uint8Array 0 Byte.xef && byte_is uint8Array 1 Byte.xbb
          && byte_is uint8Array 2 Byte.xbf then
    decode utf_8 false (drop 3 uint8Array)
  else
    try_or (decode utf_8 true uint8Array)
      (try_or (decode iso_8859_1 false uint8Array)
         (decode windows_1252 false uint8Array)).

End Detector.

End Encoding.

(* ===================================================================== *)
(** * The world the store runs in: files, clock and the SQLite engine     *)
(* ===================================================================== *)

Module Store.
Import JS.

(** ** Thrown values *)

(** An error object: its class, and the [code], [errno] and [message]
    properties the program reads. *)
Record error := mkError {
  name : string;
  code : option string;
  errno : option Z;
  message : option string
}.

Definition sqlite_error (c : string) (n : Z) (msg : string) : error :=
  mkError "Error" (Some c) (Some n) (Some msg).

Definition plain_error (msg : string) : error :=
  mkError "Error" None None (Some msg).

(** [o === s] for a property [o] that may be [undefined]. *)
Definition is_string (o : option string) (s : string) : bool :=
  match o with
  | Some x => String.eqb x s
  | None => false
  end.

(** [o === n] for a numeric property. *)
Definition is_int (o : option Z) (n : Z) : bool :=
  match o with
  | Some x => x =? n
  | None => false
  end.

Definition err_unique : error :=
  sqlite_error "SQLITE_CONSTRAINT" 19
    "SQLITE_CONSTRAINT: UNIQUE constraint failed: trips.startDate, trips.odometerStart, trips.odometerEnd".
Definition err_not_null : error :=
  sqlite_error "SQLITE_CONSTRAINT" 19 "SQLITE_CONSTRAINT: NOT NULL constraint failed".
Definition err_notadb : error :=
  sqlite_error "SQLITE_NOTADB" 26 "SQLITE_NOTADB: file is not a database".
Definition err_cantopen : error :=
  sqlite_error "SQLITE_CANTOPEN" 14 "SQLITE_CANTOPEN: unable to open database file".
Definition err_no_table : error :=
  sqlite_error "SQLITE_ERROR" 1 "SQLITE_ERROR: no such table".
Definition err_transaction : error :=
  sqlite_error "SQLITE_ERROR" 1 "SQLITE_ERROR: no transaction is active, or one is already".
Definition err_enoent : error :=
  sqlite_error "ENOENT" (-2) "ENOENT: no such file or directory".
Definition err_range : error :=
  mkError "RangeError" None None (Some "Invalid time value"%string).

(** ** Files *)

(** The paths the program touches: [data], [data/trips.db] and
    [data/trips.corrupted.<ts>.db]. *)
Inductive path := DataDir | DbPath | BackupPath (ts : Z).

#[global] Instance path_eq_dec : EqDecision path.
Proof. solve_decision. Defined.

(** A row of the table [trips]. *)
Record StoredTrip := mkStored { id : Z; trip : Trip }.

(** What a database file holds: what [PRAGMA integrity_check] reports on
    it, each table when it exists, and the largest [id] ever given
    ([AUTOINCREMENT]). *)
Record image := mkImage {
  integrity_check : string;
  trips_table : option (list StoredTrip);
  trips_seq : Z;
  settings_table : option (list (text * text))
}.

(** The file SQLite makes when it opens a path that does not exist. *)
Definition empty_image : image := mkImage "ok" None 0 None.

(** A file under [data]: a database, or bytes that are none. *)
Inductive file :=
| NotADatabase (bytes : list Byte.byte)
| DatabaseFile (img : image).

(** The file system, as far as the program sees it: whether the
    directory [data] exists, the file at [data/trips.db], and the
    backups [data/trips.corrupted.<ts>.db] by their [ts]. *)
Record filesystem := mkFs {
  data_dir : bool;
  db_file : option file;
  backups : gmap Z file
}.

Definition lookup_file (fs : filesystem) (p : path) : option file :=
  match p with
  | DataDir => None
  | DbPath => db_file fs
  | BackupPath ts => backups fs !! ts
  end.

Definition path_exists (fs : filesystem) (p : path) : bool :=
  match p with
  | DataDir => data_dir fs
  | _ => match lookup_file fs p with Some _ => true | None => false end
  end.

Definition write_file (p : path) (f : file) (fs : filesystem) : filesystem :=
  match p with
  | DataDir => fs
  | DbPath => mkFs (data_dir fs) (Some f) (backups fs)
  | BackupPath ts => mkFs (data_dir fs) (db_file fs) (<[ts := f]> (backups fs))
  end.

Definition remove_file (p : path) (fs : filesystem) : filesystem :=
  match p with
  | DataDir => fs
  | DbPath => mkFs (data_dir fs) None (backups fs)
  | BackupPath ts => mkFs (data_dir fs) (db_file fs) (delete ts (backups fs))
  end.

(** ** SQL *)

(** The [WHERE] conditions [getTrips] builds, each with its parameter. *)
Inductive condition :=
| CategoryEq (c : text)
| StartDateGe (d : text)
| StartDateLt (d : text).

Inductive direction := ASC | DESC.

(** The statements of [database.ts] used here, parameters bound. *)
Inductive sql :=
| SELECT_1
| PRAGMA_integrity_check
| SELECT_required_tables
| CREATE_TABLE_trips
| CREATE_TABLE_settings
| BEGIN_TRANSACTION
| COMMIT
| ROLLBACK
| INSERT_INTO_trips (t : Trip)
| SELECT_trips (conditions : list condition) (dir : direction) (limit offset : Z)
| SELECT_COUNT_trips (conditions : list condition).

(** ** The world *)

Definition handle := path.

Inductive event :=
| Mkdir (p : path)
| Open (p : path)
| Close (h : handle)
| Rename (from to : path)
| Sql (q : sql).

(** [files]: the file system.  [clock]: what the coming calls of
    [Date.now()] return.  [faults]: what the coming fallible calls (file
    system and engine) do, [Some e] to throw [e] without any effect, [None]
    to run; past its end every call runs.  [db]: the module variable [db].
    [snapshot]: while a transaction is open, the database file as it was
    at [BEGIN].  [log]: the fallible calls made so far, newest first. *)
Record world := mkWorld {
  files : filesystem;
  clock : list Z;
  faults : list (option error);
  db : option handle;
  snapshot : option (option file);
  log : list event
}.

Definition set_files (f : filesystem) (w : world) : world :=
  mkWorld f (clock w) (faults w) (db w) (snapshot w) (log w).
Definition set_clock (c : list Z) (w : world) : world :=
  mkWorld (files w) c (faults w) (db w) (snapshot w) (log w).
Definition set_faults (f : list (option error)) (w : world) : world :=
  mkWorld (files w) (clock w) f (db w) (snapshot w) (log w).
Definition set_db (d : option handle) (w : world) : world :=
  mkWorld (files w) (clock w) (faults w) d (snapshot w) (log w).
Definition set_snapshot (s : option (option file)) (w : world) : world :=
  mkWorld (files w) (clock w) (faults w) (db w) s (log w).
Definition add_log (e : event) (w : world) : world :=
  mkWorld (files w) (clock w) (faults w) (db w) (snapshot w) (e :: log w).

(** ** Computations: state and exceptions *)

Inductive outcome (A : Type) :=
| Ok (a : A)
| Throw (e : error).
Arguments Ok {A} a.
Arguments Throw {A} e.

Definition M (A : Type) : Type := world -> outcome A * world.

Definition ret {A} (a : A) : M A := λ w, (Ok a, w).

Definition throw {A} (e : error) : M A := λ w, (Throw e, w).

Definition bind {A B} (m : M A) (k : A -> M B) : M B :=
  λ w, match m w with
       | (Ok a, w') => k a w'
       | (Throw e, w') => (Throw e, w')
       end.

(** [try { m } catch (error) { h error }] *)
Definition try_catch {A} (m : M A) (h : error -> M A) : M A :=
  λ w, match m w with
       | (Ok a, w') => (Ok a, w')
       | (Throw e, w') => h e w'
       end.

Definition read {A} (f : world -> A) : M A := λ w, (Ok (f w), w).

Definition write (f : world -> world) : M unit := λ w, (Ok tt, f w).

End Store.

Declare Scope store_scope.
Delimit Scope store_scope with store.
Notation "'let*' x := m 'in' k" := (Store.bind m (λ x, k))
  (at level 10, x name, m at level 100, k at level 200) : store_scope.
Notation "'do' m 'then' k" := (Store.bind m (λ _, k))
  (at level 10, m at level 100, k at level 200) : store_scope.

(** ** The file system, the clock and the engine *)

Module Sqlite.
Import JS Store.
Local Open Scope store_scope.

(** A call that can fail: it is logged, then the next entry of [faults]
    decides whether it throws or runs. *)
Definition fallible {A} (ev : event) (run : M A) : M A :=
  λ w, let w1 := add_log ev w in
       match faults w1 with
       | Some e :: rest => (Throw e, set_faults rest w1)
       | None :: rest => run (set_faults rest w1)
       | [] => run w1
       end.

(** [fs.existsSync(p)] *)
Definition existsSync (p : path) : M bool :=
  read (λ w, path_exists (files w) p).

(** [fs.mkdirSync(dataDir, { recursive: true })] *)
Definition mkdirSync (p : path) : M unit :=
  fallible (Mkdir p)
    (write (λ w, set_files (mkFs true (db_file (files w)) (backups (files w))) w)).

(** [fs.renameSync(from, to)]: the file moves, replacing what [to] held. *)
Definition renameSync (from to : path) : M unit :=
  fallible (Rename from to)
    (λ w, match lookup_file (files w) from with
          | Some f =>
              (Ok tt, set_files (write_file to f (remove_file from (files w))) w)
          | None => (Throw err_enoent, w)
          end).

(** [Date.now()] *)
Definition Date_now : M Z :=
  λ w, match clock w with
       | t :: rest => (Ok t, set_clock rest w)
       | [] => (Ok 0, w)
       end.

(** [open({ filename, driver })]: the directory has to exist; a path
    that holds no file gets an empty database file. *)
Definition open (p : path) : M handle :=
  fallible (Open p)
    (λ w, if data_dir (files w) then
            match lookup_file (files w) p with
            | Some _ => (Ok p, w)
            | None =>
                (Ok p, set_files (write_file p (DatabaseFile empty_image) (files w)) w)
            end
          else (Throw err_cantopen, w)).

(** [database.close()] *)
Definition close (h : handle) : M unit := fallible (Close h) (ret tt).

(** A statement that reads the database file behind the handle. *)
Definition on_image {A} (h : handle) (k : image -> M A) : M A :=
  λ w, match lookup_file (files w) h with
       | Some (DatabaseFile img) => k img w
       | Some (NotADatabase _) => (Throw err_notadb, w)
       | None => (Throw err_cantopen, w)
       end.

Definition put_image (h : handle) (img : image) : M unit :=
  write (λ w, set_files (write_file h (DatabaseFile img) (files w)) w).

(** [SELECT 1] reads no table. *)
Definition get_select_1 (h : handle) : M unit :=
  fallible (Sql SELECT_1) (ret tt).

(** [PRAGMA integrity_check]: the first row of the report. *)
Definition get_integrity_check (h : handle) : M (option string) :=
  fallible (Sql PRAGMA_integrity_check)
    (on_image h (λ img, ret (Some (integrity_check img)))).

(** [SELECT name FROM sqlite_master WHERE type='table' AND name IN
    ('trips', 'settings')] *)
Definition all_required_tables (h : handle) : M (list string) :=
  fallible (Sql SELECT_required_tables)
    (on_image h (λ img,
       ret (match trips_table img with
            | Some _ => ["trips"%string]
            | None => []
            end
            ++ match settings_table img with
               | Some _ => ["settings"%string]
               | None => []
               end))).

(** [CREATE TABLE IF NOT EXISTS trips (...)] *)
Definition exec_create_trips (h : handle) : M unit :=
  fallible (Sql CREATE_TABLE_trips)
    (on_image h (λ img,
       match trips_table img with
       | Some _ => ret tt
       | None => put_image h (mkImage (integrity_check img) (Some [])
                                (trips_seq img) (settings_table img))
       end)).

(** [CREATE TABLE IF NOT EXISTS settings (...)] *)
Definition exec_create_settings (h : handle) : M unit :=
  fallible (Sql CREATE_TABLE_settings)
    (on_image h (λ img,
       match settings_table img with
       | Some _ => ret tt
       | None => put_image h (mkImage (integrity_check img) (trips_table img)
                                (trips_seq img) (Some []))
       end)).

(** [BEGIN TRANSACTION] *)
Definition exec_begin (h : handle) : M unit :=
  fallible (Sql BEGIN_TRANSACTION)
    (λ w, match snapshot w with
          | Some _ => (Throw err_transaction, w)
          | None => (Ok tt, set_snapshot (Some (lookup_file (files w) h)) w)
          end).

(** [COMMIT] *)
Definition exec_commit (h : handle) : M unit :=
  fallible (Sql COMMIT)
    (λ w, match snapshot w with
          | Some _ => (Ok tt, set_snapshot None w)
          | None => (Throw err_transaction, w)
          end).

(** [ROLLBACK]: the file is again as it was at [BEGIN]. *)
Definition exec_rollback (h : handle) : M unit :=
  fallible (Sql ROLLBACK)
    (λ w, match snapshot w with
          | Some before =>
              (Ok tt, set_snapshot None
                        (set_files (match before with
                                    | Some f => write_file h f (files w)
                                    | None => remove_file h (files w)
                                    end) w))
          | None => (Throw err_transaction, w)
          end).

(** A Number that is [NaN] is bound as [NULL]. *)
Definition is_null (n : number) : bool :=
  match n with NaN => true | _ => false end.

(** The columns of [UNIQUE(startDate, odometerStart, odometerEnd)]
    agree. *)
Definition same_key (t : Trip) (r : StoredTrip) : bool :=
  text_eqb (startDate t) (startDate (trip r))
  && strict_eq (odometerStart t) (odometerStart (trip r))
  && strict_eq (odometerEnd t) (odometerEnd (trip r)).

(** [INSERT INTO trips (...) VALUES (...)]: returns [lastID]. *)
Definition run_insert_trip (h : handle) (t : Trip) : M Z :=
  fallible (Sql (INSERT_INTO_trips t))
    (on_image h (λ img,
       match trips_table img with
       | None => throw err_no_table
       | Some rows =>
           if is_null (odometerStart t) || is_null (odometerEnd t)
              || is_null (distance t)
           then throw err_not_null
           else if existsb (same_key t) rows then throw err_unique
           else
             let lastID := trips_seq img + 1 in
             do put_image h (mkImage (integrity_check img)
                               (Some (rows ++ [mkStored lastID t]))
                               lastID (settings_table img))
             then ret lastID
       end)).

(** The order of [TEXT] values: byte by byte on their UTF-8 form, which
    is code point by code point. *)
Fixpoint text_leb (a b : text) : bool :=
  match a, b with
  | [], _ => true
  | _ :: _, [] => false
  | x :: a', y :: b' => (x <? y)%N || ((x =? y)%N && text_leb a' b')
  end.

Definition text_ltb (a b : text) : bool := negb (text_leb b a).

Definition holds (c : condition) (r : StoredTrip) : bool :=
  match c with
  | CategoryEq x => text_eqb (category (trip r)) x
  | StartDateGe d => text_leb d (startDate (trip r))
  | StartDateLt d => text_ltb (startDate (trip r)) d
  end.

(** [WHERE c1 AND c2 ...]; no condition, no [WHERE]. *)
Definition where_all (conditions : list condition) (r : StoredTrip) : bool :=
  forallb (λ c, holds c r) conditions.

Definition start_le (r1 r2 : StoredTrip) : Prop :=
  text_leb (startDate (trip r1)) (startDate (trip r2)) = true.

#[global] Instance start_le_dec : RelDecision start_le.
Proof. intros r1 r2. unfold start_le. apply _. Defined.

(** [ORDER BY startDate ASC] or [DESC].  SQL leaves the order of rows
    with one [startDate] open; here they come out as the sort leaves
    them. *)
Definition order_by (dir : direction) (rows : list StoredTrip)
  : list StoredTrip :=
  match dir with
  | ASC => merge_sort start_le rows
  | DESC => merge_sort (flip start_le) rows
  end.

(** [LIMIT ? OFFSET ?]: a negative limit is no limit, a negative offset
    is none. *)
Definition limit_offset {A} (limit offset : Z) (rows : list A) : list A :=
  let rest := drop (Z.to_nat offset) rows in
  if limit <? 0 then rest else take (Z.to_nat limit) rest.

(** [SELECT * FROM trips WHERE ... ORDER BY startDate ... LIMIT ? OFFSET ?] *)
Definition all_trips (h : handle) (conditions : list condition)
    (dir : direction) (limit offset : Z) : M (list StoredTrip) :=
  fallible (Sql (SELECT_trips conditions dir limit offset))
    (on_image h (λ img,
       match trips_table img with
       | None => throw err_no_table
       | Some rows =>
           ret (limit_offset limit offset
                  (order_by dir (filter (λ r, where_all conditions r = true) rows)))
       end)).

(** [SELECT COUNT( * ) as count FROM trips WHERE ...] *)
Definition get_count_trips (h : handle) (conditions : list condition)
  : M Z :=
  fallible (Sql (SELECT_COUNT_trips conditions))
    (on_image h (λ img,
       match trips_table img with
       | None => throw err_no_table
       | Some rows =>
           ret (Z.of_nat (length (filter (λ r, where_all conditions r = true) rows)))
       end)).

End Sqlite.

(* ===================================================================== *)
(** * The [Date] object, as [getTrips] uses it                            *)
(* ===================================================================== *)

(** Time values are milliseconds since the epoch.  The host's local
    time is taken to be UTC, so that a local day always has 24 hours; a
    daylight-saving change, where the step of [setDate] is 23 or 25
    hours, is left out.  The date strings read are the ISO date-only
    form [YYYY-MM-DD] of a day that exists; every other string is taken
    as an Invalid Date. *)
Module JSDate.
Import JS.

Definition msPerDay : Z := 86400000.

Definition LocalTZA : Z := 0.

(** The day number of a date of the proleptic Gregorian calendar, day 0
    being 1970-01-01 ([MakeDay]). *)
Definition days_from_civil (y m d : Z) : Z :=
  let y' := if m <=? 2 then y - 1 else y in
  let era := y' / 400 in
  let yoe := y' - era * 400 in
  let doy := (153 * (if 2 <? m then m - 3 else m + 9) + 2) / 5 + d - 1 in
  let doe := yoe * 365 + yoe / 4 - yoe / 100 + doy in
  era * 146097 + doe - 719468.

(** Year, month and day of a day number ([YearFromTime],
    [MonthFromTime], [DateFromTime]). *)
Definition civil_from_days (z : Z) : Z * Z * Z :=
  let z' := z + 719468 in
  let era := z' / 146097 in
  let doe := z' - era * 146097 in
  let yoe := (doe - doe / 1460 + doe / 36524 - doe / 146096) / 365 in
  let doy := doe - (365 * yoe + yoe / 4 - yoe / 100) in
  let mp := (5 * doy + 2) / 153 in
  let d := doy - (153 * mp + 2) / 5 + 1 in
  let m := if mp <? 10 then mp + 3 else mp - 9 in
  ((if m <=? 2 then yoe + era * 400 + 1 else yoe + era * 400), m, d).

Definition is_leap (y : Z) : bool :=
  ((y mod 4 =? 0) && negb (y mod 100 =? 0)) || (y mod 400 =? 0).

Definition days_in_month (y m : Z) : Z :=
  if m =? 2 then (if is_leap y then 29 else 28)
  else if (m =? 4) || (m =? 6) || (m =? 9) || (m =? 11) then 30
  else 31.

(** The value of a string of decimal digits, [None] if another
    character occurs. *)
Fixpoint decimal (acc : Z) (s : text) : option Z :=
  match s with
  | [] => Some acc
  | c :: rest =>
      if ((48 <=? c) && (c <=? 57))%N
      then decimal (acc * 10 + (Z.of_N c - 48)) rest
      else None
  end.

(** [new Date(s)]: the time value, [None] for an Invalid Date. *)
Definition parse (s : text) : option Z :=
  match s with
  | [y1; y2; y3; y4; h1; m1; m2; h2; d1; d2] =>
      if ((h1 =? 45) && (h2 =? 45))%N then
        y ← decimal 0 [y1; y2; y3; y4];
        m ← decimal 0 [m1; m2];
        d ← decimal 0 [d1; d2];
        if (1 <=? m) && (m <=? 12) && (1 <=? d) && (d <=? days_in_month y m)
        then Some (days_from_civil y m d * msPerDay)
        else None
      else None
  | _ => None
  end.

(** [t] after [date.setDate(date.getDate() + 1)]: the day of the month
    of the local time goes up by one, the time within the day stays. *)
Definition setDate_next (t : Z) : Z :=
  let local := t + LocalTZA in
  let '(y, m, d) := civil_from_days (local / msPerDay) in
  let day := days_from_civil y m 1 + (d + 1) - 1 in
  day * msPerDay + local mod msPerDay - LocalTZA.

(** [width] decimal digits of [n], most significant first. *)
Fixpoint digits (width : nat) (n : Z) : text :=
  match width with
  | O => []
  | S w => digits w (n / 10) ++ [Z.to_N (48 + n mod 10)]
  end.

(** [date.toISOString().split('T')[0]]: the date part, the year with
    four digits, or a sign and six outside 0 to 9999. *)
Definition iso_date (t : Z) : text :=
  let '(y, m, d) := civil_from_days (t / msPerDay) in
  (if (0 <=? y) && (y <=? 9999) then digits 4 y
   else (if y <? 0 then 45%N else 43%N) :: digits 6 (Z.abs y))
  ++ [45%N] ++ digits 2 m ++ [45%N] ++ digits 2 d.

(** The parameter [getTrips] binds for [dateTo]; [None] where
    [toISOString] throws a [RangeError]. *)
Definition next_day (dateTo : text) : option text :=
  iso_date <$> (setDate_next <$> parse dateTo).

End JSDate.

(* ===================================================================== *)
(** * The store ([database.ts])                                           *)
(* ===================================================================== *)

Module Database.
Import JS Store Sqlite.
Local Open Scope store_scope.

(** [class DatabaseCorruptionError extends Error] *)
Definition DatabaseCorruptionError (msg : string) : error :=
  mkError "DatabaseCorruptionError" None None (Some msg).

(** [hay.includes(needle)] *)
Fixpoint includes (needle hay : string) : bool :=
  String.prefix needle hay
  || match hay with
     | EmptyString => false
     | String _ rest => includes needle rest
     end.

(** [errorObj.message?.includes(s)], [undefined] counting as false. *)
Definition message_includes (e : error) (s : string) : bool :=
  match message e with
  | Some m => includes s m
  | None => false
  end.

Definition corruptionCodes : list string :=
  ["SQLITE_CORRUPT"; "SQLITE_NOTADB"; "SQLITE_CANTOPEN"]%string.

Definition isSQLiteCorruptionError (e : error) : bool :=
  existsb (λ c, is_string (code e) c
                || message_includes e c
                || message_includes e "database disk image is malformed"
                || message_includes e "file is not a database")
    corruptionCodes.

Record validation := mkValidation { isHealthy : bool; isFreshDatabase : bool }.

Definition validateDatabase (database : handle) (fileExistedBefore : bool)
  : M validation :=
  try_catch
    (do get_select_1 database then
     let* result := get_integrity_check database in
     if negb (is_string result "ok")
     then ret (mkValidation false false)
     else
       let* tables := all_required_tables database in
       if (length tables <? 2)%nat then
         if negb fileExistedBefore
         then ret (mkValidation true true)
         else ret (mkValidation false false)
       else ret (mkValidation true false))
    (λ _, ret (mkValidation false false)).

Definition createTables (database : handle) : M unit :=
  do exec_create_trips database then
  exec_create_settings database.

(** [recoverDatabase]: [None] is the [null] it returns on failure. *)
Definition recoverDatabase : M (option handle) :=
  try_catch
    (let* now := Date_now in
     let backupPath := BackupPath now in
     let* dbExists := existsSync DbPath in
     do (if dbExists then renameSync DbPath backupPath else ret tt) then
     let* freshDb := open DbPath in
     do exec_create_trips freshDb then
     do exec_create_settings freshDb then
     ret (Some freshDb))
    (λ _, ret None).

(** The [try] block of [getDatabase]. *)
Definition initialize : M unit :=
  let* fileExistedBefore := existsSync DbPath in
  let* dirExists := existsSync DataDir in
  do (if negb dirExists then mkdirSync DataDir else ret tt) then
  let* h := open DbPath in
  do write (set_db (Some h)) then
  let* validation := validateDatabase h fileExistedBefore in
  if negb (isHealthy validation) then
    do close h then
    let* recovered := recoverDatabase in
    do write (set_db recovered) then
    match recovered with
    | None => throw (plain_error "Database recovery failed")
    | Some _ => ret tt
    end
  else if isFreshDatabase validation then createTables h
  else createTables h.

(** The [catch] block of [getDatabase], [// Final fallback: try to
    recover]. *)
Definition final_fallback : M unit :=
  let* opened := read db in
  do match opened with
     | Some h => try_catch (close h) (λ _, ret tt)
     | None => ret tt
     end then
  let* recovered := recoverDatabase in
  do write (set_db recovered) then
  match recovered with
  | None =>
      throw (plain_error "Database initialization and recovery both failed")
  | Some _ => ret tt
  end.

(** [getDatabase]: the handle in [db], opened first when [db] is
    [null].  The last [match] renders [return db]; [db] is never [null]
    there. *)
Definition getDatabase : M handle :=
  let* current := read db in
  match current with
  | Some h => ret h
  | None =>
      do try_catch initialize (λ _, final_fallback) then
      let* final := read db in
      match final with
      | Some h => ret h
      | None => throw (plain_error "db is null")
      end
  end.

(** The result of [insertTrip], [number | false]. *)
Inductive number_or_false :=
| LastID (n : Z)
| JsFalse.

(** The [try] block of [insertTrip]. *)
Definition insert_transaction (database : handle) (t : Trip)
  : M number_or_false :=
  do exec_begin database then
  let* lastID := run_insert_trip database t in
  do exec_commit database then
  ret (LastID lastID).

(** What the [catch] block of [insertTrip] does with the error, after
    the rollback. *)
Definition insert_failed (error : Store.error) : M number_or_false :=
  if isSQLiteCorruptionError error then
    throw (DatabaseCorruptionError
             "Database corruption detected during trip insertion")
  else if is_string (code error) "SQLITE_CONSTRAINT_UNIQUE"
          || is_string (code error) "SQLITE_CONSTRAINT"
          || is_int (errno error) 19
  then ret JsFalse
  else throw error.

Definition insertTrip (t : Trip) : M number_or_false :=
  let* database := getDatabase in
  try_catch (insert_transaction database t)
    (λ error,
     do try_catch (exec_rollback database) (λ _, ret tt) then
     insert_failed error).

Record trips_page := mkPage { trips : list StoredTrip; total : Z }.

(** The [WHERE] clause of [getTrips] with its parameters; [None] where
    building it throws. *)
Definition build_conditions (category dateFrom dateTo : text)
  : option (list condition) :=
  let c1 := if is_empty category then [] else [CategoryEq category] in
  let c2 := if is_empty dateFrom then c1 else c1 ++ [StartDateGe dateFrom] in
  if is_empty dateTo then Some c2
  else (λ nextDay, c2 ++ [StartDateLt nextDay]) <$> JSDate.next_day dateTo.

Definition orderDirection (sortOrder : text) : direction :=
  if text_eqb sortOrder (str "asc") then ASC else DESC.

Definition getTrips (page limit : Z) (category dateFrom dateTo sortOrder : text)
  : M trips_page :=
  let* database := getDatabase in
  let offset := (page - 1) * limit in
  match build_conditions category dateFrom dateTo with
  | None => throw err_range
  | Some conditions =>
      let* rows :=
        all_trips database conditions (orderDirection sortOrder) limit offset in
      let* count := get_count_trips database conditions in
      ret (mkPage rows count)
  end.

End Database.

(* ===================================================================== *)
(** * The import route: the tally loop                                    *)
(* ===================================================================== *)

Module ImportRoute.
Import JS Store Database.
Local Open Scope store_scope.

Record tally := mkTally { imported : nat; duplicates : nat; errors : nat }.

(** The body of [for (const trip of trips)]. *)
Definition import_one (t : Trip) (c : tally) : M tally :=
  try_catch
    (let* result := insertTrip t in
     match result with
     | LastID _ => ret (mkTally (S (imported c)) (duplicates c) (errors c))
     | JsFalse => ret (mkTally (imported c) (S (duplicates c)) (errors c))
     end)
    (λ _, ret (mkTally (imported c) (duplicates c) (S (errors c)))).

Fixpoint import_loop (trips : list Trip) (c : tally) : M tally :=
  match trips with
  | [] => ret c
  | t :: rest => let* c' := import_one t c in import_loop rest c'
  end.

(** The loop from [imported = 0], [duplicates = 0], [errors = 0]. *)
Definition import_trips (trips : list Trip) : M tally :=
  import_loop trips (mkTally 0 0 0).

End ImportRoute.

(* ===================================================================== *)
(** * Notions used in the statements                                      *)
(* ===================================================================== *)

(** ** Rows and files of the parser *)

Module ParserNotions.
Import JS CsvParser.

(** The record a row of either layout yields, if it yields one: the
    row is not blank, has 14 fields or more, and passes validation. *)
Definition row_outcome (flag : bool) (r : text) : option Trip :=
  let row := trim r in
  if is_empty row then None
  else
    let values := split_on semicolon row in
    if (14 <=? length values)%nat then
      let trip := decode_row flag values in
      if is_empty (category trip) || is_empty (startDate trip) then None
      else if gt (odometerStart trip) (odometerEnd trip) && gt (distance trip) zero
      then None
      else if strict_eq (odometerStart trip) zero
              && strict_eq (odometerEnd trip) zero
              && strict_eq (distance trip) zero
      then None
      else Some trip
    else None.

(** A row whose odometer readings are 100 and 50 and whose distance is
    10.0, and the same row with distance 0. *)
Definition row_reversed : text :=
  str "Privat;2024-01-01;100;A;2024-01-01;50;B;1h 0m;10.0;5 l;Trip;0 kWh;0 kWh;".

Definition row_reversed_zero : text :=
  str "Privat;2024-01-01;100;A;2024-01-01;50;B;1h 0m;0;5 l;Trip;0 kWh;0 kWh;".

(** [pre] ends where one row of [rows] ends and the next begins. *)
Definition boundary (rows : list text) (pre : text) : Prop :=
  exists rows1 rows2,
    rows = rows1 ++ rows2 /\ rows1 <> [] /\ rows2 <> [] /\ concat rows1 = pre.

(** One row in the legacy layout, after a header. *)
Definition legacy_sample : text :=
  str "Header stuff Privat;2024-01-01;100;A;2024-01-01;150;B;1h 0m;50.0;5 l;Trip;0 kWh;0 kWh;".

(** A line-delimited file: a header, a row of three fields, a row the
    parser accepts, and the empty line after the last line break. *)
Definition file_with_short_row : text :=
  str "Category;StartDate;OdometerStart" ++ [10%N]
  ++ str "Privat;2024-01-01;100" ++ [10%N]
  ++ str "Arbete;2024-01-02;100;A;2024-01-02;150;B;1h 0m;50,5;5 l;Trip;0 kWh;0 kWh;"
  ++ [10%N].

End ParserNotions.

(** ** Byte-order marks *)

Module EncodingNotions.

(** The bytes start with one of the three byte-order marks. *)
Definition has_mark (bytes : list Byte.byte) : Prop :=
  (exists rest, bytes = Byte.xff :: Byte.xfe :: rest)
  \/ (exists rest, bytes = Byte.xfe :: Byte.xff :: rest)
  \/ (exists rest, bytes = Byte.xef :: Byte.xbb :: Byte.xbf :: rest).

End EncodingNotions.

(** ** Worlds, errors and filters of the store *)

Module StoreNotions.
Import JS Store Sqlite Database.

(** The image [createTables] leaves in a new file. *)
Definition schema_image : image := mkImage "ok" (Some []) 0 (Some []).

(** The two errors [getDatabase] makes itself. *)
Definition recovery_failed : error := plain_error "Database recovery failed".

Definition both_failed : error :=
  plain_error "Database initialization and recovery both failed".

(** [PRAGMA integrity_check] on the file throws or reports something
    other than [ok]. *)
Definition integrity_check_fails (f : file) : Prop :=
  match f with
  | NotADatabase _ => True
  | DatabaseFile img => integrity_check img <> "ok"%string
  end.

(** The calls of a startup that ends in a recovery. *)
Definition recovery_calls (validation : list event) (ts : Z) : list event :=
  [Open DbPath] ++ validation
  ++ [Close DbPath; Rename DbPath (BackupPath ts); Open DbPath;
      Sql CREATE_TABLE_trips; Sql CREATE_TABLE_settings].

(** A startup whose first recovery fails: the file is no database, and
    the rename of the first recovery, the fifth call, fails. *)
Definition world_first_recovery_fails : world :=
  mkWorld (mkFs true (Some (NotADatabase [Byte.x00])) ∅) [1000; 2000]
    [None; None; None; None;
     Some (sqlite_error "EBUSY" (-16) "EBUSY: resource busy or locked")]
    None None [].



(** A world in which the store is open on a database file with both
    tables, no transaction is open and no call is made to fail; [rows]
    is the table [trips], [seq] the largest [id] given so far. *)
Definition ready_world (dd : bool) (check : string) (rows : list StoredTrip)
    (seq : Z) (settings : list (text * text)) (bk : gmap Z file)
    (ck : list Z) (lg : list event) : world :=
  mkWorld
    (mkFs dd (Some (DatabaseFile (mkImage check (Some rows) seq (Some settings))))
       bk)
    ck [] (Some DbPath) None lg.

(** The store is in order, with [rows] in the table [trips]. *)
Definition ready (w : world) (rows : list StoredTrip) : Prop :=
  exists dd check seq settings bk ck lg,
    w = ready_world dd check rows seq settings bk ck lg.

(** The trip cannot be inserted: a [NaN] in a numeric column, or a row
    with its key. *)
Definition absorbed (rows : list StoredTrip) (t : Trip) : bool :=
  is_null (odometerStart t) || is_null (odometerEnd t)
  || is_null (distance t) || existsb (same_key t) rows.

(** The rows of the table [trips] in the database file. *)
Definition stored_trips (w : world) : list StoredTrip :=
  match db_file (files w) with
  | Some (DatabaseFile img) => default [] (trips_table img)
  | _ => []
  end.


(** The upper bound on [startDate] for a [dateTo]: none for the empty
    string, else the day after. *)
Definition end_bound (dateTo : text) : option text :=
  if is_empty dateTo then None else JSDate.next_day dateTo.

(** A row passes the category, date-from and date-to filters; each
    filter is off when its string is empty. *)
Definition in_filter (category0 dateFrom dateTo : text) (r : StoredTrip)
  : bool :=
  (is_empty category0 || text_eqb (category (trip r)) category0)
  && (is_empty dateFrom || text_leb dateFrom (startDate (trip r)))
  && match end_bound dateTo with
     | Some nextDay => text_ltb (startDate (trip r)) nextDay
     | None => true
     end.

(** The conditions a logged statement on [trips] carries. *)
Definition conditions_of (ev : event) : option (list condition) :=
  match ev with
  | Sql (SELECT_trips conditions _ _ _) => Some conditions
  | Sql (SELECT_COUNT_trips conditions) => Some conditions
  | _ => None
  end.

(** Two runs agree on how they end, on the total, on the files and on
    the conditions of their statements. *)
Definition same_selection (r1 r2 : outcome trips_page * world) : Prop :=
  match r1.1, r2.1 with
  | Ok p1, Ok p2 => total p1 = total p2
  | Throw e1, Throw e2 => e1 = e2
  | _, _ => False
  end
  /\ files r1.2 = files r2.2
  /\ omap conditions_of (log r1.2) = omap conditions_of (log r2.2).

End StoreNotions.

(* ===================================================================== *)
(** * The store, continued: [updateTrip] and the settings                 *)
(* ===================================================================== *)

(** ** The statements they run *)

Module Statements.
Import JS Store Sqlite.
Local Open Scope store_scope.

(** A statement of the functions below.  Like every call of the engine
    it takes its turn in the schedule [faults]; [log], which the
    properties of the startup and of [insertTrip] read, does not list
    it. *)
Definition engine_call {A} (run : M A) : M A :=
  λ w, match faults w with
       | Some e :: rest => (Throw e, set_faults rest w)
       | None :: rest => run (set_faults rest w)
       | [] => run w
       end.

(** [WHERE id = ?] with a Number bound: the integer in the column and
    the Number denote one value.  [NaN] is bound as [NULL], which equals
    nothing, and no [id] is infinite. *)
Definition id_is (n : number) (r : StoredTrip) : bool :=
  match n with
  | Fin q => Qeq_bool q (inject_Z (id r))
  | _ => false
  end.

(** [SET category = ?, notes = ?], each clause when its value is given. *)
Definition set_columns (new_category new_notes : option text) (r : StoredTrip)
  : StoredTrip :=
  let t := trip r in
  mkStored (id r)
    (mkTrip (default (category t) new_category) (startDate t) (odometerStart t)
       (startPosition t) (endDate t) (odometerEnd t) (endDestination t)
       (duration t) (distance t) (fuelConsumption t) (title t)
       (batteryConsumption t) (batteryRegeneration t)
       (default (notes t) new_notes)).

(** [UPDATE trips SET ... WHERE id = ?]: returns [changes], the number
    of rows the [WHERE] clause matched. *)
Definition run_update_trip (h : handle) (new_category new_notes : option text)
    (n : number) : M Z :=
  engine_call
    (on_image h (λ img,
       match trips_table img with
       | None => throw err_no_table
       | Some rows =>
           do put_image h
                (mkImage (integrity_check img)
                   (Some (map (λ r, if id_is n r
                                    then set_columns new_category new_notes r
                                    else r) rows))
                   (trips_seq img) (settings_table img))
           then ret (Z.of_nat (length (filter (λ r, id_is n r = true) rows)))
       end)).

(** The first row of [settings] with the key. *)
Fixpoint find_setting (key : text) (rows : list (text * text)) : option text :=
  match rows with
  | [] => None
  | (k, v) :: rest => if text_eqb k key then Some v else find_setting key rest
  end.

(** [SELECT value FROM settings WHERE key = ?]: the first row, or
    [undefined]. *)
Definition get_setting_value (h : handle) (key : text) : M (option text) :=
  engine_call
    (on_image h (λ img,
       match settings_table img with
       | None => throw err_no_table
       | Some rows => ret (find_setting key rows)
       end)).

(** [INSERT OR REPLACE INTO settings (key, value) VALUES (?, ?)]: the
    rows that hold the key go, the new row comes last. *)
Definition run_replace_setting (h : handle) (key value : text) : M unit :=
  engine_call
    (on_image h (λ img,
       match settings_table img with
       | None => throw err_no_table
       | Some rows =>
           put_image h
             (mkImage (integrity_check img) (trips_table img) (trips_seq img)
                (Some (filter (λ kv, kv.1 ≠ key) rows ++ [(key, value)])))
       end)).

(** [SELECT key, value FROM settings WHERE key IN (?, ...)], one
    parameter for each of [keys]; the engine's bound on the number of
    parameters of a statement is left out.  The rows are given in the
    order of the table; the keys of the table are distinct ([PRIMARY
    KEY]), so the object that the caller builds does not depend on the
    order. *)
Definition all_settings_in (h : handle) (keys : list text)
  : M (list (text * text)) :=
  engine_call
    (on_image h (λ img,
       match settings_table img with
       | None => throw err_no_table
       | Some rows => ret (filter (λ kv, kv.1 ∈ keys) rows)
       end)).

End Statements.

(** ** [updateTrip], [getSetting], [setSetting], [getMultipleSettings] *)

Module Maintenance.
Import JS Store Sqlite Database Statements.
Local Open Scope store_scope.

(** [updateTrip(id, updates)]; [updates.category] and [updates.notes]
    are a string or [undefined], the latter rendered by [None]. *)
Definition updateTrip (n : number) (new_category new_notes : option text)
  : M bool :=
  try_catch
    (let* database := getDatabase in
     match new_category, new_notes with
     | None, None => ret false
     | _, _ =>
         let* changes := run_update_trip database new_category new_notes n in
         ret (0 <? changes)
     end)
    (λ _, ret false).

(** [result?.value || null]: no row and the empty string both give
    [null], rendered by [None]. *)
Definition value_or_null (result : option text) : option text :=
  match result with
  | Some v => if is_empty v then None else Some v
  | None => None
  end.

Definition getSetting (key : text) : M (option text) :=
  try_catch
    (let* database := getDatabase in
     let* result := get_setting_value database key in
     ret (value_or_null result))
    (λ _, ret None).

Definition setSetting (key value : text) : M bool :=
  try_catch
    (let* database := getDatabase in
     do run_replace_setting database key value then
     ret true)
    (λ _, ret false).

(** [settings[row.key] = row.value] on a plain object: the key
    [__proto__] reaches the setter of [Object.prototype], which ignores
    a string; every other key becomes a property of the object. *)
Definition assign (settings : gmap text text) (row : text * text)
  : gmap text text :=
  if text_eqb row.1 (str "__proto__") then settings
  else <[row.1 := row.2]> settings.

Definition getMultipleSettings (keys : list text) : M (gmap text text) :=
  try_catch
    (let* database := getDatabase in
     let* results := all_settings_in database keys in
     ret (foldl assign ∅ results))
    (λ _, ret ∅).

End Maintenance.
(* ===================================================================== *)
(** * The import route: from the bytes of the upload to the tally         *)
(* ===================================================================== *)

Module ImportPipeline.
Import JS Store Database Maintenance ImportRoute.
Local Open Scope store_scope.

(** [(await getSetting('mapOkategoriseratToPrivat')) === 'true'] *)
Definition remap_enabled : M bool :=
  let* value := getSetting (str "mapOkategoriseratToPrivat") in
  ret (match value with
       | Some v => text_eqb v (str "true")
       | None => false
       end).

(** The upload handler from [const uint8Array] to the three counters:
    the bytes are decoded, the setting is read, the text is parsed and
    the trips are inserted.  What comes before (the copy of the upload
    under [uploads]) and after (the response) is left out.  A decoder
    that throws ends the handler with its [TypeError]. *)
Definition import_upload (uint8Array : list Byte.byte) : M tally :=
  match Encoding.detect_encoding TextDecoder.decode uint8Array with
  | None =>
      throw (mkError "TypeError" None None None)
  | Some csvContent =>
      let* mapOkategoriseratToPrivat := remap_enabled in
      let trips := CsvParser.parseCSVData csvContent mapOkategoriseratToPrivat in
      import_trips trips
  end.

End ImportPipeline.

(* ===================================================================== *)
(** * The route that edits a trip ([api/trips/[id]], [PUT])               *)
(* ===================================================================== *)

Module TripRoute.
Import JS Store Database Maintenance.
Local Open Scope store_scope.

(** The three answers of the handler: 200 with [Resa uppdaterad], 404
    with [Resa inte funnen], 500 with [Kunde inte uppdatera resa]. *)
Inductive answer := Updated | NotFound | CouldNotUpdate.

(** [PUT]: [id] is the path parameter; [body] is what [request.json()]
    gives, [None] where reading it or taking its properties throws, else
    [category] and [notes], each a string or [undefined]. *)
Definition PUT (id : text) (body : option (option text * option text))
  : M answer :=
  try_catch
    (let tripId := parseInt id in
     match body with
     | None => throw (mkError "SyntaxError" None None None)
     | Some (category, notes) =>
         let* success := updateTrip tripId category notes in
         ret (if success then Updated else NotFound)
     end)
    (λ _, ret CouldNotUpdate).

End TripRoute.

(* ===================================================================== *)
(** * The import route: the name of the upload                            *)
(* ===================================================================== *)

Module Upload.
Import JS.

(** The characters of the class [a-zA-Z0-9.-]. *)
Definition name_char (c : N) : bool :=
  ((97 <=? c) && (c <=? 122) || (65 <=? c) && (c <=? 90)
   || (48 <=? c) && (c <=? 57) || (c =? 46) || (c =? 45))%N.

Definition underscore : N := 95%N.

(** [file.name.replace(/[^a-zA-Z0-9.-]/g, '_')].  The pattern has no
    [u] flag and reads the name by UTF-16 code units, so a character
    outside the basic plane, which is two code units, gives two
    underscores. *)
Definition sanitize (name : text) : text :=
  flat_map (λ c, if name_char c then [c]
                 else if (65536 <=? c)%N then [underscore; underscore]
                 else [underscore]) name.

(** The locals of [path.extname] (POSIX): [startDot] and [end] are [-1]
    until they are set, rendered by [None]. *)
Record scan := mkScan {
  startDot : option nat;
  startPart : nat;
  end_ : option nat;
  matchedSlash : bool;
  preDotState : Z
}.

(** The loop of [path.extname], [for (i = path.length - 1; i >= 0;
    --i)], over the characters from the last to the first: the head of
    [chars] has the index [length rest]. *)
Fixpoint extname_scan (chars : list N) (st : scan) : scan :=
  match chars with
  | [] => st
  | code :: rest =>
      let i := length rest in
      if (code =? 47)%N then
        if negb (matchedSlash st)
        then mkScan (startDot st) (S i) (end_ st) (matchedSlash st)
               (preDotState st)
        else extname_scan rest st
      else
        let st1 :=
          match end_ st with
          | None => mkScan (startDot st) (startPart st) (Some (S i)) false
                      (preDotState st)
          | Some _ => st
          end in
        extname_scan rest
          (if (code =? 46)%N then
             match startDot st1 with
             | None => mkScan (Some i) (startPart st1) (end_ st1)
                         (matchedSlash st1) (preDotState st1)
             | Some _ =>
                 if preDotState st1 =? 1 then st1
                 else mkScan (startDot st1) (startPart st1) (end_ st1)
                        (matchedSlash st1) 1
             end
           else
             match startDot st1 with
             | Some _ => mkScan (startDot st1) (startPart st1) (end_ st1)
                           (matchedSlash st1) (-1)
             | None => st1
             end)
  end.

(** [path.extname(path)], on a path of ASCII characters. *)
Definition extname (path : text) : text :=
  let st := extname_scan (rev path) (mkScan None 0 None true 0) in
  match startDot st, end_ st with
  | Some sd, Some e =>
      if (preDotState st =? 0)
         || (preDotState st =? 1) && (sd =? e - 1)%nat
            && (sd =? startPart st + 1)%nat
      then []
      else take (e - sd) (drop sd path)
  | _, _ => []
  end.

Definition allowedExtensions : list text := [str ".csv"; str ".CSV"].

(** [allowedExtensions.includes(path.extname(originalName))], with
    [originalName] the sanitized name of the upload. *)
Definition extension_allowed (name : text) : bool :=
  bool_decide (extname (sanitize name) ∈ allowedExtensions).

End Upload.

(** ** The table [trips] in order, and pages *)

Module KeptNotions.
Import JS Store Sqlite Database.

(** The calls of a startup, after the directory is made where it was
    missing. *)
Definition startup_calls (dd : bool) (calls : list event) : list event :=
  (if dd then [] else [Mkdir DataDir]) ++ calls.

(** No two rows share the columns of the uniqueness constraint. *)
Definition distinct_keys (rows : list StoredTrip) : Prop :=
  forall i j r1 r2,
    rows !! i = Some r1 -> rows !! j = Some r2 ->
    same_key (trip r1) r2 = true -> i = j.

(** No numeric column of the row holds [NULL]. *)
Definition no_null (r : StoredTrip) : Prop :=
  is_null (odometerStart (trip r)) = false
  /\ is_null (odometerEnd (trip r)) = false
  /\ is_null (distance (trip r)) = false.

(** What the schema promises of the table [trips]: one row per key, one
    row per [id], no [id] above the sequence of [AUTOINCREMENT], no
    [NULL] in a numeric column. *)
Definition well_kept (rows : list StoredTrip) (seq : Z) : Prop :=
  distinct_keys rows
  /\ NoDup (map id rows)
  /\ Forall (λ r, id r <= seq) rows
  /\ Forall no_null rows.

(** Two rows agree on [id] and on every column but [category] and
    [notes]. *)
Definition same_but_category_and_notes (r r' : StoredTrip) : Prop :=
  id r' = id r
  /\ startDate (trip r') = startDate (trip r)
  /\ odometerStart (trip r') = odometerStart (trip r)
  /\ startPosition (trip r') = startPosition (trip r)
  /\ endDate (trip r') = endDate (trip r)
  /\ odometerEnd (trip r') = odometerEnd (trip r)
  /\ endDestination (trip r') = endDestination (trip r)
  /\ duration (trip r') = duration (trip r)
  /\ distance (trip r') = distance (trip r)
  /\ fuelConsumption (trip r') = fuelConsumption (trip r)
  /\ title (trip r') = title (trip r)
  /\ batteryConsumption (trip r') = batteryConsumption (trip r)
  /\ batteryRegeneration (trip r') = batteryRegeneration (trip r).

(** The table after [UPDATE trips SET ... WHERE id = ?]. *)
Definition updated (n : number) (c nt : option text) (rows : list StoredTrip)
  : list StoredTrip :=
  map (λ r, if Statements.id_is n r then Statements.set_columns c nt r else r)
    rows.

(** The key that names the prototype of an object. *)
Definition proto : text := str "__proto__".

(** The rows of the table [settings] in the database file. *)
Definition stored_settings (w : world) : list (text * text) :=
  match db_file (files w) with
  | Some (DatabaseFile img) => default [] (settings_table img)
  | _ => []
  end.

(** The remapping flag the import route reads off the settings: on
    when the value under [mapOkategoriseratToPrivat] is the string
    [true]. *)
Definition remap_setting (settings : list (text * text)) : bool :=
  match Maintenance.value_or_null
          (Statements.find_setting (str "mapOkategoriseratToPrivat") settings)
  with
  | Some v => text_eqb v (str "true")
  | None => false
  end.

(** The trips of a run of [getTrips], none when it throws. *)
Definition page_trips (r : outcome trips_page * world) : list StoredTrip :=
  match r.1 with
  | Ok p => trips p
  | Throw _ => []
  end.

End KeptNotions.
(** ** Texts and records of the parser *)

Module RecordNotions.
Import JS CsvParser.

(** A text as [cleanText] leaves it: no null character, no white space
    but the plain space, and none at either end. *)
Definition clean (s : text) : Prop :=
  Forall (λ c, c ≠ 0%N /\ (is_space c = true -> c = 32%N)) s
  /\ (forall c, head s = Some c -> is_space c = false)
  /\ (forall c, last s = Some c -> is_space c = false).

(** The text columns of a trip are clean. *)
Definition clean_record (t : Trip) : Prop :=
  clean (category t) /\ clean (startDate t) /\ clean (startPosition t)
  /\ clean (endDate t) /\ clean (endDestination t) /\ clean (duration t)
  /\ clean (fuelConsumption t) /\ clean (title t)
  /\ clean (batteryConsumption t) /\ clean (batteryRegeneration t)
  /\ clean (notes t).

(** The trip passes the three checks of the parser. *)
Definition accepted (t : Trip) : Prop :=
  category t <> [] /\ startDate t <> []
  /\ ~ (gt (odometerStart t) (odometerEnd t) = true
        /\ gt (distance t) zero = true)
  /\ ~ (strict_eq (odometerStart t) zero = true
        /\ strict_eq (odometerEnd t) zero = true
        /\ strict_eq (distance t) zero = true).

(** The category [Okategoriserat] turned into [Privat], every other
    column as it is. *)
Definition remap (t : Trip) : Trip :=
  mkTrip (if text_eqb (category t) (str "Okategoriserat")
          then str "Privat" else category t)
    (startDate t) (odometerStart t) (startPosition t) (endDate t)
    (odometerEnd t) (endDestination t) (duration t) (distance t)
    (fuelConsumption t) (title t) (batteryConsumption t)
    (batteryRegeneration t) (notes t).

Definition line_feed : N := 10%N.

Definition carriage_return : N := 13%N.

(** The text with every line feed turned into carriage return and line
    feed. *)
Definition crlf (s : text) : text :=
  flat_map (λ c, if (c =? 10)%N then [carriage_return; line_feed] else [c]) s.

End RecordNotions.
(** ** Encoded texts *)

Module EncodedNotions.
Import JS.

(** The byte with the value [n], for [n] below 256. *)
Definition byte_of (n : N) : Byte.byte := default Byte.x00 (Byte.of_N n).

(** The UTF-16LE form of a text of the basic plane: for each character
    the low byte, then the high byte. *)
Definition utf16le_bytes (s : text) : list Byte.byte :=
  flat_map (λ c, [byte_of (c mod 256); byte_of (c / 256)]%N) s.

(** A character of the basic plane that is no surrogate. *)
Definition basic (c : N) : Prop :=
  (c < 65536 /\ ~ (55296 <= c <= 57343))%N.

End EncodedNotions.
(** ** Names of uploads *)

Module UploadNotions.
Import JS Upload.

Definition dot : N := 46%N.
Definition slash : N := 47%N.

(** [end] set where it was not. *)
Definition set_end (k : nat) (st : scan) : scan :=
  match end_ st with
  | None => mkScan (startDot st) (startPart st) (Some k) false (preDotState st)
  | Some _ => st
  end.

(** The locals of [path.extname] before its loop. *)
Definition start : scan := mkScan None 0 None true 0.

End UploadNotions.

(** ** Calendar dates *)

Module DateNotions.
Import JS JSDate.

(** The text [YYYY-MM-DD] of a date. *)
Definition date_text (y m d : Z) : text :=
  digits 4 y ++ [45%N] ++ digits 2 m ++ [45%N] ++ digits 2 d.

(** A day of the calendar in the years 0 to 9999. *)
Definition valid_date (y m d : Z) : Prop :=
  0 <= y <= 9999 /\ 1 <= m <= 12 /\ 1 <= d <= days_in_month y m.

(** The day after, by the calendar. *)
Definition day_after (y m d : Z) : Z * Z * Z :=
  if d <? days_in_month y m then (y, m, d + 1)
  else if m <? 12 then (y, m + 1, 1)
  else (y + 1, 1, 1).

(** Two texts differ, and the first has the smaller character where
    they first do. *)
Fixpoint before (a b : text) : bool :=
  match a, b with
  | x :: a', y :: b' => (x <? y)%N || ((x =? y)%N && before a' b')
  | _, _ => false
  end.

(** The round trip between dates and day numbers, and the step to the
    next day, for one date. *)
Definition same_date (a b : Z * Z * Z) : bool :=
  let '(y1, m1, d1) := a in
  let '(y2, m2, d2) := b in
  (y1 =? y2) && (m1 =? m2) && (d1 =? d2).

Definition check_date (y m d : Z) : bool :=
  let z := days_from_civil y m d in
  same_date (civil_from_days z) (y, m, d)
  && same_date (civil_from_days (z + 1)) (day_after y m d).

(** Reading back the digits of a number, and the order of the digits
    of a number and the next. *)
Definition check_digits (width : nat) (n : Z) : bool :=
  match decimal 0 (digits width n) with
  | Some v => v =? n
  | None => false
  end
  && before (digits width n) (digits width (n + 1)).

Definition check_year (y : Z) : bool :=
  forallb (λ m, forallb (λ d, (days_in_month y m <? d) || check_date y m d)
                  (seqZ 1 31))
    (seqZ 1 12).

End DateNotions.

(* ===================================================================== *)
(** * Properties of the record parser                                     *)
(* ===================================================================== *)

Module ParserProps.
Import ParserNotions.
Import JS CsvParser.

Lemma validate_results l i trip st :
  results (validate l i trip st) = results st
  \/ results (validate l i trip st) = results st ++ [trip].
Proof.
  unfold validate.
  destruct (is_empty (category trip) || is_empty (startDate trip)); [by left|].
  destruct (gt (odometerStart trip) (odometerEnd trip) && gt (distance trip) zero);
    [by left|].
  destruct (strict_eq (odometerStart trip) zero && strict_eq (odometerEnd trip) zero
            && strict_eq (distance trip) zero); [by left | by right].
Qed.

Lemma short_row_ignored flag l i values st :
  (length values < 14)%nat -> process_values flag l i values st = st.
Proof.
  intros Hlen. unfold process_values.
  destruct (Nat.leb_spec 14 (length values)); [lia | reflexivity].
Qed.

(** One row changes [results] by what [row_outcome] says. *)
Lemma results_process_row flag l i r st :
  results (if is_empty (trim r) then st
           else process_values flag l i (split_on semicolon (trim r)) st)
  = results st ++ option_list (row_outcome flag r).
Proof.
  unfold row_outcome, process_values.
  destruct (is_empty (trim r)); [by rewrite app_nil_r|].
  destruct (14 <=? length (split_on semicolon (trim r)))%nat;
    [|by rewrite app_nil_r].
  unfold validate. cbv zeta.
  destruct (is_empty (category _) || is_empty (startDate _));
    [by rewrite app_nil_r|].
  destruct (gt _ _ && gt _ _); [by rewrite app_nil_r|].
  destruct (strict_eq _ _ && strict_eq _ _ && strict_eq _ _);
    [by rewrite app_nil_r | reflexivity].
Qed.

(** The records come out in the order of the rows, the rows that yield
    none dropping out. *)
Lemma results_process_rows flag l rows : forall i st,
  results (process_rows flag l i rows st)
  = results st ++ omap (row_outcome flag) rows.
Proof.
  induction rows as [|r rows IH]; intros i st; simpl.
  - by rewrite app_nil_r.
  - rewrite IH, results_process_row.
    destruct (row_outcome flag r); simpl; [|by rewrite app_nil_r].
    by rewrite <- app_assoc.
Qed.

(** C5. A row with at least 14 fields and a non-empty category and start
    date is accepted (its trip is appended to the results) if and only
    if neither rejection rule applies: not (odometerStart > odometerEnd
    and distance > 0), and not (odometerStart, odometerEnd and distance
    all equal to 0); a rejected row leaves the results as they were and
    adds one to the tally.  The row with readings 100, 50 and distance
    10.0 is rejected, the one with distance 0 is accepted. *)
Theorem C5_validation_policy (flag : bool) (l : row_label) (i : nat)
    (values : list text) (st : parse_state) :
  (14 <= length values)%nat ->
  category (decode_row flag values) <> [] ->
  startDate (decode_row flag values) <> [] ->
  let trip := decode_row flag values in
  let st' := process_values flag l i values st in
  (results st' = results st ++ [trip]
   <-> ~ (gt (odometerStart trip) (odometerEnd trip) = true
          /\ gt (distance trip) zero = true)
       /\ ~ (strict_eq (odometerStart trip) zero = true
             /\ strict_eq (odometerEnd trip) zero = true
             /\ strict_eq (distance trip) zero = true))
  /\ (results st' <> results st ++ [trip]
      -> results st' = results st /\ skippedLines st' = S (skippedLines st))
  /\ (odometerStart (decode_row false (split_on semicolon row_reversed)) = Fin 100
      /\ odometerEnd (decode_row false (split_on semicolon row_reversed)) = Fin 50
      /\ distance (decode_row false (split_on semicolon row_reversed)) = Fin 10
      /\ row_outcome false row_reversed = None)
  /\ (odometerStart (decode_row false (split_on semicolon row_reversed_zero)) = Fin 100
      /\ odometerEnd (decode_row false (split_on semicolon row_reversed_zero)) = Fin 50
      /\ distance (decode_row false (split_on semicolon row_reversed_zero)) = Fin 0
      /\ row_outcome false row_reversed_zero
         = Some (decode_row false (split_on semicolon row_reversed_zero))).
Proof.
  intros Hlen Hcat Hdate trip st'.
  assert (Hne : forall (A : Type) (xs : list A) (x : A), xs <> xs ++ [x]).
  { intros A xs x Heq. apply (f_equal length) in Heq.
    rewrite length_app in Heq. simpl in Heq. lia. }
  subst st'. unfold process_values.
  destruct (Nat.leb_spec 14 (length values)) as [_|]; [|lia].
  fold trip. unfold validate.
  destruct (category trip) as [|c cs] eqn:Ec; [done|].
  destruct (startDate trip) as [|d ds] eqn:Ed; [done|].
  cbn [is_empty orb].
  destruct (gt (odometerStart trip) (odometerEnd trip)) eqn:E1;
    destruct (gt (distance trip) zero) eqn:E2;
    destruct (strict_eq (odometerStart trip) zero) eqn:E3;
    destruct (strict_eq (odometerEnd trip) zero) eqn:E4;
    destruct (strict_eq (distance trip) zero) eqn:E5;
    cbn [andb results skippedLines];
    (split; [split; [intros H; first [by destruct (Hne _ _ _ H) | intuition congruence]
                    | intros [H1 H2]; first [reflexivity | exfalso; tauto]]
            | split; [intros H; first [by destruct H | done]
                     | split; vm_compute; done]]).
Qed.

(** C5 at the row with readings 100 and 50 and distance 0. *)
Lemma C5_validation_policy_witness :
  results (process_values false Line 1 (split_on semicolon row_reversed_zero)
             initial_state)
  = [decode_row false (split_on semicolon row_reversed_zero)].
Proof.
  pose proof (C5_validation_policy false Line 1
                (split_on semicolon row_reversed_zero) initial_state) as H.
  destruct H as [[_ Hacc] _].
  - vm_compute. lia.
  - vm_compute. discriminate.
  - vm_compute. discriminate.
  - apply Hacc. split; vm_compute; intros H; destruct H as [H1 H2];
      try discriminate; destruct H2; discriminate.
Defined.

End ParserProps.

(** ** The legacy single-line layout *)

Module LegacyProps.
Import ParserNotions.
Import JS CsvParser ParserProps.

Lemma search_category_Some s : forall n,
  search_category s = Some n ->
  at_category (drop n s) = true
  /\ forall k, (k < n)%nat -> at_category (drop k s) = false.
Proof.
  induction s as [|c s IH]; intros n; simpl.
  - destruct (at_category []) eqn:E; [|discriminate].
    vm_compute in E. discriminate.
  - destruct (at_category (c :: s)) eqn:E.
    + intros [= <-]. split; [exact E | intros k Hk; lia].
    + destruct (search_category s) as [m|] eqn:Es; [|discriminate].
      simpl. intros [= <-]. destruct (IH m eq_refl) as [Hm Hlt].
      split; [exact Hm|]. intros [|k] Hk; [exact E|]. apply Hlt. lia.
Qed.

Lemma search_category_None s :
  search_category s = None -> forall k, at_category (drop k s) = false.
Proof.
  induction s as [|c s IH]; simpl.
  - intros _ k. by destruct k.
  - destruct (at_category (c :: s)) eqn:E; [discriminate|].
    destruct (search_category s) eqn:Es; [discriminate|].
    intros _ [|k]; [exact E | by apply IH].
Qed.

Lemma split_head s : forall cur,
  exists x rs, split_before_category_from cur s = (rev cur ++ x) :: rs.
Proof.
  induction s as [|c s IH]; intros cur; simpl.
  - exists [], []. by rewrite app_nil_r.
  - destruct (negb (is_empty cur) && at_category (c :: s)).
    + exists [], (split_before_category_from [c] s). by rewrite app_nil_r.
    + destruct (IH (c :: cur)) as (x & rs & ->).
      exists (c :: x), rs. simpl. by rewrite <- app_assoc.
Qed.

Lemma split_concat s : forall cur,
  concat (split_before_category_from cur s) = rev cur ++ s.
Proof.
  induction s as [|c s IH]; intros cur; simpl.
  - by rewrite !app_nil_r.
  - destruct (negb (is_empty cur) && at_category (c :: s)); simpl.
    + by rewrite IH.
    + rewrite IH. simpl. by rewrite <- app_assoc.
Qed.

Lemma boundary_cons r rows pre :
  pre <> [] -> boundary (r :: rows) (r ++ pre) <-> boundary rows pre.
Proof.
  intros Hpre. split.
  - intros (rows1 & rows2 & Heq & H1 & H2 & Hc).
    destruct rows1 as [|a rows1]; [done|].
    injection Heq as <- ->. simpl in Hc. apply app_inv_head in Hc.
    exists rows1, rows2. repeat split; [|done..].
    intros ->. simpl in Hc. by subst pre.
  - intros (rows1 & rows2 & -> & H1 & H2 & <-).
    exists (r :: rows1), rows2. by repeat split.
Qed.

Lemma no_boundary_inside c x rs cur :
  ~ boundary ((rev (c :: cur) ++ x) :: rs) (rev cur).
Proof.
  intros (rows1 & rows2 & Heq & H1 & H2 & Hc).
  destruct rows1 as [|a rows1]; [done|].
  injection Heq as <- _. apply (f_equal length) in Hc.
  rewrite concat_cons, !length_app, !length_rev in Hc.
  simpl in Hc. lia.
Qed.

(** The rows end exactly before the occurrences of a keyword. *)
Lemma split_boundary s : forall cur pre suf,
  s = pre ++ suf -> pre <> [] \/ cur <> [] ->
  at_category suf = true
  <-> boundary (split_before_category_from cur s) (rev cur ++ pre).
Proof.
  induction s as [|c s IH]; intros cur pre suf Hs Hne.
  - symmetry in Hs. apply app_eq_nil in Hs as [-> ->]. simpl. split.
    + intros E. vm_compute in E. discriminate.
    + intros (rows1 & rows2 & Heq & H1 & H2 & _).
      apply (f_equal length) in Heq. rewrite length_app in Heq.
      destruct rows1, rows2; simpl in *; try done; lia.
  - destruct pre as [|c' pre].
    + simpl in Hs. subst suf. destruct Hne as [|Hcur]; [done|].
      rewrite app_nil_r. simpl.
      assert (is_empty cur = false) as -> by (by destruct cur).
      simpl. destruct (at_category (c :: s)) eqn:E.
      * split; [intros _|done].
        destruct (split_head s [c]) as (x & rs & Hx).
        exists [rev cur], (split_before_category_from [c] s).
        repeat split; [done| |simpl; by rewrite app_nil_r].
        by rewrite Hx.
      * split; [done|]. intros Hb.
        destruct (split_head s (c :: cur)) as (x & rs & Hx).
        rewrite Hx in Hb. by apply no_boundary_inside in Hb.
    + injection Hs as <- ->. simpl.
      destruct (negb (is_empty cur) && at_category (c :: pre ++ suf)).
      * rewrite boundary_cons by done.
        apply (IH [c] pre suf eq_refl). by right.
      * replace (rev cur ++ c :: pre) with (rev (c :: cur) ++ pre)
          by (simpl; by rewrite <- app_assoc).
        apply (IH (c :: cur) pre suf eq_refl). by right.
Qed.

(** C6. When the cleaned input splits into at most two lines the parser
    takes the legacy single-line path: what comes before the first
    occurrence of [Privat;], [Arbete;] or [Okategoriserat;] is
    discarded, the rest is cut into rows exactly before every further
    occurrence of one of the three, and the result is what those rows
    yield, in order; with no occurrence the result is empty.  The sample
    input yields one record, of category Privat and distance 50. *)
Theorem C6_legacy_single_line (csv : text) (flag : bool) :
  (length (split_lines (clean_content csv)) <= 2)%nat ->
  let content := clean_content csv in
  match search_category content with
  | None =>
      (forall k, at_category (drop k content) = false)
      /\ parseCSVData csv flag = []
  | Some n =>
      let data := drop n content in
      let rows := split_before_category data in
      at_category data = true
      /\ (forall k, (k < n)%nat -> at_category (drop k content) = false)
      /\ concat rows = data
      /\ (forall pre suf, data = pre ++ suf -> pre <> [] ->
          at_category suf = true <-> boundary rows pre)
      /\ parseCSVData csv flag = omap (row_outcome flag) rows
  end
  /\ (length (split_lines (clean_content legacy_sample)) = 1%nat
      /\ forall remap,
         map (fun t => (category t, distance t)) (parseCSVData legacy_sample remap)
         = [(str "Privat", Fin 50)]).
Proof.
  intros Hlines content. split.
  - unfold parseCSVData, parseCSVData_state. fold content.
    destruct (Nat.ltb_spec 2 (length (split_lines content))) as [|_];
      [unfold content in *; lia|].
    destruct (search_category content) as [n|] eqn:Es.
    + destruct (search_category_Some _ _ Es) as [Hat Hbefore].
      cbv zeta. repeat split; try done.
      * apply (split_concat (drop n content) []).
      * intros Hsuf. apply (split_boundary _ [] pre suf H); [by left | done].
      * intros Hb. apply (split_boundary _ [] pre suf H); [by left | done].
      * by rewrite results_process_rows.
    + split; [by apply search_category_None | reflexivity].
  - split; [by vm_compute|]. intros []; by vm_compute.
Qed.

(** C6 at the sample input. *)
Lemma C6_legacy_single_line_witness :
  search_category (clean_content legacy_sample) = Some 13%nat
  /\ split_before_category (drop 13 (clean_content legacy_sample))
     = [drop 13 legacy_sample]
  /\ map (fun t => (category t, distance t)) (parseCSVData legacy_sample false)
     = [(str "Privat", Fin 50)].
Proof.
  assert (Hlen : (length (split_lines (clean_content legacy_sample)) <= 2)%nat)
    by (vm_compute; lia).
  pose proof (C6_legacy_single_line legacy_sample false Hlen) as [_ [_ Hs]].
  split; [by vm_compute|]. split; [by vm_compute|]. apply Hs.
Defined.

End LegacyProps.

(** ** What the parser returns, and rows with too few fields *)

Module TallyProps.
Import ParserNotions.
Import JS CsvParser ParserProps.

(** The parser's result is [results] alone, and a row with fewer than
    14 fields is not counted: the file above has one, and
    [skippedLines] ends at 0. *)
Lemma C9_short_row_not_counted :
  length (split_lines (clean_content file_with_short_row)) = 4%nat
  /\ length (split_on semicolon (str "Privat;2024-01-01;100")) = 3%nat
  /\ skippedLines (parseCSVData_state file_with_short_row false) = 0%nat
  /\ errors (parseCSVData_state file_with_short_row false) = []
  /\ length (parseCSVData file_with_short_row false) = 1%nat
  /\ ~ (forall flag l i values st,
          (length values < 14)%nat ->
          skippedLines (process_values flag l i values st)
          = S (skippedLines st)).
Proof.
  do 5 (split; [by vm_compute|]).
  intros H.
  specialize (H false Line 1%nat (split_on semicolon (str "Privat;2024-01-01;100"))
                initial_state).
  rewrite short_row_ignored in H by (vm_compute; lia).
  simpl in H. assert (0 = 1)%nat as Hf by (apply H; vm_compute; lia).
  discriminate.
Qed.

(** C9, amended. The parser returns the sequence of accepted trip
    records and nothing else: in the line-delimited layout the records
    that the lines after the header yield, in order.  A row with fewer
    than 14 fields yields no record and leaves the results as they
    were; a malformed row never stops the parse, the rows after it are
    read as usual. *)
Theorem C9_parser_returns_accepted_records (csv : text) (flag : bool) :
  parseCSVData csv flag = results (parseCSVData_state csv flag)
  /\ ((2 < length (split_lines (clean_content csv)))%nat ->
      parseCSVData csv flag
      = omap (row_outcome flag) (drop 1 (split_lines (clean_content csv))))
  /\ (forall r, (length (split_on semicolon (trim r)) < 14)%nat ->
      row_outcome flag r = None)
  /\ (forall l i values st, (length values < 14)%nat ->
      results (process_values flag l i values st) = results st)
  /\ (forall l i r rows st,
      results (process_rows flag l i (r :: rows) st)
      = results st ++ option_list (row_outcome flag r)
        ++ omap (row_outcome flag) rows).
Proof.
  split; [reflexivity|]. split; [|split; [|split]].
  - intros Hlines. unfold parseCSVData, parseCSVData_state.
    destruct (Nat.ltb_spec 2 (length (split_lines (clean_content csv))));
      [|lia].
    by rewrite results_process_rows.
  - intros r Hlen. unfold row_outcome.
    destruct (is_empty (trim r)); [done|].
    by destruct (Nat.leb_spec 14 (length (split_on semicolon (trim r)))); [lia|].
  - intros l i values st Hlen. by rewrite short_row_ignored.
  - intros l i r rows st. rewrite results_process_rows. simpl.
    by destruct (row_outcome flag r).
Qed.

(** C9 at the file with a short row. *)
Lemma C9_parser_returns_accepted_records_witness :
  map (fun t => (category t, distance t))
    (parseCSVData file_with_short_row false)
  = [(str "Arbete", Fin (101 # 2))].
Proof.
  destruct (C9_parser_returns_accepted_records file_with_short_row false)
    as (_ & Hlines & _).
  rewrite Hlines; [by vm_compute | vm_compute; lia].
Defined.

End TallyProps.

(* ===================================================================== *)
(** * Properties of the encoding detector                                 *)
(* ===================================================================== *)

Module EncodingProps.
Import EncodingNotions.
Import JS Encoding.
Import TextDecoder(label, utf_16le, utf_16be, utf_8, iso_8859_1, windows_1252).

Lemma byte_is_spec bytes i b :
  byte_is bytes i b = true <-> bytes !! i = Some b.
Proof.
  unfold byte_is. destruct (bytes !! i) as [x|]; [|done].
  split.
  - intros H. f_equal. by apply Byte.byte_dec_bl.
  - intros [= ->]. by apply Byte.byte_dec_lb.
Qed.

Lemma two_bytes bytes b0 b1 :
  byte_is bytes 0 b0 && byte_is bytes 1 b1 = true ->
  exists rest, bytes = b0 :: b1 :: rest.
Proof.
  intros H. apply andb_prop in H as [H0 H1].
  apply byte_is_spec in H0, H1.
  destruct bytes as [|x0 [|x1 rest]]; try discriminate.
  injection H0 as ->. injection H1 as ->. by exists rest.
Qed.

Lemma three_bytes bytes b0 b1 b2 :
  byte_is bytes 0 b0 && byte_is bytes 1 b1 && byte_is bytes 2 b2 = true ->
  exists rest, bytes = b0 :: b1 :: b2 :: rest.
Proof.
  intros H. apply andb_prop in H as [H H2].
  apply two_bytes in H as [rest ->]. apply byte_is_spec in H2.
  destruct rest as [|x2 rest]; try discriminate.
  injection H2 as ->. by exists rest.
Qed.

Lemma no_mark_tests bytes :
  ~ has_mark bytes ->
  byte_is bytes 0 Byte.xff && byte_is bytes 1 Byte.xfe = false
  /\ byte_is bytes 0 Byte.xfe && byte_is bytes 1 Byte.xff = false
  /\ byte_is bytes 0 Byte.xef && byte_is bytes 1 Byte.xbb
     && byte_is bytes 2 Byte.xbf = false.
Proof.
  intros H. unfold has_mark in H.
  repeat split; apply not_true_is_false; intros Ht.
  - apply two_bytes in Ht. tauto.
  - apply two_bytes in Ht. tauto.
  - apply three_bytes in Ht. tauto.
Qed.

(** C7. The detector follows the chain, the first match winning: after
    FF FE the remaining bytes are decoded as UTF-16LE, after FE FF as
    UTF-16BE, after EF BB BF as UTF-8; without a mark strict UTF-8 is
    tried, then ISO-8859-1 where that throws, then windows-1252 where
    that throws too.  A decoder that is not fatal does not throw, so the
    detector returns a text for every byte sequence. *)
Theorem C7_detect_encoding_chain
    (decode : label -> bool -> list Byte.byte -> option text)
    (bytes : list Byte.byte) :
  (forall l bs, is_Some (decode l false bs)) ->
  (forall rest,
     detect_encoding decode (Byte.xff :: Byte.xfe :: rest)
     = decode utf_16le false rest)
  /\ (forall rest,
     detect_encoding decode (Byte.xfe :: Byte.xff :: rest)
     = decode utf_16be false rest)
  /\ (forall rest,
     detect_encoding decode (Byte.xef :: Byte.xbb :: Byte.xbf :: rest)
     = decode utf_8 false rest)
  /\ (~ has_mark bytes ->
      detect_encoding decode bytes
      = match decode utf_8 true bytes with
        | Some t => Some t
        | None =>
            match decode iso_8859_1 false bytes with
            | Some t => Some t
            | None => decode windows_1252 false bytes
            end
        end)
  /\ is_Some (detect_encoding decode bytes).
Proof.
  intros Htotal.
  split; [reflexivity|]. split; [reflexivity|]. split; [reflexivity|]. split.
  - intros Hmark. unfold detect_encoding.
    destruct (no_mark_tests bytes Hmark) as (-> & -> & ->). reflexivity.
  - unfold detect_encoding.
    repeat match goal with
           | |- is_Some (if ?c then _ else _) => destruct c
           end; try apply Htotal.
    unfold try_or. destruct (decode utf_8 true bytes); [by eexists|].
    destruct (decode iso_8859_1 false bytes); [by eexists | apply Htotal].
Qed.

(** C7 at the platform's decoders and a file without a mark that is not
    UTF-8: the byte E5 is read as U+00E5. *)
Lemma C7_detect_encoding_chain_witness :
  detect_encoding TextDecoder.decode [Byte.x41; Byte.xe5] = Some [65%N; 229%N]
  /\ is_Some (detect_encoding TextDecoder.decode [Byte.x41; Byte.xe5]).
Proof.
  assert (Htotal : forall l bs, is_Some (TextDecoder.decode l false bs))
    by (intros l bs; by eexists).
  destruct (C7_detect_encoding_chain TextDecoder.decode
              [Byte.x41; Byte.xe5] Htotal) as (_ & _ & _ & Hchain & Hsome).
  split; [|exact Hsome].
  rewrite Hchain; [reflexivity|].
  intros [[rest H]|[[rest H]|[rest H]]]; discriminate.
Defined.

End EncodingProps.

(* ===================================================================== *)
(** * Properties of the startup sequence                                  *)
(* ===================================================================== *)

Module StartupProps.
Import StoreNotions.
Import JS Store Sqlite Database.

(** Case analysis on the next entry of the fault schedule. *)
Ltac split_faults :=
  match goal with
  | |- context [match ?fl with [] => _ | _ :: _ => _ end] =>
      is_var fl; destruct fl as [|[?|] ?]
  end.

Ltac use_lookup :=
  match goal with
  | H : lookup_file ?fs ?h = _ |- context [lookup_file ?fs ?h] => rewrite H
  | H : db_file ?fs = _ |- context [db_file ?fs] => rewrite H
  end.

(** Run a computation on a world given by its fields, splitting on
    whatever the run depends on. *)
Ltac crunch :=
  repeat first
    [ progress cbn
    | use_lookup
    | split_faults
    | match goal with
      | |- context [(?s =? "ok")%string] => destruct (String.eqb_spec s "ok")
      end
    | match goal with
      | |- context [match ?x with Some _ => _ | None => _ end] =>
          destruct x eqn:?
      end
    | match goal with
      | |- context [if ?b then _ else _] => destruct b eqn:?
      end ].

(** [validateDatabase] always returns, touches nothing but the log and
    the fault schedule, and calls the database healthy only where the
    integrity check said [ok]. *)
Lemma validate_total h existed w :
  exists v w',
    validateDatabase h existed w = (Ok v, w')
    /\ files w' = files w /\ db w' = db w /\ snapshot w' = snapshot w
    /\ clock w' = clock w
    /\ (isHealthy v = true ->
        exists img, lookup_file (files w) h = Some (DatabaseFile img)
                    /\ integrity_check img = "ok"%string).
Proof.
  destruct w as [fs ck fl d sn lg].
  unfold validateDatabase, get_select_1, get_integrity_check,
    all_required_tables, fallible, on_image, bind, try_catch, ret.
  cbn. destruct (lookup_file fs h) as [[bytes|img]|] eqn:Hf; crunch;
    do 2 eexists; (split; [reflexivity|]); cbn; repeat split; try done; eauto.
Qed.

(** [recoverDatabase] always returns, and leaves [db] alone. *)
Lemma recover_total w :
  exists r w', recoverDatabase w = (Ok r, w') /\ db w' = db w
               /\ (r = None \/ r = Some DbPath).
Proof.
  destruct w as [[dd f bk] ck fl d sn lg].
  unfold recoverDatabase, Date_now, existsSync, renameSync, open,
    exec_create_trips, exec_create_settings, fallible, on_image, put_image,
    bind, try_catch, ret, read, write, throw.
  destruct ck as [|t ck]; destruct f as [f|]; destruct dd; crunch;
    do 2 eexists; (split; [reflexivity|]); (split; [reflexivity|]); auto.
Qed.

Lemma createTables_db w r w' :
  createTables DbPath w = (r, w') -> db w' = db w.
Proof.
  destruct w as [[dd f bk] ck fl d sn lg].
  unfold createTables, exec_create_trips, exec_create_settings, fallible,
    on_image, put_image, bind, ret, write, throw.
  destruct f as [[bytes|img]|]; crunch;
    intros H; apply (f_equal snd) in H; cbn in H; by rewrite <- H.
Qed.

(** The [catch] block runs one recovery, and throws exactly when that
    recovery returns [null]. *)
Lemma final_fallback_spec w :
  exists w1 r w2,
    recoverDatabase w1 = (Ok r, w2)
    /\ (r = None \/ r = Some DbPath)
    /\ final_fallback w
       = (match r with Some _ => Ok tt | None => Throw both_failed end,
          set_db r w2).
Proof.
  destruct w as [fs ck fl d sn lg].
  unfold final_fallback, close, fallible, bind, try_catch, read, write, ret,
    throw.
  cbn -[recoverDatabase].
  destruct d as [h|]; [destruct fl as [|[e|] fl]|]; cbn -[recoverDatabase].
  all: match goal with
       | |- context [recoverDatabase ?w0] =>
           destruct (recover_total w0) as (r & w2 & Hr & _ & Hcase);
           exists w0, r, w2; rewrite Hr
       end.
  all: split; [reflexivity|]; split; [exact Hcase|]; by destruct r.
Qed.

(** When the [try] block ends normally, [db] holds the handle. *)
Lemma initialize_ok_db w w' :
  initialize w = (Ok tt, w') -> db w' = Some DbPath.
Proof.
  destruct w as [[dd f bk] ck fl d sn lg].
  unfold initialize, existsSync, mkdirSync, open, fallible, bind, read,
    write, ret, throw.
  cbn -[validateDatabase recoverDatabase createTables close].
  assert (Hrest : forall existed w0,
    db w0 = Some DbPath ->
    (let (o, w1) := validateDatabase DbPath existed w0 in
     match o with
     | Ok a =>
         (if negb (isHealthy a)
          then λ w : world,
              let (o0, w2) := close DbPath w in
              match o0 with
              | Ok _ =>
                  let (o1, w3) := recoverDatabase w2 in
                  match o1 with
                  | Ok a1 =>
                      match a1 with
                      | Some _ => λ w : world, (Ok tt, w)
                      | None => λ w : world, (Throw (plain_error "Database recovery failed"), w)
                      end (set_db a1 w3)
                  | Throw e => (Throw e, w3)
                  end
              | Throw e => (Throw e, w2)
              end
          else if isFreshDatabase a then createTables DbPath
               else createTables DbPath) w1
     | Throw e => (Throw e, w1)
     end) = (Ok tt, w') -> db w' = Some DbPath).
  { intros existed w0 Hdb0.
    destruct (validate_total DbPath existed w0) as (v & w1 & -> & _ & Hdb1 & _).
    destruct (isHealthy v); cbn -[recoverDatabase createTables close].
    - assert (createTables DbPath w1 = (Ok tt, w') -> db w' = Some DbPath)
        by (intros Hc; apply createTables_db in Hc; congruence).
      by destruct (isFreshDatabase v).
    - unfold close, fallible, ret.
      destruct (faults (add_log (Close DbPath) w1)) as [|[e|] fl'];
        try discriminate;
        match goal with
        | |- context [recoverDatabase ?w2] =>
            destruct (recover_total w2) as (r & w3 & -> & _ & [-> | ->])
        end; try discriminate; by intros [= <-]. }
  destruct dd, f as [f|]; cbn -[validateDatabase recoverDatabase createTables close];
    repeat (split_faults; cbn -[validateDatabase recoverDatabase createTables close]);
    try discriminate; by apply Hrest.
Qed.

(** Initialization throws one error only, and only after the recovery
    of the [catch] block has failed. *)
Lemma getDatabase_throws w e w' :
  db w = None ->
  getDatabase w = (Throw e, w') ->
  e = both_failed
  /\ exists w1 w2, recoverDatabase w1 = (Ok None, w2) /\ w' = set_db None w2.
Proof.
  intros Hdb. unfold getDatabase, bind, read, try_catch. rewrite Hdb.
  destruct (initialize w) as [[[]|e0] w1] eqn:Hi.
  - apply initialize_ok_db in Hi. rewrite Hi. discriminate.
  - destruct (final_fallback_spec w1) as (w1' & r & w2 & Hr & [-> | ->] & ->).
    + intros [= <- <-]. split; [reflexivity|]. by exists w1', w2.
    + cbn. discriminate.
Qed.

(** A fresh install: no file at [data/trips.db]. *)
Lemma fresh_install dd bk ck sn lg :
  getDatabase (mkWorld (mkFs dd None bk) ck [] None sn lg)
  = (Ok DbPath,
     mkWorld (mkFs true (Some (DatabaseFile schema_image)) bk) ck []
       (Some DbPath) sn
       (rev ((if dd then [] else [Mkdir DataDir])
             ++ [Open DbPath; Sql SELECT_1; Sql PRAGMA_integrity_check;
                 Sql SELECT_required_tables; Sql CREATE_TABLE_trips;
                 Sql CREATE_TABLE_settings]) ++ lg)).
Proof. by destruct dd. Qed.

(** A file that fails the integrity check is moved aside and replaced. *)
Lemma recovery_run f bk ts ck sn lg :
  integrity_check_fails f ->
  getDatabase (mkWorld (mkFs true (Some f) bk) (ts :: ck) [] None sn lg)
  = (Ok DbPath,
     mkWorld (mkFs true (Some (DatabaseFile schema_image)) (<[ts := f]> bk))
       ck [] (Some DbPath) sn
       (rev (recovery_calls [Sql SELECT_1; Sql PRAGMA_integrity_check] ts)
        ++ lg)).
Proof.
  destruct f as [bytes|img]; [reflexivity|]. intros Hfail. cbn in Hfail.
  unfold getDatabase, initialize, validateDatabase, bind, try_catch, read.
  cbn. destruct (String.eqb_spec (integrity_check img) "ok"); [done|].
  reflexivity.
Qed.

(** A file that existed, passes the integrity check and lacks a
    required table is moved aside and replaced as well. *)
Lemma missing_tables_run img bk ts ck sn lg :
  integrity_check img = "ok"%string ->
  trips_table img = None \/ settings_table img = None ->
  getDatabase (mkWorld (mkFs true (Some (DatabaseFile img)) bk) (ts :: ck) []
                 None sn lg)
  = (Ok DbPath,
     mkWorld (mkFs true (Some (DatabaseFile schema_image))
                (<[ts := DatabaseFile img]> bk))
       ck [] (Some DbPath) sn
       (rev (recovery_calls [Sql SELECT_1; Sql PRAGMA_integrity_check;
                             Sql SELECT_required_tables] ts)
        ++ lg)).
Proof.
  destruct img as [s tt sq st]. cbn. intros -> Hmiss.
  destruct tt, st; destruct Hmiss; try discriminate; reflexivity.
Qed.

(** C4. [validateDatabase] always returns a classification, and calls
    the database healthy only where the integrity check reported [ok]:
    any other report, or a failing query, is classified corrupt.  Where
    the check passes and a required table is missing, the database is
    corrupt exactly when the file existed before opening and
    healthy-fresh exactly when it did not.  On a fresh install
    [getDatabase] then creates the tables and runs no recovery: nothing
    is closed or renamed, no backup appears; on a file that existed
    without the tables it runs the recovery. *)
Theorem C4_health_classification (h : handle) (existed : bool) (w : world) :
  (exists v w',
     validateDatabase h existed w = (Ok v, w')
     /\ (isHealthy v = true ->
         exists img, lookup_file (files w) h = Some (DatabaseFile img)
                     /\ integrity_check img = "ok"%string))
  /\ (forall img,
        faults w = [] ->
        lookup_file (files w) h = Some (DatabaseFile img) ->
        integrity_check img = "ok"%string ->
        trips_table img = None \/ settings_table img = None ->
        (validateDatabase h existed w).1
        = Ok (mkValidation (negb existed) (negb existed)))
  /\ (forall img,
        faults w = [] ->
        lookup_file (files w) h = Some (DatabaseFile img) ->
        integrity_check img = "ok"%string ->
        is_Some (trips_table img) -> is_Some (settings_table img) ->
        (validateDatabase h existed w).1 = Ok (mkValidation true false))
  /\ (forall dd bk ck sn lg,
        getDatabase (mkWorld (mkFs dd None bk) ck [] None sn lg)
        = (Ok DbPath,
           mkWorld (mkFs true (Some (DatabaseFile schema_image)) bk) ck []
             (Some DbPath) sn
             (rev ((if dd then [] else [Mkdir DataDir])
                   ++ [Open DbPath; Sql SELECT_1; Sql PRAGMA_integrity_check;
                       Sql SELECT_required_tables; Sql CREATE_TABLE_trips;
                       Sql CREATE_TABLE_settings]) ++ lg)))
  /\ (forall img bk ts ck sn lg,
        integrity_check img = "ok"%string ->
        trips_table img = None \/ settings_table img = None ->
        getDatabase (mkWorld (mkFs true (Some (DatabaseFile img)) bk)
                       (ts :: ck) [] None sn lg)
        = (Ok DbPath,
           mkWorld (mkFs true (Some (DatabaseFile schema_image))
                      (<[ts := DatabaseFile img]> bk))
             ck [] (Some DbPath) sn
             (rev (recovery_calls [Sql SELECT_1; Sql PRAGMA_integrity_check;
                                   Sql SELECT_required_tables] ts)
              ++ lg))).
Proof.
  split; [|split; [|split; [|split]]].
  - destruct (validate_total h existed w) as (v & w' & Hv & _ & _ & _ & _ & Hok).
    by exists v, w'.
  - intros [s tt sq st] Hf Hfile Hs Hmiss. cbn in Hs, Hmiss. subst s.
    destruct w as [fs ck fl d sn lg]. cbn in Hf, Hfile. subst fl.
    unfold validateDatabase, get_select_1, get_integrity_check,
      all_required_tables, fallible, on_image, bind, try_catch, ret.
    cbn. rewrite Hfile. cbn. rewrite Hfile.
    destruct tt, st, existed; destruct Hmiss; try discriminate; reflexivity.
  - intros [s tt sq st] Hf Hfile Hs Ht Hst. cbn in Hs, Ht, Hst. subst s.
    destruct Ht as [rows ->], Hst as [sets ->].
    destruct w as [fs ck fl d sn lg]. cbn in Hf, Hfile. subst fl.
    unfold validateDatabase, get_select_1, get_integrity_check,
      all_required_tables, fallible, on_image, bind, try_catch, ret.
    cbn. rewrite Hfile. cbn. rewrite Hfile. by destruct existed.
  - apply fresh_install.
  - apply missing_tables_run.
Qed.

(** C4 on an empty database file that did not exist before opening. *)
Lemma C4_health_classification_witness :
  (validateDatabase DbPath false
     (mkWorld (mkFs true (Some (DatabaseFile empty_image)) ∅) [] [] None
        None [])).1
  = Ok (mkValidation true true).
Proof.
  destruct (C4_health_classification DbPath false
              (mkWorld (mkFs true (Some (DatabaseFile empty_image)) ∅) [] []
                 None None []))
    as (_ & Hfresh & _).
  apply (Hfresh empty_image); try reflexivity. by left.
Defined.

(** The recovery of the [try] block fails, and initialization goes on:
    the [catch] block runs the recovery again, it succeeds, and
    [getDatabase] returns the handle. *)
Lemma C3_recovery_is_tried_again :
  db_file (files world_first_recovery_fails) = Some (NotADatabase [Byte.x00])
  /\ integrity_check_fails (NotADatabase [Byte.x00])
  /\ (initialize world_first_recovery_fails).1 = Throw recovery_failed
  /\ db (initialize world_first_recovery_fails).2 = None
  /\ (getDatabase world_first_recovery_fails).1 = Ok DbPath
  /\ rev (log (getDatabase world_first_recovery_fails).2)
     = [Open DbPath; Sql SELECT_1; Sql PRAGMA_integrity_check; Close DbPath;
        Rename DbPath (BackupPath 1000);
        Rename DbPath (BackupPath 2000); Open DbPath;
        Sql CREATE_TABLE_trips; Sql CREATE_TABLE_settings]
  /\ ~ (forall w w1,
          db w = None ->
          initialize w = (Throw recovery_failed, w1) ->
          exists e w', getDatabase w = (Throw e, w')).
Proof.
  do 6 (split; [by vm_compute|]).
  intros H.
  destruct (H world_first_recovery_fails
              (initialize world_first_recovery_fails).2 eq_refl)
    as (e & w' & He); [by vm_compute|].
  apply (f_equal fst) in He. vm_compute in He. discriminate.
Qed.

(** C3, amended. On a database file whose integrity check fails, with
    no call failing, initialization moves the file to the backup path
    of the current time, its content unchanged, makes a new file with
    the schema at the original path, and returns the handle.  When the
    recovery of the [try] block fails, the [catch] block runs the
    recovery once more, and initialization throws only when that one
    fails too. *)
Theorem C3_corrupt_file_is_backed_up (w : world) (f : file) (ts : Z)
    (later : list Z) :
  db w = None ->
  faults w = [] ->
  data_dir (files w) = true ->
  db_file (files w) = Some f ->
  integrity_check_fails f ->
  clock w = ts :: later ->
  (exists w',
     getDatabase w = (Ok DbPath, w')
     /\ db w' = Some DbPath
     /\ lookup_file (files w') (BackupPath ts) = Some f
     /\ lookup_file (files w') DbPath = Some (DatabaseFile schema_image)
     /\ backups (files w') = <[ts := f]> (backups (files w))
     /\ rev (log w')
        = rev (log w)
          ++ recovery_calls [Sql SELECT_1; Sql PRAGMA_integrity_check] ts)
  /\ (forall w0 e w1,
        db w0 = None ->
        initialize w0 = (Throw e, w1) ->
        db w1 = None ->
        getDatabase w0
        = (let (r, w2) := recoverDatabase w1 in
           match r with
           | Ok (Some h) => (Ok h, set_db (Some h) w2)
           | _ => (Throw both_failed, set_db None w2)
           end))
  /\ (forall w0 e w0',
        db w0 = None ->
        getDatabase w0 = (Throw e, w0') ->
        e = both_failed
        /\ exists w1 w2,
             recoverDatabase w1 = (Ok None, w2) /\ w0' = set_db None w2).
Proof.
  intros Hdb Hfl Hdir Hfile Hfail Hck. split; [|split].
  - destruct w as [[dd dbf bk] ck fl d sn lg]. cbn in *. subst.
    eexists. split; [apply (recovery_run f bk ts later sn lg Hfail)|].
    cbv [log files db lookup_file backups db_file].
    repeat split; [apply lookup_insert_eq|].
    by rewrite rev_app_distr, rev_involutive.
  - intros w0 e w1 Hdb0 Hi Hdb1.
    unfold getDatabase, bind, read, try_catch. rewrite Hdb0, Hi.
    unfold final_fallback, bind, read, write, ret, throw. rewrite Hdb1.
    destruct (recover_total w1) as (r & w2 & -> & _ & [-> | ->]); reflexivity.
  - intros w0 e w0'. apply getDatabase_throws.
Qed.

(** C3 on a file that is no database. *)
Lemma C3_corrupt_file_is_backed_up_witness :
  exists w',
    getDatabase (mkWorld (mkFs true (Some (NotADatabase [Byte.x00])) ∅)
                   [1000] [] None None [])
    = (Ok DbPath, w')
    /\ lookup_file (files w') (BackupPath 1000) = Some (NotADatabase [Byte.x00])
    /\ lookup_file (files w') DbPath = Some (DatabaseFile schema_image).
Proof.
  destruct (C3_corrupt_file_is_backed_up
              (mkWorld (mkFs true (Some (NotADatabase [Byte.x00])) ∅)
                 [1000] [] None None [])
              (NotADatabase [Byte.x00]) 1000 [])
    as ((w' & Hrun & _ & Hbackup & Hnew & _) & _);
    [reflexivity | reflexivity | reflexivity | reflexivity | exact I
    | reflexivity |].
  exists w'. by repeat split.
Defined.

End StartupProps.

(* ===================================================================== *)
(** * Properties of [insertTrip] and of the import                         *)
(* ===================================================================== *)

Module InsertProps.
Import StoreNotions.
Import JS Store Sqlite Database.
Import StartupProps.





(** A transaction that fails has made one, two or three of its calls. *)
Lemma insert_transaction_throw h t w0 e w1 :
  insert_transaction h t w0 = (Throw e, w1) ->
  log w1 = rev [Sql BEGIN_TRANSACTION] ++ log w0
  \/ log w1 = rev [Sql BEGIN_TRANSACTION; Sql (INSERT_INTO_trips t)] ++ log w0
  \/ log w1 = rev [Sql BEGIN_TRANSACTION; Sql (INSERT_INTO_trips t); Sql COMMIT]
              ++ log w0.
Proof.
  destruct w0 as [fs ck fl d sn lg].
  unfold insert_transaction, exec_begin, run_insert_trip, exec_commit,
    fallible, on_image, put_image, bind, ret, write, throw.
  cbn.
  destruct (lookup_file fs h) as [[bytes|img]|] eqn:Hf;
    [| destruct (trips_table img) as [rows|] eqn:Ht;
       [destruct (existsb (same_key t) rows) eqn:Hk|] |];
    destruct sn as [s|];
    repeat first
      [ progress cbn
      | rewrite Hf | rewrite Ht | rewrite Hk
      | split_faults
      | match goal with
        | |- context [if ?b then _ else _] => destruct b eqn:?
        end ];
    try discriminate;
    intros [= <- <-];
    first [ left; reflexivity | right; left; reflexivity
          | right; right; reflexivity ].
Qed.





(** ** The store in order *)

Lemma ready_intro dd check rows seq settings bk ck lg :
  ready (ready_world dd check rows seq settings bk ck lg) rows.
Proof. by exists dd, check, seq, settings, bk, ck, lg. Qed.

Ltac run_insert :=
  unfold insertTrip, getDatabase, insert_transaction, exec_begin,
    run_insert_trip, exec_commit, exec_rollback, insert_failed, fallible,
    on_image, put_image, bind, try_catch, ret, write, read, throw;
  cbn.

Lemma insert_absorbed t dd check rows seq settings bk ck lg :
  absorbed rows t = true ->
  insertTrip t (ready_world dd check rows seq settings bk ck lg)
  = (Ok JsFalse,
     ready_world dd check rows seq settings bk ck
       (Sql ROLLBACK :: Sql (INSERT_INTO_trips t) :: Sql BEGIN_TRANSACTION :: lg)).
Proof.
  unfold absorbed. intros H. run_insert.
  destruct (is_null (odometerStart t)), (is_null (odometerEnd t)),
    (is_null (distance t)), (existsb (same_key t) rows);
    try discriminate; reflexivity.
Qed.

Lemma insert_new t dd check rows seq settings bk ck lg :
  absorbed rows t = false ->
  insertTrip t (ready_world dd check rows seq settings bk ck lg)
  = (Ok (LastID (seq + 1)),
     ready_world dd check (rows ++ [mkStored (seq + 1) t]) (seq + 1) settings
       bk ck
       (Sql COMMIT :: Sql (INSERT_INTO_trips t) :: Sql BEGIN_TRANSACTION :: lg)).
Proof.
  unfold absorbed. intros H. run_insert.
  destruct (is_null (odometerStart t)), (is_null (odometerEnd t)),
    (is_null (distance t)), (existsb (same_key t) rows);
    try discriminate; reflexivity.
Qed.

Lemma strict_eq_refl n : is_null n = false -> strict_eq n n = true.
Proof.
  destruct n as [| | |q]; try done. intros _. cbn.
  apply Qeq_bool_iff. reflexivity.
Qed.

(** Once stored, a trip is absorbed, and stays so as rows are added. *)
Lemma absorbed_after_insert rows seq t :
  absorbed rows t = false -> absorbed (rows ++ [mkStored seq t]) t = true.
Proof.
  unfold absorbed. intros H.
  destruct (is_null (odometerStart t)) eqn:E1; [done|].
  destruct (is_null (odometerEnd t)) eqn:E2; [done|].
  destruct (is_null (distance t)); [done|]. cbn.
  rewrite existsb_app. cbn. unfold same_key. cbn.
  rewrite !strict_eq_refl by done. unfold text_eqb.
  rewrite bool_decide_eq_true_2 by done. cbn. by rewrite !orb_true_r.
Qed.

Lemma absorbed_mono rows more t :
  absorbed rows t = true -> absorbed (rows ++ more) t = true.
Proof.
  unfold absorbed. rewrite existsb_app.
  destruct (is_null (odometerStart t)), (is_null (odometerEnd t)),
    (is_null (distance t)), (existsb (same_key t) rows); cbn; done.
Qed.



End InsertProps.

Module ImportProps.
Import StoreNotions.
Import JS Store Sqlite Database ImportRoute.
Import InsertProps.

Ltac run_import_one :=
  unfold import_one, bind, try_catch, ret.

(** A first pass over a store in order: every trip ends up absorbed,
    and the rows added are the trips counted as imported. *)
Lemma import_loop_ready trips : forall c w rows,
  ready w rows ->
  exists c' w' more,
    import_loop trips c w = (Ok c', w')
    /\ ready w' (rows ++ more)
    /\ imported c' = (imported c + length more)%nat
    /\ forall t, t ∈ trips -> absorbed (rows ++ more) t = true.
Proof.
  induction trips as [|t trips IH]; intros c w rows Hready.
  - exists c, w, []. rewrite app_nil_r. cbn. rewrite Nat.add_0_r.
    repeat split; try done. intros t Ht. by apply elem_of_nil in Ht.
  - destruct Hready as (dd & check & seq & settings & bk & ck & lg & ->).
    cbn [import_loop]. unfold bind at 1. run_import_one.
    destruct (absorbed rows t) eqn:Habs.
    + rewrite (insert_absorbed t) by done.
      destruct (IH (mkTally (imported c) (S (duplicates c)) (errors c)) _ rows
                  (ready_intro dd check rows seq settings bk ck
                     (Sql ROLLBACK :: Sql (INSERT_INTO_trips t)
                      :: Sql BEGIN_TRANSACTION :: lg)))
        as (c' & w' & more & Hrun & Hready' & Hcount & Hall).
      exists c', w', more. split; [exact Hrun|]. split; [exact Hready'|].
      split; [exact Hcount|].
      intros t' [-> | Ht']%elem_of_cons; [by apply absorbed_mono | by apply Hall].
    + rewrite (insert_new t) by done.
      destruct (IH (mkTally (S (imported c)) (duplicates c) (errors c)) _ _
                  (ready_intro dd check (rows ++ [mkStored (seq + 1) t])
                     (seq + 1) settings bk ck
                     (Sql COMMIT :: Sql (INSERT_INTO_trips t)
                      :: Sql BEGIN_TRANSACTION :: lg)))
        as (c' & w' & more & Hrun & Hready' & Hcount & Hall).
      exists c', w', (mkStored (seq + 1) t :: more).
      replace (rows ++ mkStored (seq + 1) t :: more)
        with ((rows ++ [mkStored (seq + 1) t]) ++ more)
        by (by rewrite <- app_assoc).
      split; [exact Hrun|]. split; [exact Hready'|].
      split; [cbn in *; lia|].
      intros t' [-> | Ht']%elem_of_cons; [|by apply Hall].
      apply absorbed_mono. by apply absorbed_after_insert.
Qed.

(** A pass in which every trip is absorbed: each one counts as a
    duplicate, and the files stay as they are. *)
Lemma import_loop_absorbed trips : forall c w rows,
  ready w rows ->
  (forall t, t ∈ trips -> absorbed rows t = true) ->
  exists w',
    import_loop trips c w
    = (Ok (mkTally (imported c) (duplicates c + length trips) (errors c)), w')
    /\ files w' = files w
    /\ ready w' rows.
Proof.
  induction trips as [|t trips IH]; intros c w rows Hready Hall.
  - exists w. cbn. rewrite Nat.add_0_r. by destruct c.
  - destruct Hready as (dd & check & seq & settings & bk & ck & lg & ->).
    cbn [import_loop]. unfold bind at 1. run_import_one.
    rewrite (insert_absorbed t) by (apply Hall; by left).
    destruct (IH (mkTally (imported c) (S (duplicates c)) (errors c)) _ rows
                (ready_intro dd check rows seq settings bk ck
                   (Sql ROLLBACK :: Sql (INSERT_INTO_trips t)
                    :: Sql BEGIN_TRANSACTION :: lg)))
      as (w' & Hrun & Hfiles & Hready'); [intros t' Ht'; apply Hall; by right|].
    exists w'. rewrite Hrun. cbn [imported duplicates errors length].
    split; [by rewrite Nat.add_succ_r|]. by split.
Qed.

(** C2. Importing the same trips a second time into a store in order
    is absorbed entirely: at most one row exists per (startDate,
    odometerStart, odometerEnd), so every [insertTrip] of the second
    import returns [false], the second import counts no imported trip,
    and the stored trips are after it what they were before it. *)
Theorem C2_second_import_is_absorbed (trips : list Trip) (w : world)
    (rows : list StoredTrip) :
  ready w rows ->
  exists c1 w1 w2,
    import_trips trips w = (Ok c1, w1)
    /\ import_trips trips w1
       = (Ok (mkTally 0 (length trips) 0), w2)
    /\ files w2 = files w1
    /\ stored_trips w2 = stored_trips w1
    /\ length (stored_trips w1) = (length rows + imported c1)%nat
    /\ (forall t wa,
          t ∈ trips -> ready wa (stored_trips w1) ->
          (insertTrip t wa).1 = Ok JsFalse).
Proof.
  intros Hready. unfold import_trips.
  destruct (import_loop_ready trips (mkTally 0 0 0) w rows Hready)
    as (c1 & w1 & more & Hrun1 & Hready1 & Hcount & Hall).
  destruct (import_loop_absorbed trips (mkTally 0 0 0) w1 (rows ++ more)
              Hready1 Hall) as (w2 & Hrun2 & Hfiles & Hready2).
  exists c1, w1, w2. split; [exact Hrun1|]. split; [exact Hrun2|].
  split; [exact Hfiles|]. split; [unfold stored_trips; by rewrite Hfiles|].
  assert (Hstored : stored_trips w1 = rows ++ more).
  { destruct Hready1 as (dd & check & seq & settings & bk & ck & lg & ->).
    reflexivity. }
  split.
  - rewrite Hstored, length_app. cbn in Hcount. lia.
  - intros t wa Ht Hwa. rewrite Hstored in Hwa.
    destruct Hwa as (dd & check & seq & settings & bk & ck & lg & ->).
    rewrite (insert_absorbed t) by (by apply Hall). reflexivity.
Qed.

(** C2 on a new store and a file of two rows with one key: the first
    import stores one trip and absorbs the other, the second import
    absorbs both. *)
Lemma C2_second_import_is_absorbed_witness :
  let t := mkTrip (str "Privat") (str "2024-01-01") (Fin 100) [] []
             (Fin 150) [] [] (Fin 50) [] [] [] [] [] in
  let w := ready_world true "ok" [] 0 [] ∅ [] [] in
  exists c1 w1 w2,
    import_trips [t; t] w = (Ok c1, w1)
    /\ c1 = mkTally 1 1 0
    /\ import_trips [t; t] w1 = (Ok (mkTally 0 2 0), w2)
    /\ stored_trips w2 = stored_trips w1.
Proof.
  intros t w.
  destruct (C2_second_import_is_absorbed [t; t] w []
              (ready_intro true "ok"%string [] 0 [] ∅ [] []))
    as (c1 & w1 & w2 & Hrun1 & Hrun2 & _ & Hstored & _).
  exists c1, w1, w2. split; [exact Hrun1|]. split; [|by split].
  assert (Hc : import_trips [t; t] w
               = (Ok (mkTally 1 1 0), (import_trips [t; t] w).2))
    by reflexivity.
  rewrite Hrun1 in Hc. apply (f_equal fst) in Hc. cbn [fst] in Hc.
  by injection Hc.
Defined.

End ImportProps.

(* ===================================================================== *)
(** * Properties of [getTrips]                                            *)
(* ===================================================================== *)

Module QueryProps.
Import StoreNotions.
Import JS Store Sqlite Database.
Import InsertProps.

(** ** The order of texts *)

Lemma text_leb_total a : forall b, text_leb a b = true \/ text_leb b a = true.
Proof.
  induction a as [|x a IH]; intros [|y b]; cbn; auto.
  destruct (N.compare_spec x y) as [-> | Hlt | Hgt].
  - rewrite N.ltb_irrefl, N.eqb_refl. cbn. apply IH.
  - left. apply N.ltb_lt in Hlt. by rewrite Hlt.
  - right. apply N.ltb_lt in Hgt. by rewrite Hgt.
Qed.

Lemma text_leb_trans a : forall b c,
  text_leb a b = true -> text_leb b c = true -> text_leb a c = true.
Proof.
  induction a as [|x a IH]; intros [|y b] [|z c]; cbn; try done.
  intros [Hxy | [Hxy Hab]%andb_prop]%orb_prop
         [Hyz | [Hyz Hbc]%andb_prop]%orb_prop.
  - apply N.ltb_lt in Hxy, Hyz.
    assert ((x <? z)%N = true) as -> by (apply N.ltb_lt; lia). done.
  - apply N.eqb_eq in Hyz. subst z. by rewrite Hxy.
  - apply N.eqb_eq in Hxy. subst y. by rewrite Hyz.
  - apply N.eqb_eq in Hxy, Hyz. subst y z.
    rewrite N.eqb_refl, (IH b c) by done. cbn. by rewrite orb_true_r.
Qed.

#[local] Instance start_le_total : Total start_le.
Proof. intros r1 r2. apply text_leb_total. Qed.

#[local] Instance start_le_trans : Transitive start_le.
Proof. intros r1 r2 r3. apply text_leb_trans. Qed.

#[local] Instance start_ge_total : Total (flip start_le).
Proof. intros r1 r2. unfold flip. apply text_leb_total. Qed.

#[local] Instance start_ge_trans : Transitive (flip start_le).
Proof. intros r1 r2 r3 H1 H2. unfold flip in *. by apply (text_leb_trans _ _ _ H2). Qed.





Lemma order_by_elem dir l r : r ∈ order_by dir l <-> r ∈ l.
Proof. destruct dir; cbn; by rewrite merge_sort_Permutation. Qed.

Lemma order_by_length dir l : length (order_by dir l) = length l.
Proof. destruct dir; cbn; by rewrite merge_sort_Permutation. Qed.

(** ** The filter *)

Lemma build_conditions_Some category0 dateFrom dateTo :
  dateTo = [] \/ is_Some (JSDate.parse dateTo) ->
  exists conditions,
    build_conditions category0 dateFrom dateTo = Some conditions
    /\ forall r, where_all conditions r = in_filter category0 dateFrom dateTo r.
Proof.
  intros Hto. unfold build_conditions, in_filter, end_bound, JSDate.next_day.
  destruct dateTo as [|c dateTo]; cbn [is_empty].
  - eexists. split; [reflexivity|]. intros r. unfold where_all.
    destruct category0, dateFrom;
      cbn [is_empty app forallb holds orb andb]; rewrite ?andb_true_r;
      reflexivity.
  - destruct Hto as [|[t ->]]; [done|]. cbn [fmap option_fmap option_map].
    eexists. split; [reflexivity|]. intros r. unfold where_all.
    destruct category0, dateFrom;
      cbn [is_empty app forallb holds orb andb];
      rewrite ?andb_true_r, ?andb_assoc; reflexivity.
Qed.

(** [getTrips] on a store in order. *)
Lemma getTrips_ready page limit category0 dateFrom dateTo sortOrder
    conditions dd check rows seq settings bk ck lg :
  build_conditions category0 dateFrom dateTo = Some conditions ->
  getTrips page limit category0 dateFrom dateTo sortOrder
    (ready_world dd check rows seq settings bk ck lg)
  = (Ok (mkPage
           (limit_offset limit ((page - 1) * limit)
              (order_by (orderDirection sortOrder)
                 (filter (λ r, where_all conditions r = true) rows)))
           (Z.of_nat (length (filter (λ r, where_all conditions r = true) rows)))),
     ready_world dd check rows seq settings bk ck
       (Sql (SELECT_COUNT_trips conditions)
        :: Sql (SELECT_trips conditions (orderDirection sortOrder) limit
                  ((page - 1) * limit))
        :: lg)).
Proof.
  intros Hc. unfold getTrips, getDatabase, bind, read, ret. cbn.
  rewrite Hc. reflexivity.
Qed.



(** ** The sort order *)

Lemma orderDirection_not_asc s : s <> str "asc" -> orderDirection s = DESC.
Proof.
  intros Hs. unfold orderDirection, text_eqb.
  by rewrite bool_decide_eq_false_2.
Qed.

Lemma getTrips_direction page limit category0 dateFrom dateTo s1 s2 :
  orderDirection s1 = orderDirection s2 ->
  getTrips page limit category0 dateFrom dateTo s1
  = getTrips page limit category0 dateFrom dateTo s2.
Proof. intros H. unfold getTrips. by rewrite H. Qed.

Lemma getTrips_same_selection page limit category0 dateFrom dateTo s1 s2 w :
  same_selection (getTrips page limit category0 dateFrom dateTo s1 w)
                 (getTrips page limit category0 dateFrom dateTo s2 w).
Proof.
  unfold getTrips, bind. destruct (getDatabase w) as [[h|e] w0]; [|done].
  destruct (build_conditions category0 dateFrom dateTo) as [conditions|];
    [|done].
  generalize (orderDirection s1) (orderDirection s2). intros d1 d2.
  destruct w0 as [fs ck fl d sn lg].
  unfold all_trips, get_count_trips, fallible, on_image, ret, throw. cbn.
  destruct (lookup_file fs h) as [[bytes|img]|] eqn:Hf;
    [| destruct (trips_table img) as [rows|] eqn:Ht |];
    destruct fl as [|[e1|] [|[e2|] fl]]; cbn; rewrite ?Hf; cbn; rewrite ?Ht;
    cbn; rewrite ?Hf; cbn; rewrite ?Ht; done.
Qed.

(** C10. [getTrips] orders ascending for the sort order [asc] and
    descending for every other string, the default [desc] and any
    unknown one alike: with such a string it does exactly what it does
    with [desc].  Whatever two sort orders are given, the two runs end
    alike, with one total, and their statements carry the same
    conditions. *)
Theorem C10_sort_order_default_desc (page limit : Z)
    (category0 dateFrom dateTo : text) (s1 s2 : text) (w : world) :
  orderDirection (str "asc") = ASC
  /\ orderDirection (str "desc") = DESC
  /\ (s1 <> str "asc" ->
      orderDirection s1 = DESC
      /\ getTrips page limit category0 dateFrom dateTo s1
         = getTrips page limit category0 dateFrom dateTo (str "desc"))
  /\ same_selection (getTrips page limit category0 dateFrom dateTo s1 w)
                    (getTrips page limit category0 dateFrom dateTo s2 w).
Proof.
  split; [reflexivity|]. split; [reflexivity|]. split.
  - intros Hs. pose proof (orderDirection_not_asc s1 Hs) as Hd.
    split; [exact Hd|]. by apply getTrips_direction.
  - apply getTrips_same_selection.
Qed.

(** C10 with an unknown sort order on a store with two trips: the
    later trip comes first, as with [desc]. *)
Lemma C10_sort_order_default_desc_witness :
  let r1 := mkStored 1 (mkTrip (str "Privat") (str "2024-01-31") (Fin 100) []
                          [] (Fin 150) [] [] (Fin 50) [] [] [] [] []) in
  let r2 := mkStored 2 (mkTrip (str "Arbete") (str "2024-02-01") (Fin 150) []
                          [] (Fin 170) [] [] (Fin 20) [] [] [] [] []) in
  let w := ready_world true "ok" [r1; r2] 2 [] ∅ [] [] in
  (getTrips 1 20 [] [] [] (str "newest") w).1
  = Ok (mkPage [r2; r1] 2)
  /\ (getTrips 1 20 [] [] [] (str "asc") w).1 = Ok (mkPage [r1; r2] 2).
Proof.
  intros r1 r2 w.
  destruct (C10_sort_order_default_desc 1 20 [] [] [] (str "newest")
              (str "asc") w) as (_ & _ & Hdesc & _).
  destruct Hdesc as [_ ->]; [discriminate|]. split; reflexivity.
Defined.

End QueryProps.

(* ===================================================================== *)
(** * More on the startup sequence                                        *)
(* ===================================================================== *)

Module OpenProps.
Import StoreNotions KeptNotions.
Import JS Store Sqlite Database.
Import StartupProps.

(** Once [db] is set, [getDatabase] returns it and does nothing else. *)
Lemma getDatabase_opened h w : db w = Some h -> getDatabase w = (Ok h, w).
Proof. intros H. unfold getDatabase, bind, read. by rewrite H. Qed.

Lemma healthy_run dd check rows seq settings bk ck sn lg :
  check = "ok"%string ->
  getDatabase
    (mkWorld (mkFs dd (Some (DatabaseFile
                               (mkImage check (Some rows) seq (Some settings))))
                bk) ck [] None sn lg)
  = (Ok DbPath,
     mkWorld (mkFs true (Some (DatabaseFile
                                 (mkImage check (Some rows) seq (Some settings))))
                bk) ck [] (Some DbPath) sn
       (rev (startup_calls dd
               [Open DbPath; Sql SELECT_1; Sql PRAGMA_integrity_check;
                Sql SELECT_required_tables; Sql CREATE_TABLE_trips;
                Sql CREATE_TABLE_settings]) ++ lg)).
Proof. intros ->. by destruct dd. Qed.

(** The recovery, whether or not the directory and a clock reading are
    there. *)
Lemma recovery_run_any dd f bk ck sn lg :
  integrity_check_fails f ->
  getDatabase (mkWorld (mkFs dd (Some f) bk) ck [] None sn lg)
  = (Ok DbPath,
     mkWorld (mkFs true (Some (DatabaseFile schema_image))
                (<[hd 0 ck := f]> bk))
       (tl ck) [] (Some DbPath) sn
       (rev (startup_calls dd
               (recovery_calls [Sql SELECT_1; Sql PRAGMA_integrity_check]
                  (hd 0 ck))) ++ lg)).
Proof.
  destruct f as [bytes|img]; [by destruct dd, ck|]. intros Hfail. cbn in Hfail.
  unfold getDatabase, initialize, validateDatabase, bind, try_catch, read.
  destruct dd, ck; cbn;
    (destruct (String.eqb_spec (integrity_check img) "ok"); [done|]);
    reflexivity.
Qed.

Lemma missing_tables_run_any dd img bk ck sn lg :
  integrity_check img = "ok"%string ->
  trips_table img = None \/ settings_table img = None ->
  getDatabase (mkWorld (mkFs dd (Some (DatabaseFile img)) bk) ck [] None sn lg)
  = (Ok DbPath,
     mkWorld (mkFs true (Some (DatabaseFile schema_image))
                (<[hd 0 ck := DatabaseFile img]> bk))
       (tl ck) [] (Some DbPath) sn
       (rev (startup_calls dd
               (recovery_calls [Sql SELECT_1; Sql PRAGMA_integrity_check;
                                Sql SELECT_required_tables] (hd 0 ck)))
        ++ lg)).
Proof.
  destruct img as [s tt sq st]. cbn. intros -> Hmiss.
  destruct tt, st; destruct Hmiss; try discriminate; by destruct dd, ck.
Qed.

(** X1. A database file that passes the integrity check and has both
    tables is opened as it is: with no call failing, [getDatabase] runs
    the health check and the two [CREATE TABLE IF NOT EXISTS], closes
    and renames nothing, and leaves the file, the backups and the clock
    as they were. *)
Theorem X1_healthy_database_is_kept (w : world) (img : image) :
  db w = None ->
  faults w = [] ->
  db_file (files w) = Some (DatabaseFile img) ->
  integrity_check img = "ok"%string ->
  is_Some (trips_table img) ->
  is_Some (settings_table img) ->
  exists w',
    getDatabase w = (Ok DbPath, w')
    /\ db w' = Some DbPath
    /\ db_file (files w') = Some (DatabaseFile img)
    /\ backups (files w') = backups (files w)
    /\ clock w' = clock w
    /\ rev (log w')
       = rev (log w)
         ++ startup_calls (data_dir (files w))
              [Open DbPath; Sql SELECT_1; Sql PRAGMA_integrity_check;
               Sql SELECT_required_tables; Sql CREATE_TABLE_trips;
               Sql CREATE_TABLE_settings].
Proof.
  destruct w as [[dd f bk] ck fl d sn lg]. cbn.
  intros -> -> -> Hok [rows Hrows] [sets Hsets].
  destruct img as [chk tt sq st]. cbn in Hok, Hrows, Hsets. subst tt st.
  eexists. split; [by apply healthy_run|].
  cbv [log files db clock backups db_file].
  repeat split. by rewrite rev_app_distr, rev_involutive.
Qed.

(** X1 on a database file with a setting and no trip. *)
Lemma X1_healthy_database_is_kept_witness :
  let img := mkImage "ok" (Some []) 7 (Some [(str "k", str "v")]) in
  exists w',
    getDatabase (mkWorld (mkFs true (Some (DatabaseFile img)) ∅) [] [] None
                   None [])
    = (Ok DbPath, w')
    /\ db_file (files w') = Some (DatabaseFile img).
Proof.
  intros img.
  destruct (X1_healthy_database_is_kept
              (mkWorld (mkFs true (Some (DatabaseFile img)) ∅) [] [] None
                 None []) img)
    as (w' & Hrun & _ & Hfile & _);
    [reflexivity | reflexivity | reflexivity | reflexivity
    | by eexists | by eexists |].
  by exists w'.
Defined.

(** X2. With no call failing, a startup always ends with a store that
    can be used, whatever was at [data/trips.db]: [getDatabase] returns
    the handle, the file is then a database that passes the integrity
    check and has both tables, and a further [getDatabase] returns the
    same handle without doing anything. *)
Theorem X2_startup_ends_with_usable_store (w : world) :
  db w = None ->
  faults w = [] ->
  exists w' img,
    getDatabase w = (Ok DbPath, w')
    /\ db w' = Some DbPath
    /\ faults w' = []
    /\ data_dir (files w') = true
    /\ db_file (files w') = Some (DatabaseFile img)
    /\ integrity_check img = "ok"%string
    /\ is_Some (trips_table img)
    /\ is_Some (settings_table img)
    /\ getDatabase w' = (Ok DbPath, w').
Proof.
  destruct w as [[dd f bk] ck fl d sn lg]. cbn. intros -> ->.
  assert (Hdone : forall (w' : world) (img : image),
            db w' = Some DbPath -> faults w' = [] ->
            data_dir (files w') = true ->
            db_file (files w') = Some (DatabaseFile img) ->
            integrity_check img = "ok"%string ->
            is_Some (trips_table img) -> is_Some (settings_table img) ->
            db w' = Some DbPath /\ faults w' = [] /\ data_dir (files w') = true
            /\ db_file (files w') = Some (DatabaseFile img)
            /\ integrity_check img = "ok"%string
            /\ is_Some (trips_table img) /\ is_Some (settings_table img)
            /\ getDatabase w' = (Ok DbPath, w')).
  { intros w' img H1 H2 H3 H4 H5 H6 H7. repeat split; try done.
    by apply getDatabase_opened. }
  destruct f as [[bytes|[chk tt sq st]]|].
  - eexists _, schema_image. split; [by apply recovery_run_any|].
    apply Hdone; try reflexivity; by eexists.
  - destruct (decide (chk = "ok"%string)) as [->|Hne].
    + destruct tt as [rows|]; [destruct st as [sets|]|].
      * eexists _, _. split; [by apply healthy_run|].
        apply Hdone; try reflexivity; by eexists.
      * eexists _, schema_image.
        split; [apply missing_tables_run_any; [done | by right]|].
        apply Hdone; try reflexivity; by eexists.
      * eexists _, schema_image.
        split; [apply missing_tables_run_any; [done | by left]|].
        apply Hdone; try reflexivity; by eexists.
    + eexists _, schema_image. split; [by apply recovery_run_any|].
      apply Hdone; try reflexivity; by eexists.
  - eexists _, schema_image. split; [apply fresh_install|].
    apply Hdone; try reflexivity; by eexists.
Qed.

(** X2 on a file that is no database, in a directory still to be made. *)
Lemma X2_startup_ends_with_usable_store_witness :
  exists w',
    getDatabase (mkWorld (mkFs false (Some (NotADatabase [Byte.x00])) ∅) [5]
                   [] None None [])
    = (Ok DbPath, w')
    /\ db_file (files w') = Some (DatabaseFile schema_image).
Proof.
  destruct (X2_startup_ends_with_usable_store
              (mkWorld (mkFs false (Some (NotADatabase [Byte.x00])) ∅) [5]
                 [] None None []))
    as (w' & img & Hrun & _); [reflexivity | reflexivity |].
  exists w'. split; [exact Hrun|].
  apply (f_equal snd) in Hrun. cbn [snd] in Hrun. rewrite <- Hrun.
  by vm_compute.
Defined.

End OpenProps.

(* ===================================================================== *)
(** * More on [insertTrip] and on the import loop                         *)
(* ===================================================================== *)

Module KeptProps.
Import StoreNotions KeptNotions ParserNotions.
Import JS Store Sqlite Database ImportRoute.
Import InsertProps.

Lemma strict_eq_sym a b : strict_eq a b = strict_eq b a.
Proof.
  destruct a as [| | |x], b as [| | |y]; try reflexivity. cbn.
  destruct (Qeq_bool x y) eqn:E1, (Qeq_bool y x) eqn:E2; try reflexivity.
  - apply Qeq_bool_iff in E1. symmetry in E1. apply Qeq_bool_iff in E1.
    congruence.
  - apply Qeq_bool_iff in E2. symmetry in E2. apply Qeq_bool_iff in E2.
    congruence.
Qed.

Lemma text_eqb_sym a b : text_eqb a b = text_eqb b a.
Proof.
  unfold text_eqb. destruct (decide (a = b)) as [->|Hne]; [done|].
  rewrite !bool_decide_eq_false_2; [done | congruence | done].
Qed.

Lemma same_key_sym t1 n1 t2 n2 :
  same_key t1 (mkStored n2 t2) = same_key t2 (mkStored n1 t1).
Proof.
  unfold same_key. cbn.
  by rewrite (text_eqb_sym (startDate t1)),
    (strict_eq_sym (odometerStart t1)), (strict_eq_sym (odometerEnd t1)).
Qed.

Lemma existsb_false {A} (f : A -> bool) l x :
  existsb f l = false -> x ∈ l -> f x = false.
Proof.
  induction l as [|y l IH]; cbn; [by intros _ ?%elem_of_nil|].
  intros [Hy Hl]%orb_false_elim [->|Hx]%elem_of_cons; [done | by apply IH].
Qed.

(** One more row keeps the table in order when its key and its [id] are
    new. *)
Lemma well_kept_snoc rows seq t :
  well_kept rows seq ->
  absorbed rows t = false ->
  well_kept (rows ++ [mkStored (seq + 1) t]) (seq + 1).
Proof.
  intros (Hkeys & Hids & Hseq & Hnull) Habs. unfold absorbed in Habs.
  apply orb_false_elim in Habs as [Habs Hnew].
  apply orb_false_elim in Habs as [Habs H3].
  apply orb_false_elim in Habs as [H1 H2].
  assert (Hself : same_key t (mkStored (seq + 1) t) = true).
  { unfold same_key. cbn. rewrite !strict_eq_refl by done.
    unfold text_eqb. by rewrite bool_decide_eq_true_2. }
  repeat split.
  - intros i j r1 r2 Hi Hj Hsame.
    destruct (decide (i < length rows)%nat) as [Hil|Hil];
      destruct (decide (j < length rows)%nat) as [Hjl|Hjl].
    + rewrite lookup_app_l in Hi, Hj by done. by apply (Hkeys i j r1 r2).
    + rewrite lookup_app_l in Hi by done.
      rewrite lookup_app_r in Hj by lia.
      destruct (j - length rows)%nat; [|by destruct n].
      injection Hj as <-. destruct r1 as [n1 t1]. cbn in Hsame.
      rewrite (same_key_sym t1 n1 t (seq + 1)) in Hsame.
      apply list_elem_of_lookup_2 in Hi.
      by rewrite (existsb_false _ _ _ Hnew Hi) in Hsame.
    + rewrite lookup_app_r in Hi by lia.
      rewrite lookup_app_l in Hj by done.
      destruct (i - length rows)%nat; [|by destruct n].
      injection Hi as <-. cbn in Hsame.
      apply list_elem_of_lookup_2 in Hj.
      by rewrite (existsb_false _ _ _ Hnew Hj) in Hsame.
    + apply lookup_lt_Some in Hi, Hj. rewrite length_app in Hi, Hj.
      cbn in Hi, Hj. lia.
  - rewrite map_app. cbn. apply NoDup_app. split; [done|]. split.
    + intros n Hn [->|[]%elem_of_nil]%elem_of_cons.
      apply list_elem_of_fmap in Hn as (r & Hr & Hin).
      rewrite Forall_forall in Hseq. specialize (Hseq r Hin). lia.
    + apply NoDup_singleton.
  - apply Forall_app. split.
    + eapply Forall_impl; [exact Hseq|]. cbn. intros r Hr. lia.
    + apply Forall_singleton. cbn. lia.
  - apply Forall_app. split; [done|]. by apply Forall_singleton.
Qed.

(** X3. [insertTrip] keeps the table [trips] in order.  On a store in
    order whose table has one row per key and per [id], no [id] above
    the sequence and no [NULL] in a numeric column, it ends in one of
    two ways: the trip is absorbed, [false] is returned and the table is
    as before; or the trip is added as the last row under a new [id],
    the rows before it as they were, and that [id] is returned.  Either
    way the table has these properties again, and the settings are as
    before. *)
Theorem X3_insertTrip_keeps_the_table_in_order (t : Trip) (dd : bool)
    (check : string) (rows : list StoredTrip) (seq : Z)
    (settings : list (text * text)) (bk : gmap Z file) (ck : list Z)
    (lg : list event) :
  well_kept rows seq ->
  exists r rows' seq' lg',
    insertTrip t (ready_world dd check rows seq settings bk ck lg)
    = (Ok r, ready_world dd check rows' seq' settings bk ck lg')
    /\ well_kept rows' seq'
    /\ (absorbed rows t = true /\ r = JsFalse /\ rows' = rows /\ seq' = seq
        \/ absorbed rows t = false /\ r = LastID (seq + 1)
           /\ rows' = rows ++ [mkStored (seq + 1) t] /\ seq' = seq + 1).
Proof.
  intros Hkept. destruct (absorbed rows t) eqn:Habs.
  - eexists _, rows, seq, _. split; [by apply insert_absorbed|].
    split; [done|]. by left.
  - eexists _, _, _, _. split; [by apply insert_new|].
    split; [by apply well_kept_snoc|]. by right.
Qed.

(** X3 on an empty table. *)
Lemma X3_insertTrip_keeps_the_table_in_order_witness :
  let t := mkTrip (str "Privat") (str "2024-01-01") (Fin 100) [] []
             (Fin 150) [] [] (Fin 50) [] [] [] [] [] in
  exists r rows' seq' lg',
    insertTrip t (ready_world true "ok" [] 0 [] ∅ [] [])
    = (Ok r, ready_world true "ok" rows' seq' [] ∅ [] lg')
    /\ well_kept rows' seq'.
Proof.
  intros t.
  assert (Hempty : well_kept [] 0).
  { repeat split; try constructor. intros i j r1 r2 Hi. by destruct i. }
  destruct (X3_insertTrip_keeps_the_table_in_order t true "ok" [] 0 [] ∅ [] []
              Hempty) as (r & rows' & seq' & lg' & Hrun & Hkept & _).
  by exists r, rows', seq', lg'.
Defined.

(** X4. A trip with [NaN] in a numeric column is never stored and is
    counted as a duplicate: on a store in order, whatever the table
    holds, [insertTrip] returns [false] for it and leaves the files as
    they were (the value is bound as [NULL], the insert fails on [NOT
    NULL] with the code of a constraint), and an import of it alone
    reports one duplicate and no error. *)
Theorem X4_not_a_number_counts_as_duplicate (t : Trip) (w : world)
    (rows : list StoredTrip) :
  ready w rows ->
  odometerStart t = NaN \/ odometerEnd t = NaN \/ distance t = NaN ->
  exists w',
    insertTrip t w = (Ok JsFalse, w')
    /\ files w' = files w
    /\ ready w' rows
    /\ (import_trips [t] w).1 = Ok (mkTally 0 1 0).
Proof.
  intros (dd & check & seq & settings & bk & ck & lg & ->) Hnan.
  assert (Habs : absorbed rows t = true).
  { unfold absorbed. destruct Hnan as [-> | [-> | ->]]; cbn;
      by rewrite ?orb_true_r. }
  eexists. split; [by apply insert_absorbed|].
  split; [reflexivity|]. split; [by repeat eexists|].
  unfold import_trips. cbn [import_loop]. unfold import_one, try_catch, bind.
  by rewrite (insert_absorbed t).
Qed.

(** X4 on the record the parser returns for a row whose first odometer
    reading is no number. *)
Lemma X4_not_a_number_counts_as_duplicate_witness :
  let csv := str "Category;StartDate" ++ [10%N]
             ++ str "Privat;2024-01-01;n/a;A;2024-01-01;150;B;1h 0m;50;5 l;Trip;0 kWh;0 kWh;"
             ++ [10%N] in
  exists t,
    CsvParser.parseCSVData csv false = [t]
    /\ odometerStart t = NaN
    /\ (import_trips [t] (ready_world true "ok" [] 0 [] ∅ [] [])).1
       = Ok (mkTally 0 1 0).
Proof.
  intros csv.
  destruct (CsvParser.parseCSVData csv false) as [|t [|]] eqn:Hp;
    try (by vm_compute in Hp).
  exists t. split; [reflexivity|].
  assert (Hnan : odometerStart t = NaN).
  { apply (f_equal (map odometerStart)) in Hp. vm_compute in Hp.
    by injection Hp. }
  split; [exact Hnan|].
  destruct (X4_not_a_number_counts_as_duplicate t
              (ready_world true "ok" [] 0 [] ∅ [] []) []
              (ready_intro true "ok"%string [] 0 [] ∅ [] []) (or_introl Hnan))
    as (w' & _ & _ & _ & Htally).
  exact Htally.
Defined.

Lemma import_one_counts t c w :
  exists c' w',
    import_one t c w = (Ok c', w')
    /\ (imported c' + duplicates c' + ImportRoute.errors c'
        = S (imported c + duplicates c + ImportRoute.errors c))%nat.
Proof.
  unfold import_one, try_catch, bind, ret.
  destruct (insertTrip t w) as [[[n|]|e] w1];
    eexists _, _; (split; [reflexivity|]); cbn; lia.
Qed.

Lemma import_loop_counts trips : forall c w,
  exists c' w',
    import_loop trips c w = (Ok c', w')
    /\ (imported c' + duplicates c' + ImportRoute.errors c'
        = imported c + duplicates c + ImportRoute.errors c + length trips)%nat.
Proof.
  induction trips as [|t trips IH]; intros c w.
  - exists c, w. split; [reflexivity|]. cbn. lia.
  - cbn [import_loop]. unfold bind at 1.
    destruct (import_one_counts t c w) as (c1 & w1 & -> & H1).
    destruct (IH c1 w1) as (c' & w' & Hrun & H').
    exists c', w'. split; [exact Hrun|]. cbn [length]. lia.
Qed.

(** X5. The import loop never aborts and counts every trip once:
    whatever the state of the store and whichever calls fail, it ends
    normally, and imported + duplicates + errors is the number of trips
    it was given.  An error thrown by [insertTrip], the corruption error
    included, is counted and goes no further. *)
Theorem X5_import_counts_every_trip_once (trips : list Trip) (w : world) :
  exists c w',
    import_trips trips w = (Ok c, w')
    /\ (imported c + duplicates c + ImportRoute.errors c = length trips)%nat.
Proof.
  destruct (import_loop_counts trips (mkTally 0 0 0) w) as (c & w' & Hrun & H).
  exists c, w'. split; [exact Hrun|]. cbn in H. lia.
Qed.

End KeptProps.

(* ===================================================================== *)
(** * More on [getTrips]: what was inserted, and the pages                *)
(* ===================================================================== *)

Module PagingProps.
Import StoreNotions KeptNotions.
Import JS Store Sqlite Database.
Import InsertProps QueryProps.

(** [getTrips] without a filter on a store in order. *)
Lemma getTrips_unfiltered page limit sortOrder dd check rows seq settings bk
    ck lg :
  getTrips page limit [] [] [] sortOrder
    (ready_world dd check rows seq settings bk ck lg)
  = (Ok (mkPage
           (limit_offset limit ((page - 1) * limit)
              (order_by (orderDirection sortOrder) rows))
           (Z.of_nat (length rows))),
     ready_world dd check rows seq settings bk ck
       (Sql (SELECT_COUNT_trips [])
        :: Sql (SELECT_trips [] (orderDirection sortOrder) limit
                  ((page - 1) * limit))
        :: lg)).
Proof.
  rewrite (getTrips_ready page limit [] [] [] sortOrder []) by reflexivity.
  assert (Hall : filter (λ r, where_all [] r = true) rows = rows).
  { induction rows as [|r rows IH]; [done|].
    rewrite filter_cons_True by done. by rewrite IH. }
  by rewrite Hall.
Qed.

Lemma limit_offset_all {A} limit (l : list A) :
  limit < 0 \/ Z.of_nat (length l) <= limit ->
  limit_offset limit ((1 - 1) * limit) l = l.
Proof.
  intros H. unfold limit_offset. replace ((1 - 1) * limit) with 0 by lia.
  change (Z.to_nat 0) with 0%nat. rewrite drop_0.
  destruct (Z.ltb_spec limit 0); [done|].
  destruct H as [|H]; [lia|]. apply take_ge. lia.
Qed.

(** X6. What [insertTrip] stores, [getTrips] returns.  On a store in
    order, a trip that is not absorbed gets an [id]; the first page
    without a filter, with no limit or one above the number of rows,
    then holds the trip under that [id] as it was given, together with
    every row the table had, and the total has gone up by one. *)
Theorem X6_inserted_trip_is_listed (t : Trip) (w : world)
    (rows : list StoredTrip) (limit : Z) (sortOrder : text) :
  ready w rows ->
  absorbed rows t = false ->
  limit < 0 \/ Z.of_nat (length rows) < limit ->
  exists n w1 page w2,
    insertTrip t w = (Ok (LastID n), w1)
    /\ getTrips 1 limit [] [] [] sortOrder w1 = (Ok page, w2)
    /\ mkStored n t ∈ trips page
    /\ (forall r, r ∈ rows -> r ∈ trips page)
    /\ total page = Z.of_nat (length rows) + 1.
Proof.
  intros (dd & check & seq & settings & bk & ck & lg & ->) Habs Hlimit.
  eexists _, _, _, _. split; [by apply insert_new|].
  split; [apply getTrips_unfiltered|]. cbn [trips total].
  rewrite limit_offset_all
    by (rewrite order_by_length, length_app; cbn; lia).
  split; [|split].
  - apply order_by_elem, elem_of_app. right. by apply list_elem_of_singleton.
  - intros r Hr. apply order_by_elem, elem_of_app. by left.
  - rewrite length_app. cbn. lia.
Qed.

(** X6 on a store with one trip. *)
Lemma X6_inserted_trip_is_listed_witness :
  let t1 := mkTrip (str "Privat") (str "2024-01-01") (Fin 100) [] []
              (Fin 150) [] [] (Fin 50) [] [] [] [] [] in
  let t2 := mkTrip (str "Arbete") (str "2024-01-02") (Fin 150) [] []
              (Fin 170) [] [] (Fin 20) [] [] [] [] [] in
  exists n w1 page w2,
    insertTrip t2 (ready_world true "ok" [mkStored 1 t1] 1 [] ∅ [] [])
    = (Ok (LastID n), w1)
    /\ getTrips 1 20 [] [] [] (str "desc") w1 = (Ok page, w2)
    /\ mkStored n t2 ∈ trips page
    /\ total page = 2.
Proof.
  intros t1 t2.
  destruct (X6_inserted_trip_is_listed t2
              (ready_world true "ok" [mkStored 1 t1] 1 [] ∅ [] [])
              [mkStored 1 t1] 20 (str "desc")
              (ready_intro true "ok"%string [mkStored 1 t1] 1 [] ∅ [] []))
    as (n & w1 & page & w2 & Hins & Hget & Hin & _ & Htotal);
    [by vm_compute | right; cbn; lia |].
  by exists n, w1, page, w2.
Defined.

(** ** Pages *)

Lemma slices_concat {A} (size : nat) (l : list A) (n : nat) :
  concat (map (λ i, take size (drop (i * size) l)) (seq 0 n))
  = take (n * size) l.
Proof.
  induction n as [|n IH]; [done|].
  rewrite seq_S, map_app, concat_app, IH. cbn. rewrite app_nil_r.
  rewrite take_take_drop. f_equal. lia.
Qed.

Lemma page_slice page limit category0 dateFrom dateTo sortOrder w rows :
  ready w rows ->
  dateTo = [] \/ is_Some (JSDate.parse dateTo) ->
  page_trips (getTrips page limit category0 dateFrom dateTo sortOrder w)
  = limit_offset limit ((page - 1) * limit)
      (order_by (orderDirection sortOrder)
         (filter (λ r, in_filter category0 dateFrom dateTo r = true) rows))
  /\ exists p w',
       getTrips page limit category0 dateFrom dateTo sortOrder w = (Ok p, w')
       /\ total p
          = Z.of_nat (length (filter (λ r, in_filter category0 dateFrom dateTo r
                                             = true) rows)).
Proof.
  intros (dd & check & seq & settings & bk & ck & lg & ->) Hto.
  destruct (build_conditions_Some category0 dateFrom dateTo Hto)
    as (conditions & Hc & Hwhere).
  assert (Hsel : filter (λ r, where_all conditions r = true) rows
                 = filter (λ r, in_filter category0 dateFrom dateTo r = true)
                     rows).
  { apply list_filter_iff. intros r. by rewrite Hwhere. }
  unfold page_trips.
  rewrite (getTrips_ready page limit category0 dateFrom dateTo sortOrder
             conditions) by done.
  cbn [fst trips]. rewrite Hsel. split; [reflexivity|].
  eexists _, _. split; reflexivity.
Qed.

(** X7. The pages of [getTrips] cut the selection into consecutive
    slices.  On a store in order, with a page size above 0 and a
    date-to that is empty or a calendar date: the pages 1 to [n], one
    after the other, are the first [n * limit] trips of the selection in
    the order asked for, so that no trip is left out or repeated from
    one page to the next, and with [n * limit] at or above the total
    they are the whole selection.  A page number below 1 gives the first
    page; a page past the end gives no trip, and the same total. *)
Theorem X7_pages_are_consecutive_slices (limit : Z)
    (category0 dateFrom dateTo sortOrder : text) (w : world)
    (rows : list StoredTrip) :
  ready w rows ->
  dateTo = [] \/ is_Some (JSDate.parse dateTo) ->
  0 < limit ->
  let selected :=
    order_by (orderDirection sortOrder)
      (filter (λ r, in_filter category0 dateFrom dateTo r = true) rows) in
  let page_of (page : Z) :=
    page_trips (getTrips page limit category0 dateFrom dateTo sortOrder w) in
  (forall n : nat,
     concat (map (λ i : nat, page_of (Z.of_nat i + 1)) (seq 0 n))
     = take (n * Z.to_nat limit) selected)
  /\ (forall n : nat,
     Z.of_nat (length selected) <= Z.of_nat n * limit ->
     concat (map (λ i : nat, page_of (Z.of_nat i + 1)) (seq 0 n)) = selected)
  /\ (forall page, page <= 1 -> page_of page = page_of 1)
  /\ (forall page,
     Z.of_nat (length selected) <= (page - 1) * limit ->
     exists p w',
       getTrips page limit category0 dateFrom dateTo sortOrder w = (Ok p, w')
       /\ trips p = []
       /\ total p = Z.of_nat (length selected)).
Proof.
  intros Hready Hto Hlimit selected page_of.
  assert (Hpage : forall page,
            page_of page = limit_offset limit ((page - 1) * limit) selected).
  { intros page. by apply page_slice. }
  assert (Hslices : forall n : nat,
            concat (map (λ i : nat, page_of (Z.of_nat i + 1)) (seq 0 n))
            = take (n * Z.to_nat limit) selected).
  { intros n. rewrite <- slices_concat. f_equal. apply map_ext. intros i.
    rewrite Hpage. unfold limit_offset.
    destruct (Z.ltb_spec limit 0); [lia|]. do 2 f_equal. nia. }
  split; [exact Hslices|]. split; [|split].
  - intros n Hn. rewrite Hslices. apply take_ge. nia.
  - intros page Hp. rewrite !Hpage. unfold limit_offset.
    replace (Z.to_nat ((page - 1) * limit)) with (Z.to_nat ((1 - 1) * limit));
      [done|].
    rewrite (Z2Nat.nonpos ((page - 1) * limit)) by nia. reflexivity.
  - intros page Hp.
    destruct (page_slice page limit category0 dateFrom dateTo sortOrder w rows
                Hready Hto) as [Hslice (p & w' & Hrun & Htotal)].
    exists p, w'. split; [exact Hrun|].
    unfold page_trips in Hslice. rewrite Hrun in Hslice. cbn [fst] in Hslice.
    split.
    + rewrite Hslice. fold selected. unfold limit_offset.
      destruct (Z.ltb_spec limit 0); [lia|].
      rewrite drop_ge by lia. apply take_nil.
    + rewrite Htotal. unfold selected. by rewrite order_by_length.
Qed.

(** X7 on a store with three trips and pages of two. *)
Lemma X7_pages_are_consecutive_slices_witness :
  let r1 := mkStored 1 (mkTrip (str "Privat") (str "2024-01-01") (Fin 100) []
                          [] (Fin 150) [] [] (Fin 50) [] [] [] [] []) in
  let r2 := mkStored 2 (mkTrip (str "Arbete") (str "2024-01-02") (Fin 150) []
                          [] (Fin 170) [] [] (Fin 20) [] [] [] [] []) in
  let r3 := mkStored 3 (mkTrip (str "Arbete") (str "2024-01-03") (Fin 170) []
                          [] (Fin 190) [] [] (Fin 20) [] [] [] [] []) in
  let w := ready_world true "ok" [r1; r2; r3] 3 [] ∅ [] [] in
  page_trips (getTrips 1 2 [] [] [] (str "asc") w)
  ++ page_trips (getTrips 2 2 [] [] [] (str "asc") w)
  = [r1; r2; r3].
Proof.
  intros r1 r2 r3 w.
  destruct (X7_pages_are_consecutive_slices 2 [] [] [] (str "asc") w
              [r1; r2; r3]
              (ready_intro true "ok"%string [r1; r2; r3] 3 [] ∅ [] []))
    as (_ & Hall & _); [by left | lia |].
  specialize (Hall 2%nat). cbn [seq map concat Z.of_nat] in Hall.
  rewrite app_nil_r in Hall. apply Hall. by vm_compute.
Defined.

End PagingProps.

(* ===================================================================== *)
(** * Properties of [updateTrip] and of the settings                      *)
(* ===================================================================== *)

Module MaintenanceProps.
Import StoreNotions KeptNotions.
Import JS Store Sqlite Database Statements Maintenance.
Import InsertProps.

(** ** [updateTrip] *)

Lemma updateTrip_ready n c nt dd check rows seq settings bk ck lg :
  is_Some c \/ is_Some nt ->
  updateTrip n c nt (ready_world dd check rows seq settings bk ck lg)
  = (Ok (0 <? Z.of_nat (length (filter (λ r, id_is n r = true) rows))),
     ready_world dd check (updated n c nt rows) seq settings bk ck lg).
Proof.
  intros H. destruct c, nt; [reflexivity..|].
  by destruct H as [[? [=]] | [? [=]]].
Qed.

Lemma set_columns_same c nt r : same_but_category_and_notes r (set_columns c nt r).
Proof. by repeat split. Qed.

Lemma same_refl r : same_but_category_and_notes r r.
Proof. by repeat split. Qed.

Lemma same_key_same t r r' :
  same_but_category_and_notes r r' -> same_key t r' = same_key t r.
Proof.
  intros (_ & Hd & Hs & _ & _ & He & _). unfold same_key.
  by rewrite Hd, Hs, He.
Qed.

Lemma updated_lookup n c nt rows i :
  updated n c nt rows !! i
  = (λ r, if id_is n r then set_columns c nt r else r) <$> rows !! i.
Proof. apply list_lookup_fmap. Qed.

Lemma updated_same n c nt rows i r' :
  updated n c nt rows !! i = Some r' ->
  exists r, rows !! i = Some r /\ same_but_category_and_notes r r'.
Proof.
  rewrite updated_lookup. destruct (rows !! i) as [r|]; [|done].
  cbn. intros [= <-]. exists r. split; [done|].
  destruct (id_is n r); [apply set_columns_same | apply same_refl].
Qed.

Lemma updated_well_kept n c nt rows seq :
  well_kept rows seq -> well_kept (updated n c nt rows) seq.
Proof.
  intros (Hkeys & Hids & Hseq & Hnull).
  assert (Hid : map id (updated n c nt rows) = map id rows).
  { unfold updated. rewrite map_map. apply map_ext. intros r.
    by destruct (id_is n r). }
  repeat split.
  - intros i j r1' r2' Hi Hj Hsame.
    apply updated_same in Hi as (r1 & Hi & H1).
    apply updated_same in Hj as (r2 & Hj & H2).
    apply (Hkeys i j r1 r2 Hi Hj).
    rewrite <- (same_key_same _ _ _ H2).
    destruct H1 as (_ & Hd & Hs & _ & _ & He & _).
    unfold same_key in *. by rewrite <- Hd, <- Hs, <- He.
  - by rewrite Hid.
  - apply Forall_forall. intros r' Hr'.
    apply list_elem_of_lookup_1 in Hr' as [i Hi].
    apply updated_same in Hi as (r & Hi & (Hidr & _)).
    rewrite Forall_forall in Hseq. rewrite Hidr. apply Hseq.
    by apply list_elem_of_lookup_2 in Hi.
  - apply Forall_forall. intros r' Hr'.
    apply list_elem_of_lookup_1 in Hr' as [i Hi].
    apply updated_same in Hi as (r & Hi & H).
    rewrite Forall_forall in Hnull.
    apply list_elem_of_lookup_2 in Hi. specialize (Hnull r Hi).
    destruct H as (_ & _ & Hs & _ & _ & He & _ & _ & Hdist & _).
    unfold no_null in *. by rewrite Hs, He, Hdist.
Qed.

Lemma filter_length_pos {A} (P : A -> Prop) `{!forall x, Decision (P x)} l :
  (0 <? Z.of_nat (length (filter P l))) = true <-> exists x, x ∈ l /\ P x.
Proof.
  rewrite Z.ltb_lt. split.
  - destruct (filter P l) as [|x k] eqn:E; [cbn; lia|]. intros _.
    exists x. apply and_comm, (list_elem_of_filter P). rewrite E. by left.
  - intros (x & Hx & HP).
    assert (Hin : x ∈ filter P l) by (by apply list_elem_of_filter).
    destruct (filter P l); [by apply elem_of_nil in Hin | cbn; lia].
Qed.

Lemma filter_none {A} (P : A -> Prop) `{!forall x, Decision (P x)} l :
  (forall x, x ∈ l -> ~ P x) -> filter P l = [].
Proof.
  induction l as [|x l IH]; [done|]. intros Hno.
  rewrite filter_cons_False by (apply Hno; by left).
  apply IH. intros y Hy. apply Hno. by right.
Qed.

(** X8. [updateTrip] changes the category and the notes of the trip
    with the given [id], and nothing else.  On a store in order, with a
    category or notes given: it returns [true] exactly when a row has
    that [id]; such a row gets the category and the notes that were
    given and keeps the one that was not; every row keeps its place, its
    [id] and its other twelve columns, every row with another [id] stays
    as it is, and the settings are untouched.  A table with one row per
    key and per [id] is so again afterwards. *)
Theorem X8_updateTrip_changes_category_and_notes_only (n : number)
    (c nt : option text) (dd : bool) (check : string) (rows : list StoredTrip)
    (seq : Z) (settings : list (text * text)) (bk : gmap Z file)
    (ck : list Z) (lg : list event) :
  is_Some c \/ is_Some nt ->
  exists result rows',
    updateTrip n c nt (ready_world dd check rows seq settings bk ck lg)
    = (Ok result, ready_world dd check rows' seq settings bk ck lg)
    /\ (result = true <-> exists r, r ∈ rows /\ id_is n r = true)
    /\ length rows' = length rows
    /\ (forall i r, rows !! i = Some r ->
        exists r', rows' !! i = Some r'
          /\ same_but_category_and_notes r r'
          /\ (id_is n r = false -> r' = r)
          /\ (id_is n r = true ->
              category (trip r') = default (category (trip r)) c
              /\ notes (trip r') = default (notes (trip r)) nt))
    /\ (well_kept rows seq -> well_kept rows' seq).
Proof.
  intros Hgiven. eexists _, _. split; [by apply updateTrip_ready|].
  split; [apply filter_length_pos|]. split; [apply length_map|].
  split; [|apply updated_well_kept].
  intros i r Hi. eexists. rewrite updated_lookup, Hi. split; [reflexivity|].
  destruct (id_is n r); repeat split; done.
Qed.

(** X8 on a store with two trips: the second gets a new category and
    keeps its notes. *)
Lemma X8_updateTrip_changes_category_and_notes_only_witness :
  let t1 := mkTrip (str "Privat") (str "2024-01-01") (Fin 100) [] []
              (Fin 150) [] [] (Fin 50) [] [] [] [] (str "a") in
  let t2 := mkTrip (str "Okategoriserat") (str "2024-01-02") (Fin 150) [] []
              (Fin 170) [] [] (Fin 20) [] [] [] [] (str "b") in
  exists rows',
    updateTrip (Fin 2) (Some (str "Arbete")) None
      (ready_world true "ok" [mkStored 1 t1; mkStored 2 t2] 2 [] ∅ [] [])
    = (Ok true, ready_world true "ok" rows' 2 [] ∅ [] [])
    /\ map (λ r, (category (trip r), notes (trip r))) rows'
       = [(str "Privat", str "a"); (str "Arbete", str "b")].
Proof.
  intros t1 t2.
  destruct (X8_updateTrip_changes_category_and_notes_only (Fin 2)
              (Some (str "Arbete")) None true "ok"
              [mkStored 1 t1; mkStored 2 t2] 2 [] ∅ [] [])
    as (result & rows' & Hrun & _); [left; by eexists|].
  exists rows'.
  assert (Hres : (result, rows')
                 = (true, updated (Fin 2) (Some (str "Arbete")) None
                            [mkStored 1 t1; mkStored 2 t2])).
  { rewrite updateTrip_ready in Hrun by (left; by eexists).
    injection Hrun as <- <-. reflexivity. }
  injection Hres as -> ->. split; [exact Hrun | by vm_compute].
Defined.

(** X9. When [updateTrip] changes nothing.  In every world it returns,
    whatever fails: an error of [getDatabase] or of the statement is
    caught and turned into [false].  On a store in order it returns
    [false] and leaves the world as it is when neither a category nor
    notes are given (no statement is run) and when no row has the [id];
    an [id] that is [NaN] matches no row. *)
Theorem X9_updateTrip_returns_false (n : number) (c nt : option text)
    (w : world) :
  (exists result w', updateTrip n c nt w = (Ok result, w'))
  /\ (forall e w', getDatabase w = (Throw e, w') ->
      updateTrip n c nt w = (Ok false, w'))
  /\ (forall rows, ready w rows ->
      updateTrip n None None w = (Ok false, w))
  /\ (forall rows, ready w rows ->
      (forall r, r ∈ rows -> id_is n r = false) ->
      updateTrip n c nt w = (Ok false, w))
  /\ (forall r, id_is NaN r = false).
Proof.
  split; [|split; [|split; [|split]]].
  - unfold updateTrip, try_catch, ret.
    match goal with
    | |- context [match ?m w with _ => _ end] =>
        destruct (m w) as [[b|e] w']
    end; by eexists _, _.
  - intros e w' Hdb. unfold updateTrip, try_catch, bind, ret. by rewrite Hdb.
  - by intros rows (dd & check & seq & settings & bk & ck & lg & ->).
  - intros rows (dd & check & seq & settings & bk & ck & lg & ->) Hnone.
    destruct c as [x|], nt as [y|]; [| | |reflexivity];
      (rewrite updateTrip_ready by (first [left; by eexists | right; by eexists]);
       assert (updated n _ _ rows = rows) as ->
         by (unfold updated; rewrite <- (map_id rows) at 2;
             apply map_ext_in; intros r Hr%list_elem_of_In;
             by rewrite Hnone);
       assert (filter (λ r, id_is n r = true) rows = []) as ->
         by (apply filter_none; intros r Hr; by rewrite Hnone);
       reflexivity).
  - done.
Qed.

(** X9 on a store with one trip, asked for the [id] 5. *)
Lemma X9_updateTrip_returns_false_witness :
  let t1 := mkTrip (str "Privat") (str "2024-01-01") (Fin 100) [] []
              (Fin 150) [] [] (Fin 50) [] [] [] [] [] in
  let w := ready_world true "ok" [mkStored 1 t1] 1 [] ∅ [] [] in
  updateTrip (Fin 5) (Some (str "Arbete")) None w = (Ok false, w).
Proof.
  intros t1 w.
  destruct (X9_updateTrip_returns_false (Fin 5) (Some (str "Arbete")) None w)
    as (_ & _ & _ & Hnone & _).
  apply (Hnone [mkStored 1 t1]).
  - apply ready_intro.
  - intros r Hr%list_elem_of_singleton. subst r. by vm_compute.
Defined.

(** ** The settings *)

Lemma getSetting_ready key dd check rows seq settings bk ck lg :
  getSetting key (ready_world dd check rows seq settings bk ck lg)
  = (Ok (value_or_null (find_setting key settings)),
     ready_world dd check rows seq settings bk ck lg).
Proof. reflexivity. Qed.

Lemma setSetting_ready key value dd check rows seq settings bk ck lg :
  setSetting key value (ready_world dd check rows seq settings bk ck lg)
  = (Ok true,
     ready_world dd check rows seq
       (filter (λ kv, kv.1 ≠ key) settings ++ [(key, value)]) bk ck lg).
Proof. reflexivity. Qed.

Lemma text_eqb_true a b : text_eqb a b = true <-> a = b.
Proof. unfold text_eqb. apply bool_decide_eq_true. Qed.

Lemma text_eqb_false a b : text_eqb a b = false <-> a <> b.
Proof. unfold text_eqb. apply bool_decide_eq_false. Qed.

Lemma find_setting_app key l1 l2 :
  find_setting key (l1 ++ l2)
  = match find_setting key l1 with
    | Some v => Some v
    | None => find_setting key l2
    end.
Proof.
  induction l1 as [|[k v] l1 IH]; [done|]. cbn.
  by destruct (text_eqb k key).
Qed.

Lemma find_setting_filter_ne key key' l :
  key' <> key ->
  find_setting key' (filter (λ kv, kv.1 ≠ key) l) = find_setting key' l.
Proof.
  intros Hne. induction l as [|[k v] l IH]; [done|].
  destruct (decide (k = key)) as [->|Hk].
  - rewrite filter_cons_False by (cbn; by intros ?). cbn.
    destruct (text_eqb key key') eqn:E; [|exact IH].
    apply text_eqb_true in E. congruence.
  - rewrite filter_cons_True by done. cbn. by rewrite IH.
Qed.

Lemma find_setting_filter_eq key l :
  find_setting key (filter (λ kv, kv.1 ≠ key) l) = None.
Proof.
  induction l as [|[k v] l IH]; [done|].
  destruct (decide (k = key)) as [->|Hk].
  - by rewrite filter_cons_False by (cbn; by intros ?).
  - rewrite filter_cons_True by done. cbn.
    destruct (text_eqb k key) eqn:E; [|exact IH].
    by apply text_eqb_true in E.
Qed.

Lemma find_setting_None key l :
  key ∉ map fst l -> find_setting key l = None.
Proof.
  induction l as [|[k v] l IH]; cbn; [done|].
  intros [Hk Hl]%not_elem_of_cons.
  destruct (text_eqb k key) eqn:E; [|by apply IH].
  apply text_eqb_true in E. congruence.
Qed.

(** X10. A setting that is written can be read back.  On a store in
    order [setSetting] returns [true]; afterwards the table holds
    exactly one row with the key, [getSetting] of the key returns the
    value written, or [null] when that value is the empty string, and
    [getSetting] of every other key returns what it returned before.
    The trips are untouched, and a table with one row per key is so
    again. *)
Theorem X10_setting_can_be_read_back (key value : text) (w : world)
    (rows : list StoredTrip) :
  ready w rows ->
  exists w1,
    setSetting key value w = (Ok true, w1)
    /\ ready w1 rows
    /\ getSetting key w1
       = (Ok (if is_empty value then None else Some value), w1)
    /\ (forall key', key' <> key ->
        (getSetting key' w1).1 = (getSetting key' w).1)
    /\ filter (λ kv, kv.1 = key) (stored_settings w1) = [(key, value)]
    /\ (NoDup (map fst (stored_settings w)) ->
        NoDup (map fst (stored_settings w1))).
Proof.
  intros (dd & check & seq & settings & bk & ck & lg & ->).
  eexists. split; [apply setSetting_ready|]. split; [by repeat eexists|].
  split; [|split; [|split]].
  - rewrite getSetting_ready, find_setting_app, find_setting_filter_eq.
    cbn [find_setting]. by rewrite (proj2 (text_eqb_true key key) eq_refl).
  - intros key' Hne.
    rewrite !getSetting_ready, find_setting_app, find_setting_filter_ne by done.
    cbn. apply text_eqb_false in Hne as Hne'.
    destruct (text_eqb key key') eqn:E;
      [apply text_eqb_true in E; congruence|].
    by destruct (find_setting key' settings).
  - unfold stored_settings, ready_world; cbn [files db_file settings_table from_option Datatypes.id].
    rewrite filter_app, filter_cons_True, filter_nil by done.
    rewrite (filter_none (λ kv : text * text, kv.1 = key)); [done|].
    intros kv Hkv. apply list_elem_of_filter in Hkv as [Hk _]. exact Hk.
  - unfold stored_settings, ready_world; cbn [files db_file settings_table from_option Datatypes.id].
    rewrite !map_app. cbn [map fst]. intros Hnd.
    apply NoDup_app. split; [|split].
    + induction settings as [|[k v] settings IH]; [constructor|].
      cbn in Hnd. apply NoDup_cons in Hnd as [Hk Hnd].
      destruct (decide (k = key)) as [->|Hne].
      * rewrite filter_cons_False by (cbn; by intros ?). by apply IH.
      * rewrite filter_cons_True by done. cbn. apply NoDup_cons.
        split; [|by apply IH]. intros Hin. apply Hk.
        apply list_elem_of_fmap in Hin as (kv & -> & Hkv).
        apply list_elem_of_filter in Hkv as [_ Hkv].
        apply list_elem_of_fmap. by exists kv.
    + intros k Hin [->|[]%elem_of_nil]%elem_of_cons.
      apply list_elem_of_fmap in Hin as (kv & Hk & Hkv).
      apply list_elem_of_filter in Hkv as [Hne _]. by destruct Hne.
    + apply NoDup_singleton.
Qed.

(** X10 on a store where the key has a value already. *)
Lemma X10_setting_can_be_read_back_witness :
  let key := str "mapOkategoriseratToPrivat" in
  let w := ready_world true "ok" [] 0 [(key, str "false")] ∅ [] [] in
  exists w1,
    setSetting key (str "true") w = (Ok true, w1)
    /\ (getSetting key w1).1 = Ok (Some (str "true"))
    /\ stored_settings w1 = [(key, str "true")].
Proof.
  intros key w.
  destruct (X10_setting_can_be_read_back key (str "true") w []
              (ready_intro true "ok"%string [] 0 [(key, str "false")] ∅ [] []))
    as (w1 & Hset & _ & Hget & _).
  exists w1. split; [exact Hset|]. split; [by rewrite Hget|].
  unfold w in Hset. rewrite setSetting_ready in Hset. injection Hset as <-.
  by vm_compute.
Defined.

(** ** [getMultipleSettings] *)

Lemma assign_lookup m row key :
  assign m row !! key
  = if bool_decide (row.1 = key /\ key <> proto) then Some row.2 else m !! key.
Proof.
  unfold assign. fold proto. destruct (text_eqb row.1 proto) eqn:E.
  - apply text_eqb_true in E. rewrite bool_decide_eq_false_2; [done|].
    intros [H1 H2]. congruence.
  - apply text_eqb_false in E.
    destruct (decide (row.1 = key)) as [<-|Hne].
    + rewrite lookup_insert_eq. by rewrite bool_decide_eq_true_2.
    + rewrite lookup_insert_ne by done.
      rewrite bool_decide_eq_false_2; [done | by intros [? ?]].
Qed.

Lemma foldl_assign_lookup rows : forall m key,
  NoDup (map fst rows) ->
  foldl assign m rows !! key
  = match find_setting key rows with
    | Some v => if bool_decide (key = proto) then m !! key else Some v
    | None => m !! key
    end.
Proof.
  induction rows as [|[k v] rows IH]; intros m key Hnd; [done|].
  cbn in Hnd. apply NoDup_cons in Hnd as [Hk Hnd].
  cbn [foldl find_setting]. rewrite IH by done. rewrite assign_lookup. cbn.
  destruct (text_eqb k key) eqn:E.
  - apply text_eqb_true in E. subst k.
    apply find_setting_None in Hk. rewrite Hk.
    destruct (decide (key = proto)) as [->|Hne].
    + rewrite bool_decide_eq_false_2 by (by intros [? ?]).
      by rewrite bool_decide_eq_true_2.
    + rewrite bool_decide_eq_true_2 by done. by rewrite bool_decide_eq_false_2.
  - apply text_eqb_false in E.
    rewrite (bool_decide_eq_false_2 (k = key /\ _)) by (by intros [? ?]).
    reflexivity.
Qed.

Lemma find_setting_filter_in (key : text) (keys : list text)
    (l : list (text * text)) :
  find_setting key (filter (λ kv, kv.1 ∈ keys) l)
  = if bool_decide (key ∈ keys) then find_setting key l else None.
Proof.
  induction l as [|[k v] l IH].
  - by destruct (bool_decide (key ∈ keys)).
  - destruct (decide (k ∈ keys)) as [Hin|Hout].
    + rewrite filter_cons_True by done. cbn.
      destruct (text_eqb k key) eqn:E; [|exact IH].
      apply text_eqb_true in E. subst k. by rewrite bool_decide_eq_true_2.
    + rewrite filter_cons_False by done. rewrite IH. cbn.
      destruct (text_eqb k key) eqn:E; [|done].
      apply text_eqb_true in E. subst k. by rewrite bool_decide_eq_false_2.
Qed.

Lemma NoDup_filter_keys (P : text * text -> Prop)
    `{!forall x, Decision (P x)} l :
  NoDup (map fst l) -> NoDup (map fst (filter P l)).
Proof.
  induction l as [|[k v] l IH]; [done|]. intros Hnd.
  cbn [map fst] in Hnd. apply NoDup_cons in Hnd as [Hk Hnd].
  destruct (decide (P (k, v))).
  - rewrite filter_cons_True by done. cbn. apply NoDup_cons.
    split; [|by apply IH]. intros Hin. apply Hk.
    apply list_elem_of_fmap in Hin as (kv & -> & Hkv).
    apply list_elem_of_filter in Hkv as [_ Hkv].
    apply list_elem_of_fmap. by exists kv.
  - rewrite filter_cons_False by done. by apply IH.
Qed.

(** X11. [getMultipleSettings] returns an object with the value of
    every requested key that has a row, and nothing else.  On a store
    in order whose table has one row per key: a key that was asked for
    and is stored maps to its value, the empty string included; a key
    that was not asked for, or is not stored, is absent; and the key
    [__proto__] is always absent, stored or not.  With no key asked for
    the object is empty.  The store is left as it is. *)
Theorem X11_getMultipleSettings_returns_the_stored_values (keys : list text)
    (w : world) (rows : list StoredTrip) :
  ready w rows ->
  NoDup (map fst (stored_settings w)) ->
  exists m,
    getMultipleSettings keys w = (Ok m, w)
    /\ (forall key,
        m !! key
        = if bool_decide (key ∈ keys /\ key <> proto)
          then find_setting key (stored_settings w)
          else None)
    /\ (keys = [] -> m = ∅).
Proof.
  intros (dd & check & seq & settings & bk & ck & lg & ->) Hnd.
  cbn in Hnd. eexists. split; [reflexivity|]. split.
  - intros key. unfold stored_settings, ready_world.
    cbn [files db_file settings_table from_option Datatypes.id].
    change (Datatypes.id settings) with settings.
    rewrite foldl_assign_lookup by (by apply NoDup_filter_keys).
    rewrite find_setting_filter_in, lookup_empty.
    destruct (decide (key ∈ keys)) as [Hin|Hout].
    + rewrite (bool_decide_eq_true_2 (key ∈ keys)) by done.
      destruct (decide (key = proto)) as [->|Hne].
      * rewrite (bool_decide_eq_false_2 (_ /\ _)) by (by intros [? ?]).
        destruct (find_setting proto settings); [|done].
        by rewrite bool_decide_eq_true_2.
      * rewrite (bool_decide_eq_true_2 (_ /\ _)) by done.
        destruct (find_setting key settings); [|done].
        by rewrite bool_decide_eq_false_2.
    + rewrite (bool_decide_eq_false_2 (key ∈ keys)) by done.
      by rewrite (bool_decide_eq_false_2 (_ /\ _)) by (by intros [? ?]).
  - intros ->. apply map_eq. intros key.
    rewrite foldl_assign_lookup by (by apply NoDup_filter_keys).
    rewrite find_setting_filter_in.
    rewrite bool_decide_eq_false_2 by (by intros ?%elem_of_nil).
    reflexivity.
Qed.

(** X11 on a store with three settings, one of them under [__proto__]. *)
Lemma X11_getMultipleSettings_returns_the_stored_values_witness :
  let w := ready_world true "ok" [] 0
             [(str "exportDriver", str "Anna"); (proto, str "x");
              (str "exportCarModel", [])] ∅ [] [] in
  exists m,
    getMultipleSettings [str "exportDriver"; proto; str "exportRegNumber";
                         str "exportCarModel"] w
    = (Ok m, w)
    /\ m !! str "exportDriver" = Some (str "Anna")
    /\ m !! proto = None
    /\ m !! str "exportRegNumber" = None
    /\ m !! str "exportCarModel" = Some [].
Proof.
  intros w.
  assert (Hnd : NoDup (map fst (stored_settings w))).
  { apply (bool_decide_unpack _). by vm_compute. }
  destruct (X11_getMultipleSettings_returns_the_stored_values
              [str "exportDriver"; proto; str "exportRegNumber";
               str "exportCarModel"] w []
              (ready_intro true "ok"%string [] 0 _ ∅ [] []) Hnd)
    as (m & Hrun & Hm & _).
  exists m. split; [exact Hrun|]. rewrite !Hm. by vm_compute.
Defined.

(** X12. The settings functions hide every failure.  In every world
    they return and do not throw.  When the store cannot be opened, or
    the statement fails, [getSetting] returns [null], as for a key that
    has no row, [setSetting] returns [false], and [getMultipleSettings]
    returns the empty object; a statement that fails leaves the files as
    they are. *)
Theorem X12_settings_functions_hide_failures (key value : text)
    (keys : list text) (w : world) :
  (exists r1 w1 r2 w2 r3 w3,
     getSetting key w = (Ok r1, w1)
     /\ setSetting key value w = (Ok r2, w2)
     /\ getMultipleSettings keys w = (Ok r3, w3))
  /\ (forall e w',
      getDatabase w = (Throw e, w') ->
      getSetting key w = (Ok None, w')
      /\ setSetting key value w = (Ok false, w')
      /\ getMultipleSettings keys w = (Ok ∅, w'))
  /\ (forall h w' e rest,
      getDatabase w = (Ok h, w') ->
      faults w' = Some e :: rest ->
      getSetting key w = (Ok None, set_faults rest w')
      /\ setSetting key value w = (Ok false, set_faults rest w')
      /\ getMultipleSettings keys w = (Ok ∅, set_faults rest w')).
Proof.
  split; [|split].
  - unfold getSetting, setSetting, getMultipleSettings, try_catch, ret.
    repeat match goal with
           | |- context [match ?m w with _ => _ end] =>
               destruct (m w) as [[?|?] ?]
           end; by eexists _, _, _, _, _, _.
  - intros e w' Hdb.
    unfold getSetting, setSetting, getMultipleSettings, try_catch, bind, ret.
    by rewrite Hdb.
  - intros h w' e rest Hdb Hf.
    unfold getSetting, setSetting, getMultipleSettings, try_catch, bind, ret,
      get_setting_value, run_replace_setting, all_settings_in, engine_call.
    by rewrite Hdb, Hf.
Qed.

(** X12 on a store in order whose next call is made to fail. *)
Lemma X12_settings_functions_hide_failures_witness :
  let busy := sqlite_error "SQLITE_BUSY" 5 "SQLITE_BUSY: database is locked" in
  let w := set_faults [Some busy]
             (ready_world true "ok" [] 0 [(str "k", str "v")] ∅ [] []) in
  getSetting (str "k") w
  = (Ok None, ready_world true "ok" [] 0 [(str "k", str "v")] ∅ [] []).
Proof.
  intros busy w.
  destruct (X12_settings_functions_hide_failures (str "k") [] [] w)
    as (_ & _ & Hfail).
  destruct (Hfail DbPath w busy [] eq_refl eq_refl) as (Hget & _).
  exact Hget.
Defined.

End MaintenanceProps.

(* ===================================================================== *)
(** * More on the record parser                                           *)
(* ===================================================================== *)

Module RecordProps.
Import ParserNotions RecordNotions.
Import JS CsvParser ParserProps.

(** ** [cleanText] *)

Lemma trim_start_suffix s : exists pre, s = pre ++ trim_start s.
Proof.
  induction s as [|c s [pre IH]]; [by exists []|]. cbn.
  destruct (is_space c); [|by exists []].
  exists (c :: pre). cbn. by rewrite <- IH.
Qed.

Lemma head_trim_start s c : head (trim_start s) = Some c -> is_space c = false.
Proof.
  induction s as [|d s IH]; [done|]. cbn.
  destruct (is_space d) eqn:E; [exact IH|]. cbn. by intros [= <-].
Qed.

Lemma last_trim_start s c : last (trim_start s) = Some c -> last s = Some c.
Proof.
  destruct (trim_start_suffix s) as [pre Hs]. intros Hl.
  rewrite Hs. destruct (trim_start s) as [|d u]; [done|].
  by rewrite last_app, Hl.
Qed.

Lemma elem_of_trim_start s c : c ∈ trim_start s -> c ∈ s.
Proof.
  destruct (trim_start_suffix s) as [pre Hs]. intros Hc.
  rewrite Hs. apply elem_of_app. by right.
Qed.

Lemma last_rev {A} (l : list A) : last (rev l) = head l.
Proof. destruct l as [|x l]; [done|]. cbn. by rewrite last_snoc. Qed.

Lemma head_rev {A} (l : list A) : head (rev l) = last l.
Proof. by rewrite <- (rev_involutive l) at 2; rewrite last_rev. Qed.

Lemma elem_of_rev {A} (l : list A) x : x ∈ rev l <-> x ∈ l.
Proof. rewrite !list_elem_of_In. symmetry. apply in_rev. Qed.

Lemma elem_of_trim s c : c ∈ trim s -> c ∈ s.
Proof.
  unfold trim, trim_end. rewrite elem_of_rev.
  intros Hc%elem_of_trim_start. apply (proj1 (elem_of_rev _ _)) in Hc.
  by apply elem_of_trim_start.
Qed.

Lemma trim_ends s :
  (forall c, head (trim s) = Some c -> is_space c = false)
  /\ (forall c, last (trim s) = Some c -> is_space c = false).
Proof.
  unfold trim, trim_end. split; intros c.
  - rewrite head_rev. intros Hl%last_trim_start. rewrite last_rev in Hl.
    by apply head_trim_start in Hl.
  - rewrite last_rev. apply head_trim_start.
Qed.

Lemma collapse_spaces_from_chars b s c :
  c ∈ collapse_spaces_from b s -> is_space c = true -> c = 32%N.
Proof.
  revert b. induction s as [|d s IH]; intros b; cbn.
  - by intros ?%elem_of_nil.
  - destruct (is_space d) eqn:E.
    + destruct b; [apply IH|].
      intros [->|Hc]%elem_of_cons; [done | by apply (IH true)].
    + intros [->|Hc]%elem_of_cons; [congruence | by apply (IH false)].
Qed.

Lemma cleanText_clean t : clean (cleanText t).
Proof.
  unfold cleanText. destruct (is_empty t).
  { split; [constructor|]. by split. }
  split; [|apply trim_ends].
  apply Forall_forall. intros c Hc%elem_of_trim.
  unfold remove_nulls in Hc. apply list_elem_of_filter in Hc as [Hnull Hc].
  split; [exact Hnull|].
  by apply (collapse_spaces_from_chars false (strip_bom t) c).
Qed.

(** X13. What [cleanText] returns is clean, whatever it is given: it
    holds no null character; its only white space is the plain space
    (tabs, line breaks, no-break spaces, byte-order marks and the other
    Unicode spaces are gone); and it neither starts nor ends with white
    space.  A text without white space and null characters comes back
    as it was. *)
Theorem X13_cleanText_returns_clean_text (t : text) :
  clean (cleanText t)
  /\ (Forall (λ c, c ≠ 0%N /\ is_space c = false) t -> cleanText t = t).
Proof.
  split; [apply cleanText_clean|]. intros Hplain.
  unfold cleanText. destruct t as [|c t]; [done|]. cbn [is_empty].
  assert (Hbom : strip_bom (c :: t) = c :: t).
  { apply Forall_cons in Hplain as [[_ Hc] _]. cbn.
    destruct (N.eqb_spec c 65279) as [->|]; [by vm_compute in Hc | done]. }
  rewrite Hbom.
  assert (Hcollapse : forall s,
            Forall (λ c, c ≠ 0%N /\ is_space c = false) s ->
            collapse_spaces_from false s = s).
  { induction s as [|d s IH]; [done|]. intros [[_ Hd] Hs]%Forall_cons.
    cbn. rewrite Hd. by rewrite IH. }
  unfold collapse_spaces. rewrite Hcollapse by done.
  assert (Hnull : forall s,
            Forall (λ c, c ≠ 0%N /\ is_space c = false) s ->
            remove_nulls s = s).
  { unfold remove_nulls, text. induction s as [|d s IH]; [done|].
    intros [[Hd _] Hs]%Forall_cons.
    rewrite filter_cons_True by done. by rewrite IH. }
  rewrite Hnull by done.
  assert (Hstart : forall s,
            Forall (λ c, c ≠ 0%N /\ is_space c = false) s -> trim_start s = s).
  { intros [|d s]; [done|]. intros [[_ Hd] _]%Forall_cons. cbn.
    by rewrite Hd. }
  unfold trim, trim_end. rewrite (Hstart (c :: t)) by done.
  rewrite Hstart; [apply rev_involutive|].
  apply Forall_forall. intros d Hd. rewrite Forall_forall in Hplain.
  apply Hplain. by apply (proj1 (elem_of_rev _ _)).
Qed.

(** X13 on a text with a byte-order mark, a tab and a null character. *)
Lemma X13_cleanText_returns_clean_text_witness :
  cleanText (str "Privat") = str "Privat"
  /\ cleanText ([65279%N; 9%N] ++ str "a" ++ [0%N; 9%N; 10%N] ++ str "b ")
     = str "a b".
Proof.
  destruct (X13_cleanText_returns_clean_text (str "Privat")) as [_ Hsame].
  split; [|by vm_compute].
  apply Hsame. apply (bool_decide_unpack _). by vm_compute.
Defined.

(** ** The records *)

Lemma parsed_from_row csv flag t :
  t ∈ parseCSVData csv flag -> exists r, row_outcome flag r = Some t.
Proof.
  unfold parseCSVData, parseCSVData_state.
  set (content := clean_content csv).
  assert (Hrows : forall l i rows,
            t ∈ results (process_rows flag l i rows initial_state) ->
            exists r, row_outcome flag r = Some t).
  { intros l i rows. rewrite results_process_rows. cbn.
    intros (r & Hr & Ht)%list_elem_of_omap. by exists r. }
  destruct (2 <? length (split_lines content))%nat; [apply Hrows|].
  destruct (search_category content); [apply Hrows|].
  cbn. by intros ?%elem_of_nil.
Qed.

Lemma decode_row_clean flag values : clean_record (decode_row flag values).
Proof.
  assert (Hprivat : clean (str "Privat")).
  { replace (str "Privat") with (cleanText (str "Privat")) by (by vm_compute).
    apply cleanText_clean. }
  unfold clean_record, decode_row. cbn [category startDate startPosition
    endDate endDestination duration fuelConsumption title batteryConsumption
    batteryRegeneration notes].
  split; [|repeat split; apply cleanText_clean].
  destruct (flag && text_eqb _ _); [exact Hprivat | apply cleanText_clean].
Qed.

(** X14. Every record the parser returns has passed its checks and has
    clean texts, whatever the input and in either layout: category and
    start date are not empty; it is not the case that the first odometer
    reading is above the second while the distance is above 0; the two
    readings and the distance are not all 0; and each of the eleven
    text columns is as [cleanText] leaves a text. *)
Theorem X14_parsed_records_are_accepted_and_clean (csv : text) (flag : bool)
    (t : Trip) :
  t ∈ parseCSVData csv flag -> accepted t /\ clean_record t.
Proof.
  intros (r & Hr)%parsed_from_row. unfold row_outcome in Hr.
  destruct (is_empty (trim r)); [done|].
  destruct (14 <=? length (split_on semicolon (trim r)))%nat; [|done].
  set (trip := decode_row flag (split_on semicolon (trim r))) in *.
  destruct (is_empty (category trip) || is_empty (startDate trip)) eqn:E1;
    [done|].
  destruct (gt (odometerStart trip) (odometerEnd trip) && gt (distance trip) zero)
    eqn:E2; [done|].
  destruct (strict_eq (odometerStart trip) zero
            && strict_eq (odometerEnd trip) zero
            && strict_eq (distance trip) zero) eqn:E3; [done|].
  injection Hr as <-. split; [|apply decode_row_clean].
  apply orb_false_elim in E1 as [Hc Hd].
  repeat split.
  - intros H. by rewrite H in Hc.
  - intros H. by rewrite H in Hd.
  - intros [H1 H2]. by rewrite H1, H2 in E2.
  - intros (H1 & H2 & H3). by rewrite H1, H2, H3 in E3.
Qed.

(** X14 on the file with a short row. *)
Lemma X14_parsed_records_are_accepted_and_clean_witness :
  exists t, parseCSVData file_with_short_row false = [t] /\ accepted t.
Proof.
  destruct (parseCSVData file_with_short_row false) as [|t [|]] eqn:Hp;
    try (by vm_compute in Hp).
  exists t. split; [reflexivity|].
  apply (X14_parsed_records_are_accepted_and_clean file_with_short_row false).
  rewrite Hp. by left.
Defined.

(** ** The remapping of [Okategoriserat] *)

Lemma decode_row_remap values :
  decode_row true values = remap (decode_row false values).
Proof. reflexivity. Qed.

Lemma remap_category_empty t :
  is_empty (category (remap t)) = is_empty (category t).
Proof.
  unfold remap. cbn. destruct (text_eqb _ _) eqn:E; [|done].
  apply bool_decide_eq_true in E. by rewrite E.
Qed.

Lemma row_outcome_remap r :
  row_outcome true r = remap <$> row_outcome false r.
Proof.
  unfold row_outcome. destruct (is_empty (trim r)); [done|].
  destruct (14 <=? length (split_on semicolon (trim r)))%nat; [|done].
  rewrite decode_row_remap.
  set (t := decode_row false (split_on semicolon (trim r))).
  rewrite remap_category_empty.
  change (startDate (remap t)) with (startDate t).
  change (odometerStart (remap t)) with (odometerStart t).
  change (odometerEnd (remap t)) with (odometerEnd t).
  change (distance (remap t)) with (distance t).
  destruct (_ || _); [done|]. destruct (gt _ _ && gt _ _); [done|].
  by destruct (_ && _ && _).
Qed.

Lemma omap_fmap_remap (rows : list text) :
  omap (row_outcome true) rows = map remap (omap (row_outcome false) rows).
Proof.
  induction rows as [|r rows IH]; [done|]. cbn.
  rewrite row_outcome_remap. destruct (row_outcome false r); cbn;
    by rewrite IH.
Qed.

(** X15. The remapping flag changes the category [Okategoriserat] into
    [Privat] and nothing else: with the flag on the parser returns the
    records it returns with the flag off, in the same number and order,
    each with that one change.  So with the flag on no record has the
    category [Okategoriserat]. *)
Theorem X15_remapping_changes_the_category_only (csv : text) :
  parseCSVData csv true = map remap (parseCSVData csv false)
  /\ (forall t, t ∈ parseCSVData csv true ->
      category t <> str "Okategoriserat").
Proof.
  assert (Hmap : parseCSVData csv true = map remap (parseCSVData csv false)).
  { unfold parseCSVData, parseCSVData_state.
    destruct (2 <? length (split_lines (clean_content csv)))%nat.
    - rewrite !results_process_rows. cbn. apply omap_fmap_remap.
    - destruct (search_category (clean_content csv)); [|done].
      rewrite !results_process_rows. cbn. apply omap_fmap_remap. }
  split; [exact Hmap|]. intros t. rewrite Hmap.
  intros (t0 & -> & _)%list_elem_of_fmap. unfold remap. cbn [category].
  destruct (text_eqb (category t0) (str "Okategoriserat")) eqn:E.
  - intros H. by vm_compute in H.
  - by apply bool_decide_eq_false in E.
Qed.

(** X15 on a file whose one row has the category [Okategoriserat]. *)
Lemma X15_remapping_changes_the_category_only_witness :
  let csv := str "Category;StartDate" ++ [line_feed]
             ++ str "Okategoriserat;2024-01-01;100;A;2024-01-01;150;B;1h 0m;50;5 l;Trip;0 kWh;0 kWh;"
             ++ [line_feed] in
  map category (parseCSVData csv true) = [str "Privat"]
  /\ map category (parseCSVData csv false) = [str "Okategoriserat"].
Proof.
  intros csv.
  destruct (X15_remapping_changes_the_category_only csv) as [Hmap _].
  rewrite Hmap. by vm_compute.
Defined.

(** ** The header line *)

Lemma split_lines_from_nonempty s : forall cur,
  (1 <= length (split_lines_from cur s))%nat.
Proof.
  induction s as [|c s IH]; intros cur; cbn; [lia|].
  destruct (c =? 10)%N; [cbn; lia|].
  destruct (c =? 13)%N; [|apply IH].
  destruct s as [|d s]; [apply IH|].
  destruct (d =? 10)%N; [cbn; lia | apply IH].
Qed.

(** Up to the first line feed there is one line. *)
Lemma split_lines_first h b : forall cur,
  line_feed ∉ h ->
  exists first,
    split_lines_from cur (h ++ line_feed :: b)
    = first :: split_lines_from [] b.
Proof.
  induction h as [|c h IH]; intros cur Hh.
  - cbn. by eexists.
  - apply not_elem_of_cons in Hh as [Hc Hh].
    change ((c :: h) ++ line_feed :: b) with (c :: (h ++ line_feed :: b)).
    cbn [split_lines_from].
    destruct (N.eqb_spec c 10) as [->|_]; [done|].
    destruct (c =? 13)%N; [|by apply IH].
    pose proof (IH (c :: cur) Hh) as IH'. clear IH.
    destruct (h ++ line_feed :: b) as [|d rest] eqn:E; [by destruct h|].
    destruct (N.eqb_spec d 10) as [->|_]; [|exact IH'].
    destruct h as [|x h]; cbn in E.
    + injection E as <-. by eexists.
    + injection E as -> _. destruct Hh. by left.
Qed.

Lemma clean_content_first h b :
  line_feed ∉ h ->
  exists h',
    (line_feed ∉ h')
    /\ clean_content (h ++ line_feed :: b)
       = h' ++ line_feed :: replace_nbsp (remove_nulls b).
Proof.
  intros Hh. unfold clean_content.
  assert (Hstrip : exists h0, (line_feed ∉ h0)
                     /\ strip_bom (h ++ line_feed :: b) = h0 ++ line_feed :: b).
  { destruct h as [|c h]; [by exists []|]. cbn.
    apply not_elem_of_cons in Hh as [Hc Hh].
    destruct (c =? 65279)%N; [by exists h|].
    exists (c :: h). split; [by apply not_elem_of_cons | done]. }
  destruct Hstrip as (h0 & Hh0 & ->).
  exists (replace_nbsp (remove_nulls h0)). split.
  - unfold replace_nbsp, remove_nulls. intros Hin.
    apply list_elem_of_fmap in Hin as (c & Hc & Hin).
    apply list_elem_of_filter in Hin as [_ Hin].
    destruct (c =? 160)%N; [done|]. by subst c.
  - unfold remove_nulls, replace_nbsp, text.
    rewrite filter_app, filter_cons_True by done.
    by rewrite fmap_app.
Qed.

(** X16. In the line layout the first line is never read as data: when
    the input has a line feed after its first one, so that it has three
    lines or more, the parser returns the same records whatever stands
    before the first line feed.  A file without a header line loses its
    first row. *)
Theorem X16_first_line_is_never_data (h1 h2 body : text) (flag : bool) :
  line_feed ∉ h1 ->
  line_feed ∉ h2 ->
  line_feed ∈ body ->
  parseCSVData (h1 ++ line_feed :: body) flag
  = parseCSVData (h2 ++ line_feed :: body) flag
  /\ parseCSVData (h1 ++ line_feed :: body) flag
     = omap (row_outcome flag) (split_lines (replace_nbsp (remove_nulls body))).
Proof.
  intros H1 H2 Hbody.
  assert (Hlines : (2 <= length (split_lines (replace_nbsp (remove_nulls body))))%nat).
  { assert (Hin : line_feed ∈ replace_nbsp (remove_nulls body)).
    { unfold replace_nbsp, remove_nulls. apply list_elem_of_fmap.
      exists line_feed. split; [done|]. by apply list_elem_of_filter. }
    apply list_elem_of_split_l in Hin as (pre' & post' & Heq & Hno).
    rewrite Heq.
    unfold split_lines.
    destruct (split_lines_first pre' post' [] Hno) as [first ->].
    pose proof (split_lines_from_nonempty post' []). cbn. lia. }
  assert (Hone : forall h, line_feed ∉ h ->
            parseCSVData (h ++ line_feed :: body) flag
            = omap (row_outcome flag)
                (split_lines (replace_nbsp (remove_nulls body)))).
  { intros h Hh. unfold parseCSVData, parseCSVData_state.
    destruct (clean_content_first h body Hh) as (h' & Hh' & ->).
    unfold split_lines at 1 2.
    destruct (split_lines_first h' (replace_nbsp (remove_nulls body)) [] Hh')
      as [first ->].
    fold (split_lines (replace_nbsp (remove_nulls body))).
    cbn [length drop].
    destruct (Nat.ltb_spec 2 (S (length (split_lines (replace_nbsp (remove_nulls body))))));
      [|lia].
    by rewrite results_process_rows. }
  split; [by rewrite !Hone | by apply Hone].
Qed.

(** X16 on a file of two data rows and no header. *)
Lemma X16_first_line_is_never_data_witness :
  let row1 := str "Privat;2024-01-01;100;A;2024-01-01;150;B;1h 0m;50;5 l;Trip;0 kWh;0 kWh;" in
  let row2 := str "Arbete;2024-01-02;150;A;2024-01-02;170;B;0h 20m;20;2 l;Trip;0 kWh;0 kWh;" in
  map startDate (parseCSVData (row1 ++ line_feed :: row2 ++ [line_feed]) false)
  = [str "2024-01-02"].
Proof.
  intros row1 row2.
  destruct (X16_first_line_is_never_data row1 [] (row2 ++ [line_feed]) false)
    as [_ Hrows].
  - apply (bool_decide_unpack _). by vm_compute.
  - by intros ?%elem_of_nil.
  - apply elem_of_app. right. by left.
  - rewrite Hrows. by vm_compute.
Defined.

End RecordProps.

(* ===================================================================== *)
(** * The import route from end to end                                    *)
(* ===================================================================== *)

Module PipelineProps.
Import StoreNotions KeptNotions.
Import JS Store Sqlite Database ImportRoute Statements Maintenance
  ImportPipeline.
Import InsertProps.

Lemma detect_encoding_total bytes :
  is_Some (Encoding.detect_encoding TextDecoder.decode bytes).
Proof.
  unfold Encoding.detect_encoding.
  repeat match goal with
         | |- is_Some (if ?c then _ else _) => destruct c
         end; try (by eexists).
  unfold Encoding.try_or.
  destruct (TextDecoder.decode TextDecoder.utf_8 true bytes); by eexists.
Qed.

Lemma remap_enabled_ready dd check rows seq settings bk ck lg :
  remap_enabled (ready_world dd check rows seq settings bk ck lg)
  = (Ok (remap_setting settings),
     ready_world dd check rows seq settings bk ck lg).
Proof. reflexivity. Qed.

(** An import into a store in order: no error is counted, and every
    trip ends up absorbed. *)
Lemma import_loop_settles trips : forall c dd check rows seq settings bk ck lg,
  exists c' more seq' lg',
    import_loop trips c (ready_world dd check rows seq settings bk ck lg)
    = (Ok c', ready_world dd check (rows ++ more) seq' settings bk ck lg')
    /\ ImportRoute.errors c' = ImportRoute.errors c
    /\ imported c' = (imported c + length more)%nat
    /\ (imported c' + duplicates c'
        = imported c + duplicates c + length trips)%nat
    /\ (forall t, t ∈ trips -> absorbed (rows ++ more) t = true).
Proof.
  induction trips as [|t trips IH];
    intros c dd check rows seq settings bk ck lg.
  - exists c, [], seq, lg. rewrite app_nil_r. cbn.
    repeat split; try lia. intros t Ht. by apply elem_of_nil in Ht.
  - cbn [import_loop]. unfold bind at 1. unfold import_one, try_catch, bind, ret.
    destruct (absorbed rows t) eqn:Habs.
    + rewrite (insert_absorbed t) by done.
      destruct (IH (mkTally (imported c) (S (duplicates c))
                      (ImportRoute.errors c)) dd check rows seq settings bk ck
                  (Sql ROLLBACK :: Sql (INSERT_INTO_trips t)
                   :: Sql BEGIN_TRANSACTION :: lg))
        as (c' & more & seq' & lg' & Hrun & He & Hi & Hsum & Hall).
      exists c', more, seq', lg'. split; [exact Hrun|]. cbn in *.
      repeat split; try lia.
      intros t' [->|Ht']%elem_of_cons; [by apply absorbed_mono | by apply Hall].
    + rewrite (insert_new t) by done.
      destruct (IH (mkTally (S (imported c)) (duplicates c)
                      (ImportRoute.errors c)) dd check
                  (rows ++ [mkStored (seq + 1) t]) (seq + 1) settings bk ck
                  (Sql COMMIT :: Sql (INSERT_INTO_trips t)
                   :: Sql BEGIN_TRANSACTION :: lg))
        as (c' & more & seq' & lg' & Hrun & He & Hi & Hsum & Hall).
      exists c', (mkStored (seq + 1) t :: more), seq', lg'.
      replace (rows ++ mkStored (seq + 1) t :: more)
        with ((rows ++ [mkStored (seq + 1) t]) ++ more)
        by (by rewrite <- app_assoc).
      split; [exact Hrun|]. cbn in *. repeat split; try lia.
      intros t' [->|Ht']%elem_of_cons; [|by apply Hall].
      apply absorbed_mono. by apply absorbed_after_insert.
Qed.

Lemma import_loop_repeats trips : forall c dd check rows seq settings bk ck lg,
  (forall t, t ∈ trips -> absorbed rows t = true) ->
  exists lg',
    import_loop trips c (ready_world dd check rows seq settings bk ck lg)
    = (Ok (mkTally (imported c) (duplicates c + length trips)
             (ImportRoute.errors c)),
       ready_world dd check rows seq settings bk ck lg').
Proof.
  induction trips as [|t trips IH];
    intros c dd check rows seq settings bk ck lg Hall.
  - exists lg. cbn. rewrite Nat.add_0_r. by destruct c.
  - cbn [import_loop]. unfold bind at 1. unfold import_one, try_catch, bind, ret.
    rewrite (insert_absorbed t) by (apply Hall; by left).
    destruct (IH (mkTally (imported c) (S (duplicates c))
                    (ImportRoute.errors c)) dd check rows seq settings bk ck
                (Sql ROLLBACK :: Sql (INSERT_INTO_trips t)
                 :: Sql BEGIN_TRANSACTION :: lg))
      as (lg' & Hrun); [intros t' Ht'; apply Hall; by right|].
    exists lg'. rewrite Hrun. cbn [imported duplicates ImportRoute.errors length].
    by rewrite Nat.add_succ_r.
Qed.

(** X17. An upload imported twice is stored once.  On a store in order
    the handler decodes the bytes, parses the text with the remapping
    flag that the settings give, and inserts the records: it counts no
    error, imported + duplicates is the number of records parsed, the
    table grows by the imported ones at its end, and the settings stay
    as they are.  The same bytes uploaded again give the same records,
    all of them counted as duplicates, and the table does not change.
    The flag is on exactly when the stored value is the string [true]. *)
Theorem X17_upload_imported_twice_is_stored_once (bytes : list Byte.byte)
    (dd : bool) (check : string) (rows : list StoredTrip) (seq : Z)
    (settings : list (text * text)) (bk : gmap Z file) (ck : list Z)
    (lg : list event) :
  exists csv c1 more seq1 lg1 lg2,
    Encoding.detect_encoding TextDecoder.decode bytes = Some csv
    /\ let trips := CsvParser.parseCSVData csv (remap_setting settings) in
       import_upload bytes (ready_world dd check rows seq settings bk ck lg)
       = (Ok c1, ready_world dd check (rows ++ more) seq1 settings bk ck lg1)
       /\ ImportRoute.errors c1 = 0%nat
       /\ (imported c1 + duplicates c1 = length trips)%nat
       /\ imported c1 = length more
       /\ import_upload bytes
            (ready_world dd check (rows ++ more) seq1 settings bk ck lg1)
          = (Ok (mkTally 0 (length trips) 0),
             ready_world dd check (rows ++ more) seq1 settings bk ck lg2)
       /\ (remap_setting settings = true
           <-> find_setting (str "mapOkategoriseratToPrivat") settings
               = Some (str "true")).
Proof.
  destruct (detect_encoding_total bytes) as [csv Hcsv].
  set (trips := CsvParser.parseCSVData csv (remap_setting settings)).
  destruct (import_loop_settles trips (mkTally 0 0 0) dd check rows seq settings
              bk ck lg)
    as (c1 & more & seq1 & lg1 & Hrun & He & Hi & Hsum & Hall).
  destruct (import_loop_repeats trips (mkTally 0 0 0) dd check (rows ++ more)
              seq1 settings bk ck lg1 Hall) as (lg2 & Hagain).
  exists csv, c1, more, seq1, lg1, lg2. split; [exact Hcsv|].
  cbv zeta. fold trips. unfold import_upload. rewrite Hcsv.
  unfold bind. rewrite !remap_enabled_ready. fold trips.
  unfold import_trips. split; [exact Hrun|]. split; [exact He|].
  split; [cbn in Hsum; lia|]. split; [cbn in Hi; lia|].
  split; [exact Hagain|].
  unfold remap_setting, value_or_null.
  destruct (find_setting _ settings) as [v|]; [|done].
  destruct v as [|x v].
  - split; [done|]. intros H. by vm_compute in H.
  - cbn [is_empty]. unfold text_eqb. rewrite bool_decide_eq_true.
    split; [by intros -> | congruence].
Qed.

End PipelineProps.

(* ===================================================================== *)
(** * More on the encoding detector                                       *)
(* ===================================================================== *)

Module DecodingProps.
Import EncodingNotions EncodedNotions.
Import JS Encoding.
Import TextDecoder(label, utf_16le, utf_16be, utf_8, iso_8859_1, windows_1252).
Import EncodingProps.

Local Open Scope N_scope.

Lemma utf8_run_ascii bs :
  Forall (λ b, b < 128) bs ->
  TextDecoder.utf8_run TextDecoder.utf8_init bs = map Some bs.
Proof.
  induction bs as [|b bs IH]; [done|]. intros [Hb Hbs]%Forall_cons.
  cbn [TextDecoder.utf8_run]. unfold TextDecoder.utf8_init at 1.
  cbn [TextDecoder.utf8_step]. unfold TextDecoder.utf8_first.
  destruct (N.leb_spec b 127); [|lia]. cbn. by rewrite IH.
Qed.

Lemma mapM_Some {A} (l : list A) : mapM id (map Some l) = Some l.
Proof. induction l as [|x l IH]; [done|]. cbn. by rewrite IH. Qed.

Lemma byte_is_high bytes i (b : Byte.byte) :
  Forall (λ x, Byte.to_N x < 128) bytes ->
  128 <= Byte.to_N b ->
  byte_is bytes i b = false.
Proof.
  intros Hall Hb. apply not_true_is_false. intros H.
  apply byte_is_spec in H. rewrite Forall_forall in Hall.
  apply list_elem_of_lookup_2 in H. specialize (Hall _ H). lia.
Qed.

(** X18. An upload of plain ASCII decodes to itself: when every byte is
    below 0x80 the detector takes the strict UTF-8 path and returns one
    character for each byte, with the value of the byte. *)
Theorem X18_ascii_upload_decodes_to_itself (bytes : list Byte.byte) :
  Forall (λ b, Byte.to_N b < 128) bytes ->
  detect_encoding TextDecoder.decode bytes = Some (map Byte.to_N bytes).
Proof.
  intros Hall. unfold detect_encoding.
  rewrite (byte_is_high bytes 0 Byte.xff), (byte_is_high bytes 0 Byte.xfe),
    (byte_is_high bytes 0 Byte.xef) by (done || (vm_compute; discriminate)).
  cbn [andb]. unfold try_or, TextDecoder.decode, TextDecoder.run.
  rewrite utf8_run_ascii by (by apply Forall_fmap).
  rewrite mapM_Some. cbn [fmap option_fmap option_map TextDecoder.drop_mark].
  f_equal. destruct bytes as [|b bytes]; [done|]. cbn.
  apply Forall_cons in Hall as [Hb _].
  destruct (N.eqb_spec (Byte.to_N b) 65279); [lia | done].
Qed.

(** X18 on the bytes of [a;b]. *)
Lemma X18_ascii_upload_decodes_to_itself_witness :
  detect_encoding TextDecoder.decode [Byte.x61; Byte.x3b; Byte.x62]
  = Some (str "a;b").
Proof.
  rewrite X18_ascii_upload_decodes_to_itself; [reflexivity|].
  repeat constructor.
Defined.

(** ** UTF-16 *)

Lemma byte_of_to_N n : n < 256 -> Byte.to_N (byte_of n) = n.
Proof.
  intros Hn. unfold byte_of.
  destruct (Byte.of_N n) as [b|] eqn:E.
  - cbn. by apply Byte.to_of_N.
  - apply Byte.of_N_None_iff in E. lia.
Qed.

Lemma utf16_units_encoded s :
  Forall basic s ->
  TextDecoder.utf16_units false (map Byte.to_N (utf16le_bytes s)) = (s, false).
Proof.
  induction s as [|c s IH]; [done|]. intros [[Hc _] Hs]%Forall_cons.
  cbn [utf16le_bytes flat_map app map TextDecoder.utf16_units].
  fold (utf16le_bytes s). rewrite IH by done.
  rewrite !byte_of_to_N
    by (first [apply N.mod_lt; lia | apply N.Div0.div_lt_upper_bound; lia]).
  f_equal. f_equal. rewrite (N.div_mod c 256) at 3 by lia. lia.
Qed.

Lemma utf16_run_basic s :
  Forall basic s -> TextDecoder.utf16_run None false s = map Some s.
Proof.
  induction s as [|c s IH]; [done|]. intros [[Hc Hsur] Hs]%Forall_cons.
  cbn [TextDecoder.utf16_run]. unfold TextDecoder.is_lead, TextDecoder.is_trail.
  destruct (N.leb_spec 55296 c), (N.leb_spec c 56319),
    (N.leb_spec 56320 c), (N.leb_spec c 57343); cbn; try lia;
    by rewrite IH.
Qed.

(** X19. A text written as UTF-16LE after the mark FF FE is read back
    as it was: for every text of characters of the basic plane, none of
    them a surrogate, that does not itself start with a byte-order mark,
    the detector returns the text.  (A byte-order mark at the start of
    the text would be dropped by the decoder.) *)
Theorem X19_utf16le_upload_is_read_back (s : text) :
  Forall basic s ->
  head s <> Some 65279 ->
  detect_encoding TextDecoder.decode
    (Byte.xff :: Byte.xfe :: utf16le_bytes s)
  = Some s.
Proof.
  intros Hs Hhead. unfold detect_encoding. cbn [byte_is lookup list_lookup].
  change (Byte.eqb Byte.xff Byte.xff) with true.
  change (Byte.eqb Byte.xfe Byte.xfe) with true. cbn [andb drop].
  unfold TextDecoder.decode, TextDecoder.run. rewrite drop_0.
  rewrite utf16_units_encoded, utf16_run_basic by done.
  rewrite map_map. cbn [default from_option Datatypes.id].
  rewrite map_id. cbn [TextDecoder.drop_mark]. f_equal.
  destruct s as [|c s]; [done|]. cbn.
  destruct (N.eqb_spec c 65279) as [->|]; [by destruct Hhead | done].
Qed.

(** X19 on a header with Swedish letters. *)
Lemma X19_utf16le_upload_is_read_back_witness :
  let s := str "Kategori;Startposition;F" ++ [246; 114] ++ str "br" in
  detect_encoding TextDecoder.decode (Byte.xff :: Byte.xfe :: utf16le_bytes s)
  = Some s.
Proof.
  intros s. apply X19_utf16le_upload_is_read_back.
  - apply Forall_forall. intros c Hc.
    assert (Hlt : c < 256).
    { revert c Hc. apply Forall_forall. apply (bool_decide_unpack _).
      by vm_compute. }
    unfold basic. lia.
  - by vm_compute.
Defined.

(** ** The fallback *)

Lemma lookup_map {A B} (f : A -> B) l : forall i,
  map f l !! i = f <$> l !! i.
Proof. induction l as [|x l IH]; intros [|i]; cbn; auto. Qed.

(** X20. A file without a mark that is not UTF-8 is read byte by byte:
    the detector returns one character for each byte, by the
    windows-1252 table, which is what the label [iso-8859-1] names; a
    byte below 0x80 or from 0xA0 on gives the character with its own
    value, so that the Swedish letters of a Latin-1 file come out
    right.  The third decoder of the chain is never reached. *)
Theorem X20_fallback_reads_byte_by_byte (bytes : list Byte.byte) :
  ~ has_mark bytes ->
  TextDecoder.decode utf_8 true bytes = None ->
  detect_encoding TextDecoder.decode bytes
  = Some (map (λ b, TextDecoder.windows_1252_point (Byte.to_N b)) bytes)
  /\ (forall i b,
      bytes !! i = Some b ->
      Byte.to_N b < 128 \/ 160 <= Byte.to_N b ->
      exists t, detect_encoding TextDecoder.decode bytes = Some t
                /\ t !! i = Some (Byte.to_N b)).
Proof.
  intros Hmark Hutf8.
  assert (Hrun : detect_encoding TextDecoder.decode bytes
                 = Some (map (λ b, TextDecoder.windows_1252_point (Byte.to_N b))
                           bytes)).
  { unfold detect_encoding.
    destruct (no_mark_tests bytes Hmark) as (-> & -> & ->).
    unfold try_or. rewrite Hutf8. unfold TextDecoder.decode, TextDecoder.run.
    cbn [TextDecoder.drop_mark]. by rewrite !map_map. }
  split; [exact Hrun|]. intros i b Hi Hb. eexists. split; [exact Hrun|].
  pose proof (lookup_map (λ b, TextDecoder.windows_1252_point (Byte.to_N b))
                bytes i) as Hl.
  rewrite Hi in Hl. etrans; [exact Hl|]. cbn. f_equal.
  unfold TextDecoder.windows_1252_point.
  destruct (N.leb_spec 128 (Byte.to_N b)), (N.leb_spec (Byte.to_N b) 159);
    cbn; try done; lia.
Qed.

(** X20 on the Latin-1 bytes of a word with three Swedish letters. *)
Lemma X20_fallback_reads_byte_by_byte_witness :
  detect_encoding TextDecoder.decode [Byte.xe5; Byte.xe4; Byte.xf6]
  = Some [229; 228; 246].
Proof.
  destruct (X20_fallback_reads_byte_by_byte [Byte.xe5; Byte.xe4; Byte.xf6])
    as [Hrun _].
  - intros [[rest H]|[[rest H]|[rest H]]]; discriminate.
  - by vm_compute.
  - rewrite Hrun. by vm_compute.
Defined.

End DecodingProps.

(* ===================================================================== *)
(** * The end day of the date filter                                      *)
(* ===================================================================== *)

Module EndDayProps.
Import StoreNotions DateNotions.
Import JS Store Sqlite Database JSDate.

(** ** Dates and day numbers *)

Lemma check_400_years : forallb check_year (seqZ 0 400) = true.
Proof. vm_cast_no_check (eq_refl true). Qed.

Lemma forallb_seqZ (f : Z -> bool) (start len x : Z) :
  forallb f (seqZ start len) = true ->
  start <= x < start + len -> f x = true.
Proof.
  intros Hall Hx. rewrite forallb_forall in Hall. apply Hall.
  apply list_elem_of_In, elem_of_seqZ. lia.
Qed.

Lemma days_in_month_bounds y m : 28 <= days_in_month y m <= 31.
Proof.
  unfold days_in_month.
  destruct (m =? 2); [destruct (is_leap y); lia|].
  destruct (_ || _); lia.
Qed.

Lemma same_date_eq a b : same_date a b = true -> a = b.
Proof.
  destruct a as [[y1 m1] d1], b as [[y2 m2] d2]. cbn.
  intros [[H1 H2]%andb_prop H3]%andb_prop.
  apply Z.eqb_eq in H1, H2, H3. by subst.
Qed.

Lemma check_year_date y m d :
  check_year y = true ->
  1 <= m <= 12 -> 1 <= d <= days_in_month y m ->
  check_date y m d = true.
Proof.
  unfold check_year. intros Hyear Hm Hd.
  pose proof (days_in_month_bounds y m).
  apply (forallb_seqZ _ 1 12 m) in Hyear; [|lia].
  apply (forallb_seqZ _ 1 31 d) in Hyear; [|lia].
  apply orb_prop in Hyear as [Hlt|Hdate]; [|exact Hdate].
  apply Z.ltb_lt in Hlt. lia.
Qed.

Lemma checked_date y m d :
  0 <= y < 400 -> 1 <= m <= 12 -> 1 <= d <= days_in_month y m ->
  civil_from_days (days_from_civil y m d) = (y, m, d)
  /\ civil_from_days (days_from_civil y m d + 1) = day_after y m d.
Proof.
  intros Hy Hm Hd.
  assert (Hyear : check_year y = true)
    by (apply (forallb_seqZ _ 0 400 y check_400_years); lia).
  pose proof (check_year_date y m d Hyear Hm Hd) as Hdate.
  unfold check_date in Hdate. apply andb_prop in Hdate as [H1 H2].
  split; by apply same_date_eq.
Qed.

(** Four hundred years are 146097 days. *)
Lemma days_from_civil_period y m d k :
  days_from_civil (y + 400 * k) m d = days_from_civil y m d + 146097 * k.
Proof.
  assert (Hera : forall y', (y' + 400 * k) / 400 = y' / 400 + k).
  { intros y'. rewrite (Z.mul_comm 400 k). by apply Z.div_add. }
  unfold days_from_civil. destruct (m <=? 2); cbv zeta.
  - replace (y + 400 * k - 1) with (y - 1 + 400 * k) by lia. rewrite Hera.
    replace (y - 1 + 400 * k - ((y - 1) / 400 + k) * 400)
      with (y - 1 - (y - 1) / 400 * 400) by lia.
    lia.
  - rewrite Hera.
    replace (y + 400 * k - (y / 400 + k) * 400) with (y - y / 400 * 400)
      by lia.
    lia.
Qed.

Lemma civil_from_days_period z k :
  civil_from_days (z + 146097 * k)
  = let '(y, m, d) := civil_from_days z in (y + 400 * k, m, d).
Proof.
  unfold civil_from_days. cbv zeta.
  replace (z + 146097 * k + 719468) with (z + 719468 + k * 146097) by lia.
  rewrite Z.div_add by done.
  replace (z + 719468 + k * 146097 - ((z + 719468) / 146097 + k) * 146097)
    with (z + 719468 - (z + 719468) / 146097 * 146097) by lia.
  set (doe := z + 719468 - (z + 719468) / 146097 * 146097).
  set (yoe := (doe - doe / 1460 + doe / 36524 - doe / 146096) / 365).
  set (mp := (5 * (doe - (365 * yoe + yoe / 4 - yoe / 100)) + 2) / 153).
  destruct (mp <? 10); cbn; destruct (_ <=? 2); f_equal; f_equal; lia.
Qed.

Lemma days_in_month_period y m k :
  days_in_month (y + 400 * k) m = days_in_month y m.
Proof.
  unfold days_in_month, is_leap.
  replace ((y + 400 * k) mod 4) with (y mod 4)
    by (replace (y + 400 * k) with (y + (100 * k) * 4) by lia;
        by rewrite Z_mod_plus_full).
  replace ((y + 400 * k) mod 100) with (y mod 100)
    by (replace (y + 400 * k) with (y + (4 * k) * 100) by lia;
        by rewrite Z_mod_plus_full).
  replace ((y + 400 * k) mod 400) with (y mod 400)
    by (replace (y + 400 * k) with (y + k * 400) by lia;
        by rewrite Z_mod_plus_full).
  reflexivity.
Qed.

Lemma day_after_period y m d k :
  day_after (y + 400 * k) m d
  = let '(y', m', d') := day_after y m d in (y' + 400 * k, m', d').
Proof.
  unfold day_after. rewrite days_in_month_period.
  destruct (d <? days_in_month y m); [done|].
  destruct (m <? 12); [done|]. f_equal. f_equal. lia.
Qed.

(** The day number of a date gives the date back, and the next day
    number is the day after. *)
Lemma civil_round_trip y m d :
  0 <= y -> 1 <= m <= 12 -> 1 <= d <= days_in_month y m ->
  civil_from_days (days_from_civil y m d) = (y, m, d)
  /\ civil_from_days (days_from_civil y m d + 1) = day_after y m d.
Proof.
  intros Hy Hm Hd.
  assert (Hsplit : y = y mod 400 + 400 * (y / 400))
    by (pose proof (Z.div_mod y 400); lia).
  set (y0 := y mod 400) in *. set (k := y / 400) in *.
  assert (Hy0 : 0 <= y0 < 400) by (apply Z.mod_pos_bound; lia).
  rewrite Hsplit in Hd |- *. rewrite days_in_month_period in Hd.
  destruct (checked_date y0 m d Hy0 Hm Hd) as [Hback Hnext].
  rewrite days_from_civil_period, day_after_period.
  replace (days_from_civil y0 m d + 146097 * k + 1)
    with (days_from_civil y0 m d + 1 + 146097 * k) by lia.
  rewrite !civil_from_days_period, Hback, Hnext. split; [done|].
  by destruct (day_after y0 m d) as [[y' m'] d'].
Qed.

(** ** Dates and their texts *)

Lemma check_digits_4 : forallb (check_digits 4) (seqZ 0 9999) = true.
Proof. vm_cast_no_check (eq_refl true). Qed.

Lemma check_digits_2 : forallb (check_digits 2) (seqZ 0 99) = true.
Proof. vm_cast_no_check (eq_refl true). Qed.

Lemma checked_digits width n :
  check_digits width n = true ->
  decimal 0 (digits width n) = Some n
  /\ before (digits width n) (digits width (n + 1)) = true.
Proof.
  unfold check_digits. intros [H1 H2]%andb_prop. split; [|exact H2].
  destruct (decimal 0 (digits width n)) as [v|]; [|done].
  apply Z.eqb_eq in H1. by subst.
Qed.

Lemma digits_4 y :
  0 <= y < 9999 ->
  decimal 0 (digits 4 y) = Some y
  /\ before (digits 4 y) (digits 4 (y + 1)) = true.
Proof.
  intros Hy. apply checked_digits.
  apply (forallb_seqZ _ 0 9999 y check_digits_4). lia.
Qed.

Lemma digits_2 n :
  0 <= n < 99 ->
  decimal 0 (digits 2 n) = Some n
  /\ before (digits 2 n) (digits 2 (n + 1)) = true.
Proof.
  intros Hn. apply checked_digits.
  apply (forallb_seqZ _ 0 99 n check_digits_2). lia.
Qed.

Lemma parse_date_text y m d :
  valid_date y m d -> (y, m, d) <> (9999, 12, 31) ->
  parse (date_text y m d) = Some (days_from_civil y m d * msPerDay).
Proof.
  intros (Hy & Hm & Hd) Hlast.
  pose proof (days_in_month_bounds y m) as Hdim.
  assert (Hparse : parse (date_text y m d)
                   = (y' ← decimal 0 (digits 4 y);
                      m' ← decimal 0 (digits 2 m);
                      d' ← decimal 0 (digits 2 d);
                      if (1 <=? m') && (m' <=? 12) && (1 <=? d')
                         && (d' <=? days_in_month y' m')
                      then Some (days_from_civil y' m' d' * msPerDay)
                      else None)) by reflexivity.
  rewrite Hparse.
  destruct (decide (y = 9999)) as [->|Hne].
  - replace (decimal 0 (digits 4 9999)) with (Some 9999) by (by vm_compute).
    destruct (digits_2 m ltac:(lia)) as [-> _].
    destruct (digits_2 d ltac:(lia)) as [-> _]. cbn.
    destruct (Z.leb_spec 1 m), (Z.leb_spec m 12), (Z.leb_spec 1 d),
      (Z.leb_spec d (days_in_month 9999 m)); try lia. reflexivity.
  - destruct (digits_4 y ltac:(lia)) as [-> _].
    destruct (digits_2 m ltac:(lia)) as [-> _].
    destruct (digits_2 d ltac:(lia)) as [-> _]. cbn.
    destruct (Z.leb_spec 1 m), (Z.leb_spec m 12), (Z.leb_spec 1 d),
      (Z.leb_spec d (days_in_month y m)); try lia. reflexivity.
Qed.

Lemma days_from_civil_next y m d :
  days_from_civil y m 1 + (d + 1) - 1 = days_from_civil y m d + 1.
Proof. unfold days_from_civil. cbv zeta. lia. Qed.

Lemma next_day_date_text y m d y' m' d' :
  valid_date y m d -> (y, m, d) <> (9999, 12, 31) ->
  day_after y m d = (y', m', d') ->
  0 <= y' <= 9999 ->
  next_day (date_text y m d) = Some (date_text y' m' d').
Proof.
  intros Hvalid Hlast Hafter Hy'. unfold next_day.
  rewrite parse_date_text by done. cbn [fmap option_fmap option_map].
  f_equal. destruct Hvalid as (Hy & Hm & Hd).
  destruct (civil_round_trip y m d ltac:(lia) Hm Hd) as [Hback Hnext].
  assert (Hset : setDate_next (days_from_civil y m d * msPerDay)
                 = (days_from_civil y m d + 1) * msPerDay).
  { unfold setDate_next, LocalTZA. rewrite Z.add_0_r.
    rewrite Z.div_mul, Z.mod_mul by done. rewrite Hback.
    rewrite days_from_civil_next. lia. }
  rewrite Hset. unfold iso_date.
  rewrite Z.div_mul by done. rewrite Hnext, Hafter.
  destruct (Z.leb_spec 0 y'), (Z.leb_spec y' 9999); try lia. reflexivity.
Qed.

(** ** Dates and the order of texts *)

Lemma before_ltb a : forall b s t,
  before a b = true -> text_ltb (a ++ s) (b ++ t) = true.
Proof.
  unfold text_ltb.
  induction a as [|x a IH]; intros [|y b] s t; cbn; try done.
  intros [Hlt|[Heq Hab]%andb_prop]%orb_prop.
  - apply N.ltb_lt in Hlt.
    assert ((y <? x)%N = false) as -> by (apply N.ltb_ge; lia).
    assert ((y =? x)%N = false) as -> by (apply N.eqb_neq; lia). done.
  - apply N.eqb_eq in Heq. subst y. rewrite N.ltb_irrefl, N.eqb_refl. cbn.
    by apply IH.
Qed.

Lemma ltb_same_start p a b : text_ltb (p ++ a) (p ++ b) = text_ltb a b.
Proof.
  unfold text_ltb. f_equal. induction p as [|x p IH]; [done|]. cbn.
  by rewrite N.ltb_irrefl, N.eqb_refl.
Qed.

Lemma ltb_own_start a s : text_ltb (a ++ s) a = false.
Proof.
  unfold text_ltb. apply negb_false_iff.
  induction a as [|x a IH]; [done|]. cbn.
  by rewrite N.eqb_refl, IH, orb_true_r.
Qed.

Lemma date_text_before y m d y' m' d' time :
  valid_date y m d -> (y, m, d) <> (9999, 12, 31) ->
  day_after y m d = (y', m', d') ->
  text_ltb (date_text y m d ++ time) (date_text y' m' d') = true.
Proof.
  intros (Hy & Hm & Hd) Hlast.
  pose proof (days_in_month_bounds y m) as Hdim.
  unfold day_after, date_text. rewrite <- !app_assoc.
  destruct (Z.ltb_spec d (days_in_month y m)); [|destruct (Z.ltb_spec m 12)];
    intros [= <- <- <-].
  - rewrite ltb_same_start. rewrite (ltb_same_start [45%N]).
    rewrite ltb_same_start. rewrite (ltb_same_start [45%N]).
    rewrite <- (app_nil_r (digits 2 (d + 1))).
    apply before_ltb. apply digits_2. lia.
  - rewrite ltb_same_start. rewrite (ltb_same_start [45%N]).
    apply before_ltb. apply digits_2. lia.
  - apply before_ltb. apply digits_4.
    assert (y <> 9999); [|lia]. intros ->.
    assert (m = 12) as -> by lia.
    assert (d = 31) as ->; [|done].
    change (days_in_month 9999 12) with 31 in *. lia.
Qed.

(** X21. The date-to filter keeps the whole end day, for every date of
    the calendar.  For a day of the years 0 to 9999 other than the last
    one, written [YYYY-MM-DD], the bound that [getTrips] makes is the
    text of the next calendar day, across the ends of months and years
    and in leap years; a trip whose start date begins with the end day,
    whatever time follows, passes the filter, and one whose start date
    begins with the day after does not. *)
Theorem X21_end_day_is_kept_whole (y m d : Z) :
  valid_date y m d ->
  (y, m, d) <> (9999, 12, 31) ->
  let '(y', m', d') := day_after y m d in
  JSDate.next_day (date_text y m d) = Some (date_text y' m' d')
  /\ build_conditions [] [] (date_text y m d)
     = Some [StartDateLt (date_text y' m' d')]
  /\ (forall r time,
      startDate (trip r) = date_text y m d ++ time ->
      in_filter [] [] (date_text y m d) r = true)
  /\ (forall r time,
      startDate (trip r) = date_text y' m' d' ++ time ->
      in_filter [] [] (date_text y m d) r = false).
Proof.
  intros Hvalid Hlast.
  destruct (day_after y m d) as [[y' m'] d'] eqn:Hafter.
  assert (Hy' : 0 <= y' <= 9999).
  { destruct Hvalid as (Hy & Hm & Hd). unfold day_after in Hafter.
    destruct (Z.ltb_spec d (days_in_month y m)); [|destruct (Z.ltb_spec m 12)];
      injection Hafter as <- <- <-; try lia.
    assert (y <> 9999); [|lia]. intros ->.
    assert (m = 12) as -> by lia.
    assert (d = 31) as ->; [|done].
    change (days_in_month 9999 12) with 31 in *. lia. }
  pose proof (next_day_date_text y m d y' m' d' Hvalid Hlast Hafter Hy')
    as Hnext.
  assert (Hfilter : forall r,
            in_filter [] [] (date_text y m d) r
            = text_ltb (startDate (trip r)) (date_text y' m' d')).
  { intros r. unfold in_filter, end_bound.
    change (is_empty (date_text y m d)) with false. by rewrite Hnext. }
  split; [exact Hnext|]. split; [|split].
  - unfold build_conditions.
    change (is_empty (date_text y m d)) with false. by rewrite Hnext.
  - intros r time Hstart. rewrite Hfilter, Hstart.
    by apply date_text_before.
  - intros r time Hstart. rewrite Hfilter, Hstart. apply ltb_own_start.
Qed.

(** X21 on the last day of February in a leap year. *)
Lemma X21_end_day_is_kept_whole_witness :
  JSDate.next_day (str "2024-02-29") = Some (str "2024-03-01")
  /\ text_ltb (str "2024-02-29 23:59") (str "2024-03-01") = true.
Proof.
  assert (Hvalid : valid_date 2024 2 29) by (by vm_compute).
  assert (Hlast : (2024, 2, 29) <> (9999, 12, 31)) by done.
  pose proof (X21_end_day_is_kept_whole 2024 2 29 Hvalid Hlast) as H.
  replace (day_after 2024 2 29) with (2024, 3, 1) in H by (by vm_compute).
  destruct H as (Hnext & _). split; [exact Hnext | by vm_compute].
Defined.

End EndDayProps.

(* ===================================================================== *)
(** * The name of the upload                                              *)
(* ===================================================================== *)

Module UploadProps.
Import UploadNotions.
Import JS Upload.

Lemma scan_plain rb : forall rest st,
  Forall (λ c, c ≠ slash /\ c ≠ dot) rb -> rb <> [] ->
  startDot st = None ->
  extname_scan (rb ++ rest) st
  = extname_scan rest (set_end (length (rb ++ rest)) st).
Proof.
  induction rb as [|c rb IH]; intros rest st Hrb Hne Hdot; [done|].
  apply Forall_cons in Hrb as [[Hs Hd] Hrb].
  cbn [app extname_scan length].
  destruct (N.eqb_spec c 47) as [|_]; [done|].
  destruct (N.eqb_spec c 46) as [|_]; [done|].
  fold (set_end (S (length (rb ++ rest))) st).
  assert (Hdot1 : startDot (set_end (S (length (rb ++ rest))) st) = None)
    by (unfold set_end; by destruct (end_ st)).
  rewrite Hdot1.
  destruct rb as [|c' rb]; [reflexivity|].
  rewrite IH by done. f_equal. unfold set_end.
  destruct (end_ st) eqn:E; cbn; rewrite ?E; reflexivity.
Qed.

Lemma scan_rest ra : forall st,
  Forall (λ c, c ≠ slash) ra ->
  is_Some (startDot st) -> is_Some (end_ st) ->
  extname_scan ra st
  = mkScan (startDot st) (startPart st) (end_ st) (matchedSlash st)
      (match last ra with
       | None => preDotState st
       | Some c => if (c =? 46)%N then 1 else -1
       end).
Proof.
  induction ra as [|c ra IH]; intros [sd sp en ms pds] Hra [d Hd] [e He];
    cbn in Hd, He; subst sd en; [done|].
  apply Forall_cons in Hra as [Hs Hra].
  cbn [extname_scan end_ startDot startPart matchedSlash preDotState].
  destruct (N.eqb_spec c 47) as [|_]; [done|].
  rewrite last_cons.
  destruct (c =? 46)%N eqn:Ec.
  - destruct (Z.eqb_spec pds 1) as [->|_]; rewrite IH by (done || by eexists);
      cbn; destruct (last ra); by rewrite ?Ec.
  - rewrite IH by (done || by eexists). cbn.
    destruct (last ra); by rewrite ?Ec.
Qed.

(** The scan of a name without a slash whose last dot is followed by
    [b]. *)
Lemma scan_dotted a b :
  Forall (λ c, c ≠ slash) a ->
  Forall (λ c, c ≠ slash /\ c ≠ dot) b ->
  extname_scan (rev (a ++ dot :: b)) start
  = mkScan (Some (length a)) 0 (Some (length a + 1 + length b)%nat) false
      (match head a with
       | None => 0
       | Some c => if (c =? 46)%N then 1 else -1
       end).
Proof.
  intros Ha Hb.
  assert (Hra : Forall (λ c, c ≠ slash) (rev a)).
  { apply Forall_forall. intros c Hc. rewrite Forall_forall in Ha.
    apply Ha. apply list_elem_of_In. apply in_rev.
    by apply list_elem_of_In. }
  assert (Hlast : last (rev a) = head a).
  { destruct a as [|x a]; [done|]. cbn. by rewrite last_snoc. }
  rewrite rev_app_distr. cbn [rev]. rewrite <- app_assoc. cbn [app].
  destruct b as [|x b].
  - cbn [rev app extname_scan]. change (dot =? 47)%N with false.
    change (dot =? 46)%N with true. cbn.
    rewrite scan_rest by (done || by eexists). cbn.
    rewrite length_rev, Hlast. do 2 f_equal. lia.
  - assert (Hrb : rev (x :: b) <> [])
      by (cbn [rev]; by destruct (rev b)).
    rewrite scan_plain; [| |done |done].
    + cbn [extname_scan]. change (dot =? 47)%N with false.
      change (dot =? 46)%N with true. cbn.
      rewrite scan_rest by (done || by eexists). cbn.
      rewrite !length_app, !length_rev, Hlast. cbn. rewrite length_rev.
      do 2 f_equal. lia.
    + apply Forall_forall. intros c Hc. rewrite Forall_forall in Hb.
      apply Hb. apply list_elem_of_In. apply in_rev.
      by apply list_elem_of_In.
Qed.

Lemma scan_dotless p :
  Forall (λ c, c ≠ slash /\ c ≠ dot) p ->
  startDot (extname_scan (rev p) start) = None.
Proof.
  intros Hp. destruct p as [|x p]; [done|].
  rewrite <- (app_nil_r (rev (x :: p))).
  assert (Hrp : rev (x :: p) <> []) by (cbn [rev]; by destruct (rev p)).
  rewrite scan_plain; [done| |done |done].
  apply Forall_forall. intros c Hc. rewrite Forall_forall in Hp.
  apply Hp. apply list_elem_of_In. apply in_rev. by apply list_elem_of_In.
Qed.

(** [path.extname] on a name without a slash: from the last dot on,
    unless there is no dot, the last dot is the first character, or the
    name is [..]. *)
Lemma extname_dotted a b :
  Forall (λ c, c ≠ slash) a ->
  Forall (λ c, c ≠ slash /\ c ≠ dot) b ->
  extname (a ++ dot :: b)
  = if bool_decide (a = [] \/ (a = [dot] /\ b = [])) then [] else dot :: b.
Proof.
  intros Ha Hb. unfold extname. rewrite scan_dotted by done.
  cbn [startDot end_ preDotState startPart].
  rewrite drop_app_length.
  rewrite take_ge by (cbn [length]; lia).
  assert (Hcond :
    (match head a with
     | Some c => if (c =? 46)%N then 1 else -1
     | None => 0
     end =? 0)
    || (match head a with
        | Some c => if (c =? 46)%N then 1 else -1
        | None => 0
        end =? 1)
       && (length a =? length a + 1 + length b - 1)%nat
       && (length a =? 0 + 1)%nat
    = bool_decide (a = [] \/ (a = [dot] /\ b = []))).
  { destruct a as [|x a].
    - by rewrite bool_decide_eq_true_2 by (by left).
    - cbn [head length]. destruct (N.eqb_spec x 46) as [->|Hx].
      + change (1 =? 0) with false. change (1 =? 1) with true.
        cbn [orb andb].
        destruct a as [|y a], b as [|z b]; cbn [length].
        * by rewrite bool_decide_eq_true_2 by (by right).
        * rewrite bool_decide_eq_false_2 by (intros [|[_ ?]]; done).
          apply andb_false_intro1. apply Nat.eqb_neq. lia.
        * rewrite bool_decide_eq_false_2 by (intros [|[? _]]; done).
          apply andb_false_intro2. apply Nat.eqb_neq. lia.
        * rewrite bool_decide_eq_false_2 by (intros [|[? _]]; done).
          apply andb_false_intro2. apply Nat.eqb_neq. lia.
      + change (-1 =? 0) with false. change (-1 =? 1) with false.
        cbn [orb andb].
        by rewrite bool_decide_eq_false_2 by (intros [|[[= ->] _]]; done). }
  rewrite Hcond. reflexivity.
Qed.

Lemma sanitize_chars name :
  Forall (λ c, name_char c = true \/ c = underscore) (sanitize name).
Proof.
  unfold sanitize. induction name as [|c name IH]; [constructor|].
  cbn [flat_map]. apply Forall_app. split; [|exact IH].
  destruct (name_char c) eqn:E; [by repeat constructor|].
  destruct (65536 <=? c)%N; repeat constructor; by right.
Qed.

Lemma sanitize_no_slash name : Forall (λ c, c ≠ slash) (sanitize name).
Proof.
  eapply Forall_impl; [apply sanitize_chars|]. cbn.
  intros c [Hc|Hc] Heq; rewrite Heq in Hc; by vm_compute in Hc.
Qed.

(** A name without a slash has no dot, or a last dot. *)
Lemma last_dot s :
  Forall (λ c, c ≠ slash) s ->
  Forall (λ c, c ≠ slash /\ c ≠ dot) s
  \/ exists a b, s = a ++ dot :: b
                 /\ Forall (λ c, c ≠ slash) a
                 /\ Forall (λ c, c ≠ slash /\ c ≠ dot) b.
Proof.
  intros Hs. destruct (decide (dot ∈ s)) as [Hin|Hout].
  - right. apply list_elem_of_split_r in Hin as (a & b & -> & Hb).
    exists a, b. apply Forall_app in Hs as [Ha Hs].
    apply Forall_cons in Hs as [_ Hs]. repeat split; try done.
    apply Forall_forall. intros c Hc. rewrite Forall_forall in Hs.
    split; [by apply Hs | by intros ->].
  - left. apply Forall_forall. intros c Hc. rewrite Forall_forall in Hs.
    split; [by apply Hs | by intros ->].
Qed.

Lemma extname_of_sanitized s ext :
  Forall (λ c, c ≠ slash) s ->
  Forall (λ c, c ≠ slash /\ c ≠ dot) ext -> ext <> [] ->
  extname s = dot :: ext <-> exists stem, stem <> [] /\ s = stem ++ dot :: ext.
Proof.
  intros Hs Hext Hne. split.
  - intros Hx. destruct (last_dot s Hs) as [Hplain|(a & b & -> & Ha & Hb)].
    + unfold extname in Hx. by rewrite scan_dotless in Hx.
    + rewrite extname_dotted in Hx by done.
      destruct (bool_decide _) eqn:E; [done|].
      injection Hx as ->. exists a. split; [|done].
      apply bool_decide_eq_false in E. intros ->. apply E. by left.
  - intros (stem & Hstem & ->). apply Forall_app in Hs as [Ha _].
    rewrite extname_dotted by done.
    rewrite bool_decide_eq_false_2; [done|]. by intros [|[_ ?]].
Qed.

(** X22. An upload is accepted by the extension of its sanitized name.
    Sanitizing leaves the letters, digits, dots and hyphens of ASCII and
    turns every other character into an underscore, so that the name
    holds no path separator.  The extension check lets the upload
    through exactly when the sanitized name is a stem of at least one
    character followed by [.csv] or by [.CSV]: a name that is only
    [.csv], and any other spelling of the extension, is refused. *)
Theorem X22_upload_is_accepted_by_its_extension (name : text) :
  Forall (λ c, name_char c = true \/ c = underscore) (sanitize name)
  /\ (extension_allowed name = true
      <-> exists stem,
            stem <> []
            /\ (sanitize name = stem ++ str ".csv"
                \/ sanitize name = stem ++ str ".CSV")).
Proof.
  split; [apply sanitize_chars|].
  pose proof (sanitize_no_slash name) as Hs.
  assert (Hcsv : Forall (λ c, c ≠ slash /\ c ≠ dot) (str "csv"))
    by (repeat constructor; by vm_compute).
  assert (HCSV : Forall (λ c, c ≠ slash /\ c ≠ dot) (str "CSV"))
    by (repeat constructor; by vm_compute).
  unfold extension_allowed, allowedExtensions.
  rewrite bool_decide_eq_true, !elem_of_cons, elem_of_nil.
  change (str ".csv") with (dot :: str "csv").
  change (str ".CSV") with (dot :: str "CSV").
  rewrite !extname_of_sanitized by (done || by vm_compute).
  split.
  - intros [(stem & H1 & H2)|[(stem & H1 & H2)|[]]]; exists stem; auto.
  - intros (stem & H1 & [H2|H2]); [left | right; left]; by exists stem.
Qed.

(** X22 on three names. *)
Lemma X22_upload_is_accepted_by_its_extension_witness :
  extension_allowed (str "volvo 2024.csv") = true
  /\ extension_allowed (str ".csv") = false
  /\ extension_allowed (str "volvo.Csv") = false.
Proof.
  destruct (X22_upload_is_accepted_by_its_extension (str "volvo 2024.csv"))
    as [_ [_ Hacc]].
  split; [|split; by vm_compute].
  apply Hacc. exists (str "volvo_2024"). split; [by vm_compute|]. left.
  by vm_compute.
Defined.

End UploadProps.

(* ===================================================================== *)
(** * Line endings                                                        *)
(* ===================================================================== *)

Module LineEndingProps.
Import ParserNotions RecordNotions.
Import JS CsvParser ParserProps.

Lemma split_lines_from_crlf s : forall cur,
  carriage_return ∉ s ->
  split_lines_from cur (crlf s) = split_lines_from cur s.
Proof.
  induction s as [|c s IH]; intros cur Hs; [done|].
  apply not_elem_of_cons in Hs as [Hc Hs].
  cbn [crlf flat_map]. fold (crlf s).
  destruct (N.eqb_spec c 10) as [->|Hlf].
  - cbn. by rewrite IH.
  - cbn [app split_lines_from].
    destruct (N.eqb_spec c 10) as [|_]; [done|].
    destruct (N.eqb_spec c 13) as [->|_]; [done|]. by apply IH.
Qed.

Lemma strip_bom_crlf s : strip_bom (crlf s) = crlf (strip_bom s).
Proof.
  destruct s as [|c s]; [done|]. cbn [crlf flat_map]. fold (crlf s).
  destruct (N.eqb_spec c 10) as [->|Hlf]; [done|]. cbn.
  destruct (c =? 65279)%N; [done|]. cbn.
  by destruct (N.eqb_spec c 10).
Qed.

Lemma remove_nulls_crlf s : remove_nulls (crlf s) = crlf (remove_nulls s).
Proof.
  unfold remove_nulls, text. induction s as [|c s IH]; [done|].
  cbn [crlf flat_map]. fold (crlf s). rewrite filter_app, IH.
  destruct (N.eqb_spec c 10) as [->|Hlf].
  - by rewrite (filter_cons_True _ 10%N) by done.
  - destruct (decide (c = 0%N)) as [->|Hnull].
    + by rewrite (filter_cons_False _ 0%N) by (by intros ?).
    + rewrite (filter_cons_True _ c s) by done.
      rewrite (filter_cons_True _ c []) by done.
      cbn. by destruct (N.eqb_spec c 10).
Qed.

Lemma replace_nbsp_crlf s : replace_nbsp (crlf s) = crlf (replace_nbsp s).
Proof.
  unfold replace_nbsp. induction s as [|c s IH]; [done|].
  cbn [crlf flat_map map]. fold (crlf s). rewrite map_app, IH.
  destruct (N.eqb_spec c 10) as [->|Hlf]; [done|].
  destruct (N.eqb_spec c 160) as [->|Hsp]; [done|]. cbn.
  rewrite (proj2 (N.eqb_neq c 160)) by done.
  by rewrite (proj2 (N.eqb_neq c 10)) by done.
Qed.

Lemma clean_content_no_return s :
  carriage_return ∉ s -> carriage_return ∉ clean_content s.
Proof.
  intros Hs Hin. apply Hs. unfold clean_content, replace_nbsp, remove_nulls in Hin.
  apply list_elem_of_fmap in Hin as (c & Hc & Hin).
  apply list_elem_of_filter in Hin as [_ Hin].
  assert (c = carriage_return) as ->
    by (destruct (c =? 160)%N; [done | by subst]).
  destruct s as [|x s]; [done|]. cbn in Hin.
  destruct (x =? 65279)%N; [by right | done].
Qed.

(** X24. Windows line endings change nothing.  For an input without
    carriage returns, the same input with every line feed written as
    carriage return and line feed is cut into the same lines; so in the
    line layout the parser returns the same records for both. *)
Theorem X24_windows_line_endings_change_nothing (csv : text) (flag : bool) :
  carriage_return ∉ csv ->
  split_lines (clean_content (crlf csv)) = split_lines (clean_content csv)
  /\ ((2 < length (split_lines (clean_content csv)))%nat ->
      parseCSVData (crlf csv) flag = parseCSVData csv flag).
Proof.
  intros Hcr.
  assert (Hlines : split_lines (clean_content (crlf csv))
                   = split_lines (clean_content csv)).
  { unfold clean_content.
    rewrite strip_bom_crlf, remove_nulls_crlf, replace_nbsp_crlf.
    apply split_lines_from_crlf. by apply clean_content_no_return. }
  split; [exact Hlines|]. intros Hlen.
  unfold parseCSVData, parseCSVData_state. rewrite Hlines.
  by destruct (Nat.ltb_spec 2 (length (split_lines (clean_content csv))));
    [|lia].
Qed.

(** X24 on a file of a header and one row. *)
Lemma X24_windows_line_endings_change_nothing_witness :
  let csv := str "Category;StartDate" ++ [line_feed]
             ++ str "Privat;2024-01-01;100;A;2024-01-01;150;B;1h 0m;50;5 l;Trip;0 kWh;0 kWh;"
             ++ [line_feed] in
  map startDate (parseCSVData (crlf csv) false) = [str "2024-01-01"].
Proof.
  intros csv.
  destruct (X24_windows_line_endings_change_nothing csv false) as [_ Hsame].
  - apply (bool_decide_unpack _). by vm_compute.
  - rewrite Hsame; [by vm_compute | vm_compute; lia].
Defined.

End LineEndingProps.

(* ===================================================================== *)
(** * The route that edits a trip                                         *)
(* ===================================================================== *)

Module TripRouteProps.
Import StoreNotions KeptNotions.
Import JS Store Sqlite Database Statements Maintenance TripRoute.
Import InsertProps.

Lemma any_row_matches (n : number) (rows : list StoredTrip) :
  (0 <? Z.of_nat (length (filter (λ r, id_is n r = true) rows)))
  = existsb (id_is n) rows.
Proof.
  induction rows as [|r rows IH]; [done|]. cbn [existsb].
  destruct (id_is n r) eqn:E.
  - rewrite filter_cons_True by done. cbn [length orb].
    apply Z.ltb_lt. lia.
  - rewrite filter_cons_False by (by rewrite E). exact IH.
Qed.

(** X23. The answers of the route that edits a trip.  The handler
    always answers.  It answers 500 exactly when the body cannot be
    read; a failure of the store is not among its causes, for
    [updateTrip] turns it into [false], which is answered 404 like a
    trip that does not exist.  On a store in order, with a body that
    gives a category or notes, it answers 200 when a row has the [id]
    that [parseInt] reads from the path parameter, and 404 when none
    has. *)
Theorem X23_answers_of_the_edit_route (id : text)
    (body : option (option text * option text)) (w : world) :
  (exists a w', PUT id body w = (Ok a, w'))
  /\ ((PUT id body w).1 = Ok CouldNotUpdate <-> body = None)
  /\ (forall c nt e w',
      body = Some (c, nt) ->
      getDatabase w = (Throw e, w') ->
      PUT id body w = (Ok NotFound, w'))
  /\ (forall c nt rows,
      body = Some (c, nt) ->
      is_Some c \/ is_Some nt ->
      ready w rows ->
      (PUT id body w).1
      = Ok (if existsb (id_is (parseInt id)) rows
            then Updated else NotFound)).
Proof.
  assert (Hupd : forall n c nt, exists b w',
            updateTrip n c nt w = (Ok b, w')).
  { intros n c nt. unfold updateTrip, try_catch, ret.
    match goal with
    | |- context [match ?m w with _ => _ end] =>
        destruct (m w) as [[b|e] w']
    end; by eexists _, _. }
  split; [|split; [|split]].
  - destruct body as [[c nt]|]; [|by eexists _, _].
    destruct (Hupd (parseInt id) c nt) as (b & w' & Hrun).
    unfold PUT, try_catch, bind, ret. rewrite Hrun. by eexists _, _.
  - destruct body as [[c nt]|]; [|done].
    destruct (Hupd (parseInt id) c nt) as (b & w' & Hrun).
    unfold PUT, try_catch, bind, ret. rewrite Hrun. cbn.
    split; [by destruct b | done].
  - intros c nt e w' -> Hdb.
    unfold PUT, try_catch, bind, ret, updateTrip, try_catch, bind, ret.
    by rewrite Hdb.
  - intros c nt rows -> Hgiven
      (dd & check & seq & settings & bk & ck & lg & ->).
    unfold PUT, try_catch, bind, ret.
    assert (Hrun : updateTrip (parseInt id) c nt
                     (ready_world dd check rows seq settings bk ck lg)
                   = (Ok (0 <? Z.of_nat (length (filter
                            (λ r, id_is (parseInt id) r = true) rows))),
                      ready_world dd check (updated (parseInt id) c nt rows)
                        seq settings bk ck lg)).
    { destruct c, nt; [reflexivity..|].
      by destruct Hgiven as [[? [=]] | [? [=]]]. }
    rewrite Hrun. cbn [fst]. rewrite any_row_matches.
    by destruct (existsb _ rows).
Qed.

(** X23 on a store with one trip and the path parameter [1abc]. *)
Lemma X23_answers_of_the_edit_route_witness :
  let t1 := mkTrip (str "Privat") (str "2024-01-01") (Fin 100) [] []
              (Fin 150) [] [] (Fin 50) [] [] [] [] [] in
  let w := ready_world true "ok" [mkStored 1 t1] 1 [] ∅ [] [] in
  (PUT (str "1abc") (Some (Some (str "Arbete"), None)) w).1 = Ok Updated
  /\ (PUT (str "2") (Some (Some (str "Arbete"), None)) w).1 = Ok NotFound.
Proof.
  intros t1 w. split.
  - destruct (X23_answers_of_the_edit_route (str "1abc")
                (Some (Some (str "Arbete"), None)) w) as (_ & _ & _ & Hready).
    rewrite (Hready (Some (str "Arbete")) None [mkStored 1 t1] eq_refl);
      [|left; by eexists|apply ready_intro].
    by vm_compute.
  - by vm_compute.
Defined.

End TripRouteProps.
